(** * DBAPI Service: the dynamic API execution engine

    A shallow embedding of the execution engine of the service: the SQL
    parameter extractor, the request validator, the connection-pool
    registry, the route matcher, the SQL renderer with its row cap, and the
    access/usage telemetry written by the wildcard route; and, around them,
    the operations on the pools, the test route of an endpoint, the
    generator of endpoint drafts from a table with the handler that saves
    them, the address of the caller and the address whitelist.

    Conventions of the embedding.
    - JavaScript strings are [string] (sequences of 8-bit characters); only
      the ASCII behaviour of [trim], [toUpperCase], [toLowerCase] and of the
      regular-expression classes [\w], [\s] is modelled.
    - SQLite columns of type INTEGER are [Z]; the REAL column
      [avg_response_time] is an exact rational ([Q]), with SQL NULL as
      [None].
    - An exception is a value of a sum type; asynchronous calls are run to
      completion in program order.
    - JavaScript numbers appear in the whitelist only; they are modelled
      where they are [NaN] or integers that a double holds exactly. *)

From Stdlib Require Import String Ascii List ZArith QArith Bool Lia.
From stdpp Require Import base option list gmap strings pretty.

Local Open Scope string_scope.
Local Open Scope list_scope.

(** ** JavaScript string primitives *)

Module JsString.

Definition is_ws (c : ascii) : bool :=
  let n := nat_of_ascii c in
  (n =? 32)%nat || ((9 <=? n)%nat && (n <=? 13)%nat).

Definition is_digit (c : ascii) : bool :=
  let n := nat_of_ascii c in (48 <=? n)%nat && (n <=? 57)%nat.

Definition is_upper (c : ascii) : bool :=
  let n := nat_of_ascii c in (65 <=? n)%nat && (n <=? 90)%nat.

Definition is_lower (c : ascii) : bool :=
  let n := nat_of_ascii c in (97 <=? n)%nat && (n <=? 122)%nat.

(** The class [\w] of a regular expression. *)
Definition is_word (c : ascii) : bool :=
  is_digit c || is_upper c || is_lower c || Ascii.eqb c "_"%char.

Definition upper (c : ascii) : ascii :=
  if is_lower c then ascii_of_nat (nat_of_ascii c - 32) else c.

Definition lower (c : ascii) : ascii :=
  if is_upper c then ascii_of_nat (nat_of_ascii c + 32) else c.

Fixpoint map (f : ascii -> ascii) (s : string) : string :=
  match s with
  | EmptyString => EmptyString
  | String c s' => String (f c) (map f s')
  end.

Definition toUpperCase : string -> string := map upper.
Definition toLowerCase : string -> string := map lower.

Fixpoint forallb (f : ascii -> bool) (s : string) : bool :=
  match s with
  | EmptyString => true
  | String c s' => f c && forallb f s'
  end.

Fixpoint rev_append (s acc : string) : string :=
  match s with
  | EmptyString => acc
  | String c s' => rev_append s' (String c acc)
  end.

Definition rev (s : string) : string := rev_append s EmptyString.

Fixpoint trimStart (s : string) : string :=
  match s with
  | EmptyString => EmptyString
  | String c s' => if is_ws c then trimStart s' else s
  end.

Definition trimEnd (s : string) : string := rev (trimStart (rev s)).

Definition trim (s : string) : string := trimEnd (trimStart s).

Fixpoint startsWith (p s : string) : bool :=
  match p, s with
  | EmptyString, _ => true
  | String a p', String b s' => Ascii.eqb a b && startsWith p' s'
  | String _ _, EmptyString => false
  end.

Definition endsWith (p s : string) : bool := startsWith (rev p) (rev s).

Fixpoint includes (p s : string) : bool :=
  startsWith p s ||
  match s with
  | EmptyString => false
  | String _ s' => includes p s'
  end.

Fixpoint take (n : nat) (s : string) : string :=
  match n, s with
  | S n', String c s' => String c (take n' s')
  | _, _ => EmptyString
  end.

Fixpoint drop (n : nat) (s : string) : string :=
  match n, s with
  | S n', String _ s' => drop n' s'
  | _, _ => s
  end.

(** [s.lastIndexOf(c)], with [None] for -1. *)
Fixpoint lastIndexOf (c : ascii) (s : string) : option nat :=
  match s with
  | EmptyString => None
  | String a s' =>
      match lastIndexOf c s' with
      | Some i => Some (S i)
      | None => if Ascii.eqb a c then Some 0%nat else None
      end
  end.

(** [s.split(c)] for a one-character separator. *)
Fixpoint split (c : ascii) (s : string) : list string :=
  match s with
  | EmptyString => [EmptyString]
  | String a s' =>
      if Ascii.eqb a c then EmptyString :: split c s'
      else match split c s' with
           | x :: xs => String a x :: xs
           | [] => [String a EmptyString]
           end
  end.

(** Truthiness of a string: [filter(Boolean)] keeps the non-empty ones. *)
Definition truthy (s : string) : bool :=
  match s with EmptyString => false | _ => true end.

End JsString.

(** ** The SQL parameter extractor (utils/sqlParameterExtractor) *)

Module SQLParameterExtractor.
Import JsString.

Inductive ParamType := path | query | body.
Inductive DataType := string_t | number_t | boolean_t | date_t.

(** [ExtractedParameter]; an optional field that is [undefined] (or NULL in
    a row read back from the store) is [None]. *)
Record ExtractedParameter := {
  param_name : string;
  param_type : ParamType;
  data_type : DataType;
  required : Z;
  default_value : option string;
  validation_rule : option string;
  description : option string
}.

(** The longest run of [\w] characters in front of [s], and what follows. *)
Fixpoint span_word (s : string) : string * string :=
  match s with
  | String c s' =>
      if is_word c then let (w, r) := span_word s' in (String c w, r)
      else (EmptyString, s)
  | EmptyString => (EmptyString, EmptyString)
  end.

(** One attempt of [/\{\{(\w+)\}\}/] at the head of [s]: the captured name
    and the length of the whole match. [\w+] is greedy and what follows
    it is not a word character, so backtracking never helps. *)
Definition match_placeholder (s : string) : option (string * nat) :=
  match s with
  | String "{" (String "{" s1) =>
      match span_word s1 with
      | (String c w, String "}" (String "}" _)) =>
          Some (String c w, (String.length (String c w) + 4)%nat)
      | _ => None
      end
  | _ => None
  end.

(** The [regex.exec] loop: every match, left to right, the next search
    starting where the previous match ended. [skip] counts the characters
    of the current match still to be passed over. *)
Fixpoint exec_all (skip : nat) (s : string) : list string :=
  match s with
  | EmptyString => []
  | String _ s' =>
      match skip with
      | S k => exec_all k s'
      | O =>
          match match_placeholder s with
          | Some (name, len) => name :: exec_all (len - 1) s'
          | None => exec_all 0 s'
          end
      end
  end.

Definition includes_name (matches : list string) (n : string) : bool :=
  existsb (String.eqb n) matches.

(** [if (!matches.includes(paramName)) matches.push(paramName)]. *)
Definition push_new (matches : list string) (n : string) : list string :=
  if includes_name matches n then matches else matches ++ [n].

Definition extract_names (sqlTemplate : string) : list string :=
  fold_left push_new (exec_all 0 sqlTemplate) [].

Definition commonPathParams : list string := ["id"; "uuid"; "pk"; "primary_key"].
Definition commonQueryParams : list string :=
  ["limit"; "offset"; "order_by"; "order"; "sort"; "search"; "page"; "size";
   "filter"; "start_date"; "end_date"; "from"; "to"].

Definition name_or_suffix (lowerParamName p : string) : bool :=
  String.eqb lowerParamName p || endsWith ("_" +:+ p) lowerParamName.

Definition inferParamType (paramName sqlTemplate : string) : ParamType :=
  let lowerParamName := toLowerCase paramName in
  if existsb (name_or_suffix lowerParamName) commonPathParams then path
  else if existsb (name_or_suffix lowerParamName) commonQueryParams then query
  else if includes "insert" (toLowerCase sqlTemplate)
          || includes "update" (toLowerCase sqlTemplate) then body
  else query.

(** The patterns of [inferDataType] are of two shapes only: [/x$/] and
    [/x/]. *)
Inductive pattern := Ends (x : string) | Contains (x : string).

Definition test (p : pattern) (s : string) : bool :=
  match p with
  | Ends x => endsWith x s
  | Contains x => includes x s
  end.

Definition numberPatterns : list pattern :=
  [Ends "id"; Ends "_id"; Ends "count"; Ends "total"; Ends "sum"; Ends "avg";
   Ends "max"; Ends "min"; Ends "limit"; Ends "offset"; Ends "page";
   Ends "size"; Ends "amount"; Ends "price"; Ends "quantity"; Ends "age";
   Ends "score"; Ends "rate"; Ends "percent"; Ends "ratio"].

Definition booleanPatterns : list pattern :=
  [Contains "is_"; Contains "has_"; Ends "enabled"; Ends "disabled";
   Ends "active"; Ends "inactive"; Ends "deleted"; Ends "verified";
   Ends "approved"; Ends "rejected"; Ends "published"; Ends "visible";
   Ends "hidden"; Ends "locked"; Ends "unlocked"].

Definition datePatterns : list pattern :=
  [Ends "date"; Ends "time"; Ends "_at"; Ends "_on"; Ends "created";
   Ends "updated"; Ends "deleted"; Ends "start"; Ends "end"; Ends "from";
   Ends "to"; Ends "begin"; Ends "expire"; Ends "due"; Ends "birthday";
   Ends "birth_date"; Ends "join_date"; Ends "register_date"].

Definition inferDataType (paramName sqlTemplate : string) : DataType :=
  let lowerParamName := toLowerCase paramName in
  if existsb (fun p => test p lowerParamName) numberPatterns then number_t
  else if existsb (fun p => test p lowerParamName) booleanPatterns then boolean_t
  else if existsb (fun p => test p lowerParamName) datePatterns then date_t
  else string_t.

Definition commonOptionalParams : list string :=
  ["limit"; "offset"; "order_by"; "order"; "search"; "page"; "size"; "filter"].

Definition inferRequired (paramName sqlTemplate : string) : bool :=
  let lowerParamName := toLowerCase paramName in
  if existsb (String.eqb lowerParamName) commonOptionalParams then false
  else if startsWith "optional_" lowerParamName then false
  else if endsWith "_optional" lowerParamName then false
  else true.

Definition descriptions : list (string * string) :=
  [("id", "Record identifier");
   ("limit", "Maximum number of records to return");
   ("offset", "Number of records to skip");
   ("order_by", "Column to order by");
   ("order", "Sort order (ASC or DESC)");
   ("search", "Search term for filtering");
   ("page", "Page number");
   ("size", "Page size");
   ("start_date", "Start date for filtering");
   ("end_date", "End date for filtering");
   ("status", "Record status");
   ("name", "Name");
   ("email", "Email address");
   ("username", "Username");
   ("password", "Password");
   ("created_at", "Creation timestamp");
   ("updated_at", "Last update timestamp");
   ("deleted_at", "Deletion timestamp")].

Fixpoint assoc (k : string) (l : list (string * string)) : option string :=
  match l with
  | [] => None
  | (k', v) :: l' => if String.eqb k k' then Some v else assoc k l'
  end.

(** The table is an object literal, so the two lower-case names every
    object inherits, [constructor] and [__proto__], are found as well and
    give a truthy value that is no text of the table; it is written here
    as JavaScript prints it. *)
Definition generateDescription (paramName : string) : string :=
  let lowerParamName := toLowerCase paramName in
  match assoc lowerParamName descriptions with
  | Some d => d
  | None =>
      if String.eqb lowerParamName "constructor"
      then "function Object() { [native code] }"
      else if String.eqb lowerParamName "__proto__" then "[object Object]"
      else paramName +:+ " parameter"
  end.

Definition inferParameter (paramName sqlTemplate : string) : ExtractedParameter :=
  {| param_name := paramName;
     param_type := inferParamType paramName sqlTemplate;
     data_type := inferDataType paramName sqlTemplate;
     required := if inferRequired paramName sqlTemplate then 1 else 0;
     default_value := None;
     validation_rule := None;
     description := Some (generateDescription paramName) |}.

(** [!sqlTemplate] holds of the empty string; the type check of the source
    is the type of the argument here. *)
Definition extractParameters (sqlTemplate : string) : list ExtractedParameter :=
  if truthy sqlTemplate
  then List.map (fun n => inferParameter n sqlTemplate) (extract_names sqlTemplate)
  else [].

(** [new Map(existingParameters.map(p => [p.param_name, p]))]: entries are
    set in order, a later entry replaces an earlier one of the same name. *)
Definition existingMap (existingParameters : list ExtractedParameter)
  : gmap string ExtractedParameter :=
  fold_left (fun m p => <[param_name p := p]> m) existingParameters ∅.

(** [a || b] on optional strings: [undefined], [null] and the empty string
    are falsy. *)
Definition or_else (a b : option string) : option string :=
  match a with
  | Some s => if truthy s then a else b
  | None => b
  end.

Definition merge_existing (existing param : ExtractedParameter) : ExtractedParameter :=
  {| param_name := param_name param;
     param_type := param_type existing;
     data_type := data_type existing;
     required := required existing;
     default_value := default_value existing;
     validation_rule := validation_rule existing;
     description := or_else (description existing) (description param) |}.

Definition extractParametersWithDefaults
    (sqlTemplate : string) (existingParameters : list ExtractedParameter)
  : list ExtractedParameter :=
  let extracted := extractParameters sqlTemplate in
  let m := existingMap existingParameters in
  List.map (fun param =>
              match m !! param_name param with
              | Some existing => merge_existing existing param
              | None => param
              end) extracted.

End SQLParameterExtractor.

(** ** JavaScript values and objects *)

Module Js.
Import JsString.

(** The values a parameter bag holds: what a path segment, a query string or
    a JSON body brings (nested arrays and objects are left out). *)
Inductive jsval :=
| JStr (s : string)
| JNum (n : Z)
| JBool (b : bool)
| JNull.

(** [String(value)]. *)
Definition to_String (v : jsval) : string :=
  match v with
  | JStr s => s
  | JNum n => pretty n
  | JBool true => "true"
  | JBool false => "false"
  | JNull => "null"
  end.

(** A plain object with string keys, as the list [Object.entries] gives:
    array-index keys first, in ascending numeric order, then the other keys
    in the order of their creation. The accessor key [__proto__] is treated
    as any other key. *)
Definition obj (A : Type) : Type := list (string * A).

Fixpoint digits_value (acc : N) (s : string) : N :=
  match s with
  | EmptyString => acc
  | String c s' => digits_value (acc * 10 + (N_of_ascii c - 48))%N s'
  end.

(** A key is an array index when it is the canonical decimal text of an
    integer below 2^32 - 1. *)
Definition array_index (k : string) : option N :=
  match k with
  | EmptyString => None
  | String c k' =>
      if JsString.forallb is_digit k
         && (negb (Ascii.eqb c "0"%char) || negb (truthy k'))
         && (String.length k <=? 10)%nat
         && (digits_value 0 k <? 4294967295)%N
      then Some (digits_value 0 k)
      else None
  end.

Definition has_key {A} (k : string) (o : obj A) : bool :=
  existsb (fun e => String.eqb (fst e) k) o.

Fixpoint get {A} (k : string) (o : obj A) : option A :=
  match o with
  | [] => None
  | (k', v) :: o' => if String.eqb k' k then Some v else get k o'
  end.

Fixpoint replace_value {A} (k : string) (v : A) (o : obj A) : obj A :=
  match o with
  | [] => []
  | (k', v') :: o' =>
      if String.eqb k' k then (k', v) :: o' else (k', v') :: replace_value k v o'
  end.

(** Where a new array-index key goes: before the first key that is no array
    index or a greater one. *)
Fixpoint insert_index {A} (i : N) (k : string) (v : A) (o : obj A) : obj A :=
  match o with
  | [] => [(k, v)]
  | (k', v') :: o' =>
      match array_index k' with
      | Some j => if (j <? i)%N then (k', v') :: insert_index i k v o'
                  else (k, v) :: o
      | None => (k, v) :: o
      end
  end.

(** [o[k] = v]. *)
Definition set {A} (k : string) (v : A) (o : obj A) : obj A :=
  if has_key k o then replace_value k v o
  else match array_index k with
       | Some i => insert_index i k v o
       | None => o ++ [(k, v)]
       end.

(** [Object.assign(target, source)], also one step of an object spread. *)
Definition assign {A} (target source : obj A) : obj A :=
  fold_left (fun t e => set (fst e) (snd e) t) source target.

Definition keys {A} (o : obj A) : list string := List.map fst o.

(** The same keys in the same order, each value through [f]. *)
Definition map_values {A B} (f : A -> B) (o : obj A) : obj B :=
  List.map (fun e => (fst e, f (snd e))) o.


End Js.

(** ** The request validator (services/validationService) *)

Module ValidationService.
Import JsString Js.

Record APIParameter := {
  id : option Z;
  api_id : Z;
  param_name : string;
  param_type : string;
  data_type : string;
  required : Z;
  default_value : option string;
  validation_rule : option string;
  description : option string
}.

Record ValidationResult := {
  valid : bool;
  errors : option (obj string);
  sanitizedParams : option (obj jsval)
}.

(** The double quote, which Joi puts around the key in its messages. *)
Definition dquote : string := String (ascii_of_nat 34) EmptyString.

Definition required_message (key : string) : string :=
  dquote +:+ key +:+ dquote +:+ " is required".

(** [getAPIParameters]: the rows of [api_parameters] of one endpoint, in
    the order of their ids, which is the order of the table here. A failed
    read is caught in the source and gives the empty list as well. *)
Definition getAPIParameters (api_parameters : list APIParameter) (apiId : Z)
  : list APIParameter :=
  List.filter (fun p => (api_id p =? apiId)%Z) api_parameters.

(** [sanitizeInput]. *)
Definition sanitizeInput (value : jsval) : jsval :=
  match value with
  | JStr s => JStr (trim s)
  | v => v
  end.

(** [validateSQLParams]: the names of the placeholders of [sql] that the bag
    does not give a value other than [null]. *)
Definition missing_sql_params (sql : string) (params : obj jsval) : list string :=
  List.filter
    (fun p => match get p params with
              | None | Some JNull => true
              | Some _ => false
              end)
    (SQLParameterExtractor.extract_names sql).

Definition validateSQLParams (sql : string) (params : obj jsval) : ValidationResult :=
  match missing_sql_params sql params with
  | [] => {| valid := true; errors := None; sanitizedParams := None |}
  | missing =>
      {| valid := false;
         errors := Some [("_sql", "Missing required SQL parameters: "
                                    +:+ String.concat ", " missing)];
         sanitizedParams := None |}
  end.

Section Joi.

(** What the rule that [buildJoiSchema] attaches to a parameter (its type
    with Joi's conversions, its default, the constraints decoded from
    [validation_rule]) reports on a value that is present: the messages of
    all the checks that fail, none when the value passes. *)
Variable joi_rule : APIParameter -> jsval -> list string.

(** Whether building or running the schema throws, which [validateRequest]
    catches. *)
Variable joi_throws : list APIParameter -> obj jsval -> bool.

(** [buildJoiSchema]: [schemaObj[param.param_name] = joiType], so the rule of
    a later parameter replaces that of an earlier one of the same name. *)
Definition buildJoiSchema (parameters : list APIParameter) : obj APIParameter :=
  fold_left (fun schemaObj param => set (param_name param) param schemaObj)
            parameters [].

(** The error details of one key of the schema: [(path, message)] pairs. A
    key that is absent fails when it is required and passes otherwise. *)
Definition validate_key (params : obj jsval) (e : string * APIParameter)
  : list (string * string) :=
  let (key, param) := e in
  match get key params with
  | None => if (required param =? 1)%Z then [(key, required_message key)] else []
  | Some v => List.map (fun m => (key, m)) (joi_rule param v)
  end.

(** [schema.validate(params, { abortEarly: false, stripUnknown: true })]:
    every key of the schema is checked and every failure is reported; a key
    of the bag that the schema does not know is no error. Only the error
    is modelled: the source does not use the value that Joi returns. *)
Definition validate (schema : obj APIParameter) (params : obj jsval)
  : list (string * string) :=
  List.concat (List.map (validate_key params) schema).

(** [errors[detail.path.join('.')] = detail.message] for every detail. *)
Definition collect_errors (details : list (string * string)) : obj string :=
  fold_left (fun errors d => set (fst d) (snd d) errors) details [].

Definition validateRequest (api_parameters : list APIParameter) (apiId : Z)
    (params : obj jsval) : ValidationResult :=
  let parameters := getAPIParameters api_parameters apiId in
  if (List.length parameters =? 0)%nat
  then {| valid := true; errors := None; sanitizedParams := None |}
  else if joi_throws parameters params
  then {| valid := false; errors := Some [("_general", "Validation failed")];
          sanitizedParams := None |}
  else
    match validate (buildJoiSchema parameters) params with
    | [] => {| valid := true; errors := None; sanitizedParams := None |}
    | details =>
        {| valid := false; errors := Some (collect_errors details);
           sanitizedParams := None |}
    end.

Definition validateAndSanitizeRequest (api_parameters : list APIParameter)
    (apiId : Z) (params : obj jsval) : ValidationResult :=
  let sanitizedParams :=
    fold_left (fun acc e => set (fst e) (sanitizeInput (snd e)) acc) params [] in
  let validationResult := validateRequest api_parameters apiId sanitizedParams in
  if negb (valid validationResult) then validationResult
  else {| valid := true; errors := None; sanitizedParams := Some sanitizedParams |}.

End Joi.

End ValidationService.

(** ** The connection-pool registry (services/databasePool) *)

Module DatabasePool.

Record DatabaseConfig := {
  host : string;
  port : Z;
  user : string;
  password : string;
  database : string;
  type : string
}.

(** The four [Map]s of the class, one per dialect. A pool is identified
    with the configuration it was created from. *)
Record registry := {
  mysqlPools : gmap string DatabaseConfig;
  pgPools : gmap string DatabaseConfig;
  mssqlPools : gmap string DatabaseConfig;
  oraclePools : gmap string DatabaseConfig
}.

Definition empty : registry :=
  {| mysqlPools := ∅; pgPools := ∅; mssqlPools := ∅; oraclePools := ∅ |}.

(** [Map.has]. *)
Definition has (m : gmap string DatabaseConfig) (poolName : string) : bool :=
  bool_decide (is_Some (m !! poolName)).

Section Driver.

(** The drivers of the third and fourth dialect connect while the pool is
    created ([await mssql.connect] and the session statement that follows
    it, [await oracledb.createPool]) and may reject: [Some] message then.
    The first two create their pool lazily. *)
Variable connect : DatabaseConfig -> option string.

Definition createMySQLPool (config : DatabaseConfig) (poolName : string)
    (r : registry) : string + registry :=
  if has (mysqlPools r) poolName
  then inl ("MySQL pool " +:+ poolName +:+ " already exists")
  else inr {| mysqlPools := <[poolName := config]> (mysqlPools r);
              pgPools := pgPools r;
              mssqlPools := mssqlPools r;
              oraclePools := oraclePools r |}.

Definition createPostgreSQLPool (config : DatabaseConfig) (poolName : string)
    (r : registry) : string + registry :=
  if has (pgPools r) poolName
  then inl ("PostgreSQL pool " +:+ poolName +:+ " already exists")
  else inr {| mysqlPools := mysqlPools r;
              pgPools := <[poolName := config]> (pgPools r);
              mssqlPools := mssqlPools r;
              oraclePools := oraclePools r |}.

Definition createMSSQLPool (config : DatabaseConfig) (poolName : string)
    (r : registry) : string + registry :=
  if has (mssqlPools r) poolName
  then inl ("MSSQL pool " +:+ poolName +:+ " already exists")
  else match connect config with
       | Some err => inl err
       | None =>
           inr {| mysqlPools := mysqlPools r;
                  pgPools := pgPools r;
                  mssqlPools := <[poolName := config]> (mssqlPools r);
                  oraclePools := oraclePools r |}
       end.

Definition createOraclePool (config : DatabaseConfig) (poolName : string)
    (r : registry) : string + registry :=
  if has (oraclePools r) poolName
  then inl ("Oracle pool " +:+ poolName +:+ " already exists")
  else match connect config with
       | Some err => inl err
       | None =>
           inr {| mysqlPools := mysqlPools r;
                  pgPools := pgPools r;
                  mssqlPools := mssqlPools r;
                  oraclePools := <[poolName := config]> (oraclePools r) |}
       end.

(** [createPool]: [inl] is the message of the error thrown. *)
Definition createPool (config : DatabaseConfig) (poolName : string)
    (r : registry) : string + registry :=
  if String.eqb (type config) "mysql" then createMySQLPool config poolName r
  else if String.eqb (type config) "postgresql" then createPostgreSQLPool config poolName r
  else if String.eqb (type config) "mssql" then createMSSQLPool config poolName r
  else if String.eqb (type config) "oracle" then createOraclePool config poolName r
  else inl ("Unsupported database type: " +:+ type config).

End Driver.

Definition supported (t : string) : bool :=
  String.eqb t "mysql" || String.eqb t "postgresql"
  || String.eqb t "mssql" || String.eqb t "oracle".

(** The map of the registry that belongs to a dialect. *)
Definition pools_of (t : string) (r : registry) : gmap string DatabaseConfig :=
  if String.eqb t "mysql" then mysqlPools r
  else if String.eqb t "postgresql" then pgPools r
  else if String.eqb t "mssql" then mssqlPools r
  else if String.eqb t "oracle" then oraclePools r
  else ∅.



End DatabasePool.

(** ** The Daily Usage Aggregate (table [api_call_stats]) *)

Module Stats.

Record row := {
  call_count : Z;
  success_count : Z;
  failure_count : Z;
  avg_response_time : option Q;
  last_called_at : string
}.

(** The table, by its unique key [(api_id, date)]. *)
Abbreviation table := (gmap (Z * string) row).

(** SQL arithmetic on a REAL that may be NULL. A division by zero is NULL. *)
Definition sql_mul (a : option Q) (b : Z) : option Q :=
  match a with Some x => Some (x * inject_Z b)%Q | None => None end.

Definition sql_add (a : option Q) (b : Z) : option Q :=
  match a with Some x => Some (x + inject_Z b)%Q | None => None end.

Definition sql_div (a : option Q) (b : Z) : option Q :=
  match a with
  | Some x => if (b =? 0)%Z then None else Some (x / inject_Z b)%Q
  | None => None
  end.

(** The upsert of every failure path:
    [INSERT ... VALUES (?, 1, 0, 1, 0, ?, ?) ON CONFLICT(api_id, date)
     DO UPDATE SET call_count = call_count + 1,
                   failure_count = failure_count + 1, last_called_at = ?].
    In the [SET] clause a column name is the value of the row before the
    update. *)
Definition upsert_failure (api_id : Z) (now today : string) (t : table) : table :=
  match t !! (api_id, today) with
  | None =>
      <[(api_id, today) :=
          {| call_count := 1; success_count := 0; failure_count := 1;
             avg_response_time := Some (inject_Z 0); last_called_at := now |}]> t
  | Some r =>
      <[(api_id, today) :=
          {| call_count := call_count r + 1;
             success_count := success_count r;
             failure_count := failure_count r + 1;
             avg_response_time := avg_response_time r;
             last_called_at := now |}]> t
  end.

(** The upsert of the success path:
    [INSERT ... VALUES (?, 1, 1, 0, ?, ?, ?) ON CONFLICT(api_id, date)
     DO UPDATE SET call_count = call_count + 1,
                   success_count = success_count + 1,
                   avg_response_time =
                     (avg_response_time * (call_count - 1) + ?) / call_count,
                   last_called_at = ?]. *)
Definition upsert_success (api_id : Z) (executionTime : Z) (now today : string)
    (t : table) : table :=
  match t !! (api_id, today) with
  | None =>
      <[(api_id, today) :=
          {| call_count := 1; success_count := 1; failure_count := 0;
             avg_response_time := Some (inject_Z executionTime);
             last_called_at := now |}]> t
  | Some r =>
      <[(api_id, today) :=
          {| call_count := call_count r + 1;
             success_count := success_count r + 1;
             failure_count := failure_count r;
             avg_response_time :=
               sql_div (sql_add (sql_mul (avg_response_time r) (call_count r - 1))
                                executionTime)
                       (call_count r);
             last_called_at := now |}]> t
  end.

(** The running average that the data model asks for, from the count and
    the average of the row before the update. *)
Definition running_average (old_avg : Q) (old_count : Z) (new_duration : Z) : Q :=
  ((old_avg * inject_Z old_count + inject_Z new_duration)
   / inject_Z (old_count + 1))%Q.

End Stats.

(** ** SQL rendering and the row cap (routes/execute, routes/api) *)

Module Render.
Import JsString Js.

(** [GetSubstitution] for a match without capture groups: in a replacement
    text, [$$] is a dollar sign, [$&] the matched text, [$`] the text before
    the match and [$'] the text after it; any other character stands for
    itself. *)
Fixpoint expand (matched before after replaceValue : string) : string :=
  match replaceValue with
  | EmptyString => EmptyString
  | String "$" (String "$" r) => String "$" (expand matched before after r)
  | String "$" (String "&" r) => matched +:+ expand matched before after r
  | String "$" (String "`" r) => before +:+ expand matched before after r
  | String "$" (String "'" r) => after +:+ expand matched before after r
  | String c r => String c (expand matched before after r)
  end.

(** [s.replace(re, replaceValue)] for a global [re] that matches exactly the
    non-empty text [pat]: every occurrence, left to right, without overlap.
    [before] is what has been passed of the subject, [skip] what is left of
    the current match. *)
Fixpoint replace_go (pat replaceValue before : string) (skip : nat)
    (rest : string) : string :=
  match rest with
  | EmptyString => EmptyString
  | String c rest' =>
      match skip with
      | S k => replace_go pat replaceValue (before +:+ String c EmptyString) k rest'
      | O =>
          if startsWith pat rest
          then expand pat before (drop (String.length pat) rest) replaceValue
               +:+ replace_go pat replaceValue (before +:+ String c EmptyString)
                              (String.length pat - 1) rest'
          else String c (replace_go pat replaceValue
                                    (before +:+ String c EmptyString) 0 rest')
      end
  end.

Definition replace_all (pat replaceValue s : string) : string :=
  replace_go pat replaceValue EmptyString 0 s.

(** The substitution of a text as it stands, for comparison: every
    occurrence of [pat], left to right, gives way to [v] itself. *)
Fixpoint substitute_go (pat v : string) (skip : nat) (rest : string) : string :=
  match rest with
  | EmptyString => EmptyString
  | String c rest' =>
      match skip with
      | S k => substitute_go pat v k rest'
      | O =>
          if startsWith pat rest
          then v +:+ substitute_go pat v (String.length pat - 1) rest'
          else String c (substitute_go pat v 0 rest')
      end
  end.

Definition substitute (pat v s : string) : string := substitute_go pat v 0 s.

Definition has_dollar (s : string) : bool := includes "$" s.

Fixpoint repeat_brace (n : nat) (tail : string) : string :=
  match n with
  | O => tail
  | S n' => String "{" (repeat_brace n' tail)
  end.

(** The text that [new RegExp('{{' + key + '}}', 'g')] matches, for a key
    made of word characters. A brace that opens no quantifier stands for
    itself, so the expression is the placeholder, literally; but when the key
    is a run of digits, [{key}] is a quantifier of the first brace, and the
    expression matches that many opening braces and one closing brace. *)
Definition pattern_of_key (key : string) : string :=
  if truthy key && JsString.forallb is_digit key
  then repeat_brace (N.to_nat (digits_value 0 key)) "}"
  else "{{" +:+ key +:+ "}}".

Section Rendering.

(** [sql.replace(new RegExp('{{' + key + '}}', 'g'), replaceValue)] for a key
    with a character outside [\w], where the key is read as a regular
    expression of its own: [inl] the message of the error thrown when the
    expression is malformed, [inr] the new text otherwise. *)
Variable replace_regexp : string -> string -> string -> string + string.

Definition replace_placeholder (key sql replaceValue : string) : string + string :=
  if JsString.forallb is_word key
  then inr (replace_all (pattern_of_key key) replaceValue sql)
  else replace_regexp key sql replaceValue.

Definition directReplaceParams : list string := ["order_by"; "order"; "limit"].
Definition searchParam : string := "search".

(** [String(value).replace(/'/g, "''")]. *)
Fixpoint escape_quotes (s : string) : string :=
  match s with
  | EmptyString => EmptyString
  | String c s' =>
      if Ascii.eqb c "'"%char then String "'" (String "'" (escape_quotes s'))
      else String c (escape_quotes s')
  end.

Record state := { sql : string; queryParams : list jsval }.

(** The body of the loop over [Object.entries(sanitizedParams)]; [inl] when
    the regular expression cannot be built. *)
Definition render_entry (st : state) (e : string * jsval) : string + state :=
  let (key, value) := e in
  let placeholder := "{{" +:+ key +:+ "}}" in
  if includes placeholder (sql st) then
    if String.eqb key searchParam then
      let escapedValue := escape_quotes (to_String value) in
      let replaceValue := "'%" +:+ escapedValue +:+ "%'" in
      match replace_placeholder key (sql st) replaceValue with
      | inr s => inr {| sql := s; queryParams := queryParams st |}
      | inl err => inl err
      end
    else if existsb (String.eqb key) directReplaceParams then
      let replaceValue := to_String value in
      match replace_placeholder key (sql st) replaceValue with
      | inr s => inr {| sql := s; queryParams := queryParams st |}
      | inl err => inl err
      end
    else
      match replace_placeholder key (sql st) "?" with
      | inr s => inr {| sql := s; queryParams := queryParams st ++ [value] |}
      | inl err => inl err
      end
  else inr st.

Fixpoint render_loop (st : state) (entries : list (string * jsval)) : string + state :=
  match entries with
  | [] => inr st
  | e :: rest =>
      match render_entry st e with
      | inr st' => render_loop st' rest
      | inl err => inl err
      end
  end.

Definition render (sql_template : string) (sanitizedParams : obj jsval)
  : string + state :=
  render_loop {| sql := sql_template; queryParams := [] |} sanitizedParams.

End Rendering.

(** [sql.substring(0, i) + clause + sql.substring(i)] at the last semicolon,
    [sql + clause] without one. *)
Definition insert_clause (clause sql : string) : string :=
  match lastIndexOf ";" sql with
  | Some lastSemicolon =>
      take lastSemicolon sql +:+ clause +:+ drop lastSemicolon sql
  | None => sql +:+ clause
  end.

(** [sql.replace(/^SELECT\s+/i, 'SELECT TOP 1000 ')]: the expression is tried
    at the first character of [sql] only. *)
Definition replace_leading_select (sql : string) : string :=
  if startsWith "SELECT" (toUpperCase (take 6 sql)) then
    match drop 6 sql with
    | String c r =>
        if is_ws c then "SELECT TOP 1000 " +:+ trimStart r else sql
    | EmptyString => sql
    end
  else sql.

(** The row cap, for the dialect [type] of the datasource. *)
Definition row_cap (type sql : string) : string :=
  let trimmedSql := toUpperCase (trim sql) in
  if startsWith "SELECT" trimmedSql then
    if String.eqb type "mysql" || String.eqb type "postgresql" then
      if negb (includes " LIMIT " trimmedSql) && negb (endsWith " LIMIT" trimmedSql)
      then insert_clause " LIMIT 1000" sql
      else sql
    else if String.eqb type "mssql" then
      if negb (includes " TOP " trimmedSql) then replace_leading_select sql
      else sql
    else if String.eqb type "oracle" then
      if negb (includes " ROWNUM " trimmedSql)
         && negb (includes " FETCH FIRST " trimmedSql)
      then insert_clause " FETCH FIRST 1000 ROWS ONLY" sql
      else sql
    else sql
  else sql.

End Render.

(** ** The wildcard route (routes/execute)

    The reads and writes of the metadata store ([query]) are taken to
    succeed; the errors that reach the [catch] block are those of the
    rendering and of the query against the datasource. *)

Module Execute.
Import JsString Js.

(** The columns of [datasources] that the route reads. *)
Record datasource := {
  ds_id : Z;
  ds_name : string;
  type : string;
  ds_status : string
}.

(** A row of [apis LEFT JOIN datasources]; [ds] is [None] when the join
    finds no datasource and its columns are NULL. *)
Record api_row := {
  id : Z;
  path : string;
  method : string;
  datasource_id : Z;
  sql_template : string;
  status : string;
  require_auth : Z;
  ds : option datasource
}.

(** [path.split('/').filter(Boolean)]. *)
Definition segments (path : string) : list string :=
  List.filter truthy (split "/" path).

(** [seg.startsWith(':')]. *)
Definition is_param (seg : string) : bool := startsWith ":" seg.

Definition hasParams (apiPathSegments : list string) : bool :=
  existsb is_param apiPathSegments.

(** The first loop of [findMatchingAPI]: the endpoints with as many segments
    as the request, the fixed ones and the parameterized ones apart. *)
Fixpoint partition_apis (requestPathSegments : list string) (apis : list api_row)
    (fixedPathAPIs paramPathAPIs : list api_row) : list api_row * list api_row :=
  match apis with
  | [] => (fixedPathAPIs, paramPathAPIs)
  | api :: rest =>
      let apiPathSegments := segments (path api) in
      if negb (List.length apiPathSegments =? List.length requestPathSegments)%nat
      then partition_apis requestPathSegments rest fixedPathAPIs paramPathAPIs
      else if hasParams apiPathSegments
      then partition_apis requestPathSegments rest fixedPathAPIs (paramPathAPIs ++ [api])
      else partition_apis requestPathSegments rest (fixedPathAPIs ++ [api]) paramPathAPIs
  end.

(** The inner loop: segment by segment, binding the [:name] segments; [None]
    is [match = false]. The two lists have the same length when the loop
    runs, so a request segment is always there. *)
Fixpoint match_segments (apiPathSegments requestPathSegments : list string)
    (pathParams : obj string) : option (obj string) :=
  match apiPathSegments, requestPathSegments with
  | [], _ => Some pathParams
  | apiSegment :: apiRest, requestSegment :: requestRest =>
      if is_param apiSegment
      then match_segments apiRest requestRest
             (set (drop 1 apiSegment) requestSegment pathParams)
      else if negb (String.eqb apiSegment requestSegment) then None
      else match_segments apiRest requestRest pathParams
  | _ :: _, [] => None
  end.

(** The second loop: the first endpoint of [allAPIs] that matches. *)
Fixpoint first_match (requestPathSegments : list string) (allAPIs : list api_row)
  : option (api_row * obj string) :=
  match allAPIs with
  | [] => None
  | api :: rest =>
      match match_segments (segments (path api)) requestPathSegments [] with
      | Some pathParams => Some (api, pathParams)
      | None => first_match requestPathSegments rest
      end
  end.

(** The query of [findMatchingAPI]:
    [... WHERE a.method = ? AND a.status = ?] with ['published']. *)
Definition published_with_method (table : list api_row) (m : string) : list api_row :=
  List.filter (fun a => String.eqb (method a) m && String.eqb (status a) "published")
              table.

Definition findMatchingAPI (table : list api_row) (path method : string)
  : option (api_row * obj string) :=
  let apis := published_with_method table method in
  let requestPathSegments := segments path in
  let (fixedPathAPIs, paramPathAPIs) :=
    partition_apis requestPathSegments apis [] [] in
  let allAPIs := fixedPathAPIs ++ paramPathAPIs in
  first_match requestPathSegments allAPIs.

(** The permission scope of an API token, once parsed; [None] fields are
    absent ones. *)
Record tokenPermissions := {
  tp_type : option string;
  tp_apis : option (list Z)
}.

Definition checkApiPermission (tp : option tokenPermissions) (api : api_row) : bool :=
  match tp with
  | None => false
  | Some p =>
      match tp_type p with
      | Some t =>
          if String.eqb t "categories" then
            match tp_apis p with
            | Some apis => existsb (Z.eqb (id api)) apis
            | None => false
            end
          else false
      | None => false
      end
  end.

(** What the route reads of the request. [req_path] is [req.params.path],
    the text that the wildcard captured. *)
Record request := {
  req_path : string;
  req_method : string;
  req_query : obj jsval;
  req_body : obj jsval;
  userId : option Z;
  req_tokenPermissions : option tokenPermissions;
  ipAddress : string;
  userAgent : string
}.

(** [req.userId || null], and [!req.userId]: the id 0 is falsy. *)
Definition userId_or_null (u : option Z) : option Z :=
  match u with
  | Some n => if (n =? 0)%Z then None else Some n
  | None => None
  end.

Inductive error_text :=
| Message (m : string)
| FieldErrors (errors : obj string).

(** A row inserted into [api_access_logs]; [request_params] is serialised
    by [JSON.stringify] in the source. *)
Record access_log := {
  log_api_id : Z;
  log_user_id : option Z;
  log_ip_address : string;
  log_user_agent : string;
  request_params : obj jsval;
  response_status : Z;
  execution_time : Z;
  log_status : string;
  error_message : option error_text;
  created_at : string;
  timezone_offset : Z
}.

(** The writes of the route to the metadata store, in program order. *)
Inductive effect :=
| InsertAccessLog (entry : access_log)
| UpsertFailure (api_id : Z) (now today : string)
| UpsertSuccess (api_id : Z) (executionTime : Z) (now today : string).

Inductive response :=
| NotFound
| Failed (code : Z) (error : string) (details : option (obj string))
| Succeeded (data : list (obj jsval)) (executionTime : Z).

Definition status_code (r : response) : Z :=
  match r with
  | NotFound => 404
  | Failed code _ _ => code
  | Succeeded _ _ => 200
  end.

Section Route.

Variable joi_rule : ValidationService.APIParameter -> jsval -> list string.
Variable joi_throws : list ValidationService.APIParameter -> obj jsval -> bool.
Variable replace_regexp : string -> string -> string -> string + string.

(** [databasePool.executeQuery(poolName, sql, params, type)]: the rows, or
    the message of the error of the driver or of the registry. *)
Variable executeQuery :
  string -> string -> list jsval -> string -> string + list (obj jsval).

(** The metadata store as the route reads it, and the clock. *)
Record env := {
  apis : list api_row;
  api_parameters : list ValidationService.APIParameter;
  now : string;
  timezoneOffset : Z;
  elapsed : Z
}.

(** [now.split(' ')[0]]. *)
Definition today_of (now : string) : string :=
  match split " " now with
  | d :: _ => d
  | [] => EmptyString
  end.

Definition failure_log (e : env) (api_id : Z) (user : option Z) (r : request)
    (params : obj jsval) (code : Z) (err : error_text) : access_log :=
  {| log_api_id := api_id; log_user_id := user;
     log_ip_address := ipAddress r; log_user_agent := userAgent r;
     request_params := params; response_status := code; execution_time := 0;
     log_status := "failure"; error_message := Some err;
     created_at := now e; timezone_offset := timezoneOffset e |}.

(** The two writes of a rejection or of a failure. *)
Definition record_failure (e : env) (api_id : Z) (user : option Z) (r : request)
    (params : obj jsval) (code : Z) (err : error_text) : list effect :=
  [InsertAccessLog (failure_log e api_id user r params code err);
   UpsertFailure api_id (now e) (today_of (now e))].

Definition lift_params (params : obj string) : obj jsval :=
  List.map (fun kv => (fst kv, JStr (snd kv))) params.

(** The query of the [catch] block:
    [SELECT id FROM apis WHERE path = ? AND method = ?] with the text
    ['/' + req.params.path] and the verb in upper case. [params] is
    [req.params] as it is when the error is thrown. *)
Definition error_lookup (e : env) (r : request) (params : obj string) : list api_row :=
  let p := "/" +:+ default EmptyString (get "path" params) in
  let m := toUpperCase (req_method r) in
  List.filter (fun a => String.eqb (path a) p && String.eqb (method a) m) (apis e).

(** The [catch] block: the endpoint is looked up again, and the failure is
    recorded when a row is found. *)
Definition on_error (e : env) (r : request) (params : obj string)
    (message : string) : response * list effect :=
  let message' := if truthy message then message else "Unknown error" in
  let shown := if truthy message then message else "Failed to execute API" in
  (Failed 500 shown None,
   match error_lookup e r params with
   | a :: _ =>
       record_failure e (id a) (userId_or_null (userId r)) r (req_query r) 500
                      (Message message')
   | [] => []
   end).

(** The handler of the wildcard route: the response and the writes. *)
Definition handle (e : env) (r : request) : response * list effect :=
  let path := if startsWith "/" (req_path r) then req_path r
              else "/" +:+ req_path r in
  let method := toUpperCase (req_method r) in
  match findMatchingAPI (apis e) path method with
  | None => (NotFound, [])
  | Some (api, pathParams) =>
      let params := assign [("path", req_path r)] pathParams in
      let allParams :=
        assign (assign (assign [] (lift_params params)) (req_query r)) (req_body r) in
      match ds api with
      | Some d =>
          if negb (String.eqb (ds_status d) "active") then
            (Failed 503 "Datasource is not active" None,
             record_failure e (id api) (userId_or_null (userId r)) r allParams 503
                            (Message "Datasource is not active"))
          else if (require_auth api =? 1)%Z
                  && negb (bool_decide (is_Some (userId_or_null (userId r)))) then
            (Failed 401 "Authentication required" None,
             record_failure e (id api) None r allParams 401
                            (Message "Authentication required"))
          else if (require_auth api =? 1)%Z
                  && negb (checkApiPermission (req_tokenPermissions r) api) then
            (Failed 403 "Permission denied" None,
             record_failure e (id api) (userId r) r allParams 403
                            (Message "Permission denied"))
          else
            let validationResult :=
              ValidationService.validateAndSanitizeRequest
                joi_rule joi_throws (api_parameters e) (id api) allParams in
            if negb (ValidationService.valid validationResult) then
              let errors := default [] (ValidationService.errors validationResult) in
              (Failed 400 "Validation failed" (Some errors),
               record_failure e (id api) (userId_or_null (userId r)) r allParams 400
                              (FieldErrors errors))
            else
              let sanitizedParams :=
                default allParams (ValidationService.sanitizedParams validationResult) in
              match Render.render replace_regexp (sql_template api) sanitizedParams with
              | inl message => on_error e r params message
              | inr st =>
                  let sql := Render.row_cap (type d) (Render.sql st) in
                  match executeQuery ("ds_" +:+ pretty (datasource_id api)) sql
                                     (Render.queryParams st) (type d) with
                  | inl message => on_error e r params message
                  | inr results =>
                      (Succeeded results (elapsed e),
                       [InsertAccessLog
                          {| log_api_id := id api;
                             log_user_id := userId_or_null (userId r);
                             log_ip_address := ipAddress r;
                             log_user_agent := userAgent r;
                             request_params := allParams;
                             response_status := 200;
                             execution_time := elapsed e;
                             log_status := "success";
                             error_message := None;
                             created_at := now e;
                             timezone_offset := timezoneOffset e |};
                        UpsertSuccess (id api) (elapsed e) (now e) (today_of (now e))])
                  end
              end
      | None =>
          (Failed 503 "Datasource is not active" None,
           record_failure e (id api) (userId_or_null (userId r)) r allParams 503
                          (Message "Datasource is not active"))
      end
  end.

End Route.



(** The path and the verb that the route matches on. *)
Definition matched_path (r : request) : string :=
  if startsWith "/" (req_path r) then req_path r else "/" +:+ req_path r.

Definition matched_method (r : request) : string :=
  toUpperCase (req_method r).

(** [req.params] and the bag [allParams], once the path parameters are
    bound. *)
Definition params_of (r : request) (pathParams : obj string) : obj string :=
  assign [("path", req_path r)] pathParams.

Definition bag_of (r : request) (pathParams : obj string) : obj jsval :=
  assign (assign (assign [] (lift_params (params_of r pathParams))) (req_query r))
         (req_body r).

(** The store that the writes go to, and what a write does to it. *)
Record store := {
  api_access_logs : list access_log;
  api_call_stats : Stats.table
}.

Definition apply_effect (s : store) (w : effect) : store :=
  match w with
  | InsertAccessLog entry =>
      {| api_access_logs := api_access_logs s ++ [entry];
         api_call_stats := api_call_stats s |}
  | UpsertFailure api_id now today =>
      {| api_access_logs := api_access_logs s;
         api_call_stats := Stats.upsert_failure api_id now today (api_call_stats s) |}
  | UpsertSuccess api_id executionTime now today =>
      {| api_access_logs := api_access_logs s;
         api_call_stats :=
           Stats.upsert_success api_id executionTime now today (api_call_stats s) |}
  end.

Definition apply_effects (s : store) (ws : list effect) : store :=
  fold_left apply_effect ws s.

Definition is_log (w : effect) : bool :=
  match w with InsertAccessLog _ => true | _ => false end.

Definition is_upsert (w : effect) : bool :=
  match w with InsertAccessLog _ => false | _ => true end.

Definition log_writes (ws : list effect) : nat := List.length (List.filter is_log ws).
Definition upsert_writes (ws : list effect) : nat :=
  List.length (List.filter is_upsert ws).

End Execute.

(** ** The registry: lookup, execution and teardown (services/databasePool) *)

Module DatabasePoolOps.
Import JsString Js DatabasePool.

Definition getMySQLPool (poolName : string) (r : registry) : string + DatabaseConfig :=
  match mysqlPools r !! poolName with
  | Some pool => inr pool
  | None => inl ("MySQL pool " +:+ poolName +:+ " not found")
  end.

Definition getPostgreSQLPool (poolName : string) (r : registry) : string + DatabaseConfig :=
  match pgPools r !! poolName with
  | Some pool => inr pool
  | None => inl ("PostgreSQL pool " +:+ poolName +:+ " not found")
  end.

Definition getMSSQLPool (poolName : string) (r : registry) : string + DatabaseConfig :=
  match mssqlPools r !! poolName with
  | Some pool => inr pool
  | None => inl ("MSSQL pool " +:+ poolName +:+ " not found")
  end.

Definition getOraclePool (poolName : string) (r : registry) : string + DatabaseConfig :=
  match oraclePools r !! poolName with
  | Some pool => inr pool
  | None => inl ("Oracle pool " +:+ poolName +:+ " not found")
  end.

(** [getPool]: the pool, or the message of the error thrown. *)
Definition getPool (poolName type : string) (r : registry) : string + DatabaseConfig :=
  if String.eqb type "mysql" then getMySQLPool poolName r
  else if String.eqb type "postgresql" then getPostgreSQLPool poolName r
  else if String.eqb type "mssql" then getMSSQLPool poolName r
  else if String.eqb type "oracle" then getOraclePool poolName r
  else inl ("Unsupported database type: " +:+ type).

Section Teardown.

(** [pool.end()] or [pool.close()] of the driver: [Some] message when it
    rejects. *)
Variable shutdown : DatabaseConfig -> option string.

Definition closeMySQLPool (poolName : string) (r : registry) : string + registry :=
  match mysqlPools r !! poolName with
  | Some pool =>
      match shutdown pool with
      | Some err => inl err
      | None => inr {| mysqlPools := delete poolName (mysqlPools r);
                       pgPools := pgPools r;
                       mssqlPools := mssqlPools r;
                       oraclePools := oraclePools r |}
      end
  | None => inr r
  end.

Definition closePostgreSQLPool (poolName : string) (r : registry) : string + registry :=
  match pgPools r !! poolName with
  | Some pool =>
      match shutdown pool with
      | Some err => inl err
      | None => inr {| mysqlPools := mysqlPools r;
                       pgPools := delete poolName (pgPools r);
                       mssqlPools := mssqlPools r;
                       oraclePools := oraclePools r |}
      end
  | None => inr r
  end.

Definition closeMSSQLPool (poolName : string) (r : registry) : string + registry :=
  match mssqlPools r !! poolName with
  | Some pool =>
      match shutdown pool with
      | Some err => inl err
      | None => inr {| mysqlPools := mysqlPools r;
                       pgPools := pgPools r;
                       mssqlPools := delete poolName (mssqlPools r);
                       oraclePools := oraclePools r |}
      end
  | None => inr r
  end.

Definition closeOraclePool (poolName : string) (r : registry) : string + registry :=
  match oraclePools r !! poolName with
  | Some pool =>
      match shutdown pool with
      | Some err => inl err
      | None => inr {| mysqlPools := mysqlPools r;
                       pgPools := pgPools r;
                       mssqlPools := mssqlPools r;
                       oraclePools := delete poolName (oraclePools r) |}
      end
  | None => inr r
  end.

(** [closePool]: the [switch] has no [default], so another dialect does
    nothing. *)
Definition closePool (poolName type : string) (r : registry) : string + registry :=
  if String.eqb type "mysql" then closeMySQLPool poolName r
  else if String.eqb type "postgresql" then closePostgreSQLPool poolName r
  else if String.eqb type "mssql" then closeMSSQLPool poolName r
  else if String.eqb type "oracle" then closeOraclePool poolName r
  else inr r.

(** [closeAllPools]: every pool is shut down, and each one whose shutdown
    succeeds is deleted from its map; the others stay, and the call rejects
    ([true]) when some shutdown does. *)
Definition still_open (m : gmap string DatabaseConfig) : gmap string DatabaseConfig :=
  filter (fun kv => is_Some (shutdown (snd kv))) m.

Definition closeAllPools (r : registry) : registry * bool :=
  let r' := {| mysqlPools := still_open (mysqlPools r);
               pgPools := still_open (pgPools r);
               mssqlPools := still_open (mssqlPools r);
               oraclePools := still_open (oraclePools r) |} in
  (r', negb (bool_decide (mysqlPools r' = ∅ /\ pgPools r' = ∅
                          /\ mssqlPools r' = ∅ /\ oraclePools r' = ∅))).

Section Recreate.

Variable connect : DatabaseConfig -> option string.

(** The pool part of the datasource update route (routes/datasource, put):
    [closePool('ds_' + id, existing.type)], then
    [createPool(config, 'ds_' + id)] with the updated configuration. *)
Definition recreatePool (existing_type : string) (config : DatabaseConfig)
    (poolName : string) (r : registry) : string + registry :=
  match closePool poolName existing_type r with
  | inl err => inl err
  | inr r' => createPool connect config poolName r'
  end.

End Recreate.

End Teardown.

(** [paramSql.replace('?', replaceValue)]: the first question mark. *)
Fixpoint replace_first_mark (replaceValue s : string) : string :=
  match s with
  | EmptyString => EmptyString
  | String c s' =>
      if Ascii.eqb c "?"%char then replaceValue +:+ s'
      else String c (replace_first_mark replaceValue s')
  end.

(** The name that the third dialect gives to the bound value [index]. *)
Definition param_name (index : nat) : string := "@param" +:+ pretty (N.of_nat index).

(** [params.forEach((_, index) => paramSql = paramSql.replace('?',
    '@param' + index))], from [index] on, for [count] values. *)
Fixpoint name_marks (index count : nat) (paramSql : string) : string :=
  match count with
  | O => paramSql
  | S count' =>
      name_marks (S index) count' (replace_first_mark (param_name index) paramSql)
  end.

(** No question mark in a text. *)
Definition no_mark (s : string) : bool :=
  JsString.forallb (fun c => negb (Ascii.eqb c "?"%char)) s.

(** The statement whose pieces [segs] are separated by question marks, the
    first [count] of them named from [index] on: for comparison. *)
Fixpoint named_from (index count : nat) (segs : list string) : string :=
  match segs with
  | [] => EmptyString
  | s :: rest =>
      match rest with
      | [] => s
      | _ :: _ =>
          match count with
          | O => s +:+ "?" +:+ named_from index 0 rest
          | S count' => s +:+ param_name index +:+ named_from (S index) count' rest
          end
      end
  end.

Section Execution.

(** The driver of a dialect running a statement with its bound values on a
    pool (for the fourth dialect: connection checkout, execution and
    release): the rows, or the message of the error. *)
Variable run :
  string -> DatabaseConfig -> string -> list jsval -> string + list (obj jsval).

(** [executeQuery(poolName, sql, params?, type?)]: [inl] the message of the
    error thrown, [inr None] the value [null]. An absent [params] is the
    empty list for the driver. *)
Definition executeQuery (poolName sql : string) (params : option (list jsval))
    (type : option string) (r : registry) : string + option (list (obj jsval)) :=
  let dialect := match type with
                 | Some t => if truthy t then t else "mysql"
                 | None => "mysql"
                 end in
  let result (x : string + list (obj jsval)) :=
    match x with
    | inl err => inl err
    | inr rows => inr (Some rows)
    end in
  match getPool poolName dialect r with
  | inl err => inl err
  | inr pool =>
      match type with
      | Some t =>
          if String.eqb t "mysql" then result (run t pool sql (default [] params))
          else if String.eqb t "postgresql" then
            result (run t pool sql (default [] params))
          else if String.eqb t "mssql" then
            match params with
            | Some (p :: ps) =>
                result (run t pool (name_marks 0 (List.length (p :: ps)) sql) (p :: ps))
            | _ => result (run t pool sql [])
            end
          else if String.eqb t "oracle" then
            result (run t pool sql (default [] params))
          else inr None
      | None => inr None
      end
  end.

End Execution.

End DatabasePoolOps.

(** ** The merged entry of one name *)

Module Reconciled.
Import SQLParameterExtractor.

(** What [extractParametersWithDefaults] maps an extracted name to. *)
Definition merged_entry (sql : string) (stored : list ExtractedParameter)
    (n : string) : ExtractedParameter :=
  match existingMap stored !! n with
  | Some existing => merge_existing existing (inferParameter n sql)
  | None => inferParameter n sql
  end.

End Reconciled.

(** ** The test route of an endpoint (routes/api, post /:id/test) *)

Module TestRoute.
Import JsString Js Render.

Section Rendering.

Variable replace_regexp : string -> string -> string -> string + string.

(** The body of the loop of the test route: every key whose placeholder
    the statement holds is bound, whatever its name. *)
Definition render_entry (st : state) (e : string * jsval) : string + state :=
  let (key, value) := e in
  let placeholder := "{{" +:+ key +:+ "}}" in
  if includes placeholder (sql st) then
    match replace_placeholder replace_regexp key (sql st) "?" with
    | inr s => inr {| sql := s; queryParams := queryParams st ++ [value] |}
    | inl err => inl err
    end
  else inr st.

Fixpoint render_loop (st : state) (entries : list (string * jsval)) : string + state :=
  match entries with
  | [] => inr st
  | e :: rest =>
      match render_entry st e with
      | inr st' => render_loop st' rest
      | inl err => inl err
      end
  end.

Definition render (sql_template : string) (params : obj jsval) : string + state :=
  render_loop {| sql := sql_template; queryParams := [] |} params.

End Rendering.

(** The keys that the execution route does not bind. *)
Definition special_key (key : string) : bool :=
  String.eqb key searchParam || existsb (String.eqb key) directReplaceParams.

End TestRoute.

(** ** Column types and validation rules (services/schemaIntrospector) *)

Module SchemaIntrospector.
Import JsString Js.

Record ColumnInfo := {
  col_name : string;
  col_type : string;
  nullable : bool;
  isPrimaryKey : bool;
  isAutoIncrement : bool;
  defaultValue : option jsval;
  maxLength : option Z
}.

Record TableInfo := {
  table_name : string;
  columns : list ColumnInfo
}.

Definition mapColumnTypeToJoi (columnType : string) : string :=
  let type := toLowerCase columnType in
  if includes "int" type || includes "serial" type then "number"
  else if includes "decimal" type || includes "numeric" type
          || includes "float" type || includes "double" type then "number"
  else if includes "bool" type then "boolean"
  else if includes "date" type || includes "time" type then "date"
  else if includes "char" type || includes "text" type
          || includes "varchar" type then "string"
  else if includes "json" type || includes "blob" type then "object"
  else "string".

(** One entry of the rules object; [rule_maxLength] is an absent property
    when it is [None]. *)
Record rule := {
  rule_type : string;
  rule_required : bool;
  rule_maxLength : option Z
}.

(** Truthiness of an optional number. *)
Definition truthy_number (n : option Z) : bool :=
  match n with Some z => negb (z =? 0)%Z | None => false end.

Definition rule_of (col : ColumnInfo) : rule :=
  let joiType := mapColumnTypeToJoi (col_type col) in
  {| rule_type := joiType;
     rule_required := negb (nullable col);
     rule_maxLength :=
       if truthy_number (maxLength col) && String.eqb joiType "string"
       then maxLength col else None |}.

Definition skipped (col : ColumnInfo) : bool :=
  isPrimaryKey col && isAutoIncrement col.

(** The columns that write the rule of the key [k]. *)
Definition rule_column (k : string) (col : ColumnInfo) : bool :=
  negb (skipped col) && String.eqb (col_name col) k.

Fixpoint rules_loop (rules : obj rule) (columns : list ColumnInfo) : obj rule :=
  match columns with
  | [] => rules
  | col :: rest =>
      if skipped col then rules_loop rules rest
      else rules_loop (set (col_name col) (rule_of col) rules) rest
  end.

Definition generateValidationRules (columns : list ColumnInfo) : obj rule :=
  rules_loop [] columns.

End SchemaIntrospector.

(** ** Endpoint drafts from a table (services/apiGenerator) *)

Module APIGenerator.
Import JsString Js SchemaIntrospector.

Record GeneratedParameter := {
  param_name : string;
  param_type : string;
  data_type : string;
  required : Z;
  default_value : option jsval;
  param_description : option string
}.

Record GeneratedAPI := {
  name : string;
  path : string;
  method : string;
  description : string;
  sql_template : string;
  parameters : list GeneratedParameter;
  validation_rules : obj rule
}.

Record GeneratedAPIs := {
  get : GeneratedAPI;
  post : option GeneratedAPI;
  put : option GeneratedAPI;
  delete : option GeneratedAPI
}.

(** [parts.join(sep)]. *)
Fixpoint join (sep : string) (parts : list string) : string :=
  match parts with
  | [] => ""
  | [x] => x
  | x :: rest => x +:+ sep +:+ join sep rest
  end.

(** The class [[_\s-]] of the separator of [formatTableNameToAPIName]. *)
Definition is_separator (c : ascii) : bool :=
  Ascii.eqb c "_"%char || is_ws c || Ascii.eqb c "-"%char.

(** [s.split(/[_\s-]+/)]: a maximal run of separators ends a word;
    [in_run] tells that the character before was a separator. *)
Fixpoint split_words (in_run : bool) (s : string) : list string :=
  match s with
  | EmptyString => [EmptyString]
  | String c s' =>
      if is_separator c then
        if in_run then split_words true s'
        else EmptyString :: split_words true s'
      else match split_words false s' with
           | x :: xs => String c x :: xs
           | [] => [String c EmptyString]
           end
  end.

(** [word.charAt(0).toUpperCase() + word.slice(1).toLowerCase()]. *)
Definition capitalize (word : string) : string :=
  match word with
  | EmptyString => EmptyString
  | String c rest => String (upper c) (toLowerCase rest)
  end.

Definition formatTableNameToAPIName (tableName : string) : string :=
  join " " (List.map capitalize (split_words false tableName)).

(** The complement of the class [[^a-z0-9]]. *)
Definition is_path_char (c : ascii) : bool := is_lower c || is_digit c.


Definition formatTableNameToPath (tableName : string) : string :=
  JsString.map (fun c => if is_path_char c then c else "_"%char)
    (toLowerCase tableName).

(** [columns.find(col => col.isPrimaryKey)]. *)
Definition primaryKey_of (columns : list ColumnInfo) : option ColumnInfo :=
  List.find isPrimaryKey columns.

Definition limit_parameter : GeneratedParameter :=
  {| param_name := "limit"; param_type := "query"; data_type := "number";
     required := 0; default_value := Some (JStr "100");
     param_description := Some "Maximum number of records to return" |}.

Definition offset_parameter : GeneratedParameter :=
  {| param_name := "offset"; param_type := "query"; data_type := "number";
     required := 0; default_value := Some (JStr "0");
     param_description := Some "Number of records to skip" |}.

Definition generateGetAPI (name path tableName : string)
    (columns : list ColumnInfo) : GeneratedAPI :=
  let primaryKey := primaryKey_of columns in
  let columnList := join ", " (List.map col_name columns) in
  match primaryKey with
  | Some primaryKey =>
      {| name := "Get " +:+ name;
         path := path +:+ "/:id";
         method := "GET";
         description :=
           "Get a single " +:+ name +:+ " by " +:+ col_name primaryKey;
         sql_template :=
           "SELECT " +:+ columnList +:+ " FROM " +:+ tableName +:+ " WHERE "
           +:+ col_name primaryKey +:+ " = {{id}}";
         parameters :=
           [ {| param_name := "id"; param_type := "path";
                data_type := mapColumnTypeToJoi (col_type primaryKey);
                required := 1; default_value := None;
                param_description :=
                  Some (col_name primaryKey +:+ " of the record") |} ];
         validation_rules := generateValidationRules columns |}
  | None =>
      {| name := "Get " +:+ name;
         path := path;
         method := "GET";
         description := "Get all " +:+ name +:+ " records";
         sql_template := "SELECT " +:+ columnList +:+ " FROM " +:+ tableName;
         parameters := [limit_parameter; offset_parameter];
         validation_rules := generateValidationRules columns |}
  end.

Definition placeholder_of (col : ColumnInfo) : string :=
  "{{" +:+ col_name col +:+ "}}".

Definition generatePostAPI (name path tableName : string)
    (columns : list ColumnInfo) : GeneratedAPI :=
  let insertColumns := List.filter (fun col => negb (isAutoIncrement col)) columns in
  let columnNames := join ", " (List.map col_name insertColumns) in
  let placeholders := join ", " (List.map placeholder_of insertColumns) in
  let parameters :=
    List.map (fun col =>
      {| param_name := col_name col; param_type := "body";
         data_type := mapColumnTypeToJoi (col_type col);
         required := if nullable col then 0 else 1;
         default_value := defaultValue col;
         param_description := Some (col_name col +:+ " field") |})
      insertColumns in
  {| name := "Create " +:+ name;
     path := path;
     method := "POST";
     description := "Create a new " +:+ name +:+ " record";
     sql_template :=
       "INSERT INTO " +:+ tableName +:+ " (" +:+ columnNames +:+ ") VALUES ("
       +:+ placeholders +:+ ")";
     parameters := parameters;
     validation_rules := generateValidationRules insertColumns |}.

Definition assignment_of (col : ColumnInfo) : string :=
  col_name col +:+ " = {{" +:+ col_name col +:+ "}}".

Definition generatePutAPI (name path tableName : string)
    (columns : list ColumnInfo) (primaryKey : option ColumnInfo)
  : option GeneratedAPI :=
  match primaryKey with
  | None => None
  | Some primaryKey =>
      let updateColumns :=
        List.filter (fun col => negb (isPrimaryKey col) && negb (isAutoIncrement col))
          columns in
      let setClause := join ", " (List.map assignment_of updateColumns) in
      let parameters :=
        {| param_name := col_name primaryKey; param_type := "path";
           data_type := mapColumnTypeToJoi (col_type primaryKey);
           required := 1; default_value := None;
           param_description :=
             Some (col_name primaryKey +:+ " of the record to update") |}
        :: List.map (fun col =>
             {| param_name := col_name col; param_type := "body";
                data_type := mapColumnTypeToJoi (col_type col);
                required := 0;
                default_value := defaultValue col;
                param_description := Some (col_name col +:+ " field to update") |})
             updateColumns in
      Some
        {| name := "Update " +:+ name;
           path := path +:+ "/:id";
           method := "PUT";
           description :=
             "Update a " +:+ name +:+ " record by " +:+ col_name primaryKey;
           sql_template :=
             "UPDATE " +:+ tableName +:+ " SET " +:+ setClause +:+ " WHERE "
             +:+ col_name primaryKey +:+ " = {{" +:+ col_name primaryKey +:+ "}}";
           parameters := parameters;
           validation_rules := generateValidationRules updateColumns |}
  end.

Definition generateDeleteAPI (name path tableName : string)
    (primaryKey : option ColumnInfo) : option GeneratedAPI :=
  match primaryKey with
  | None => None
  | Some primaryKey =>
      Some
        {| name := "Delete " +:+ name;
           path := path +:+ "/:id";
           method := "DELETE";
           description :=
             "Delete a " +:+ name +:+ " record by " +:+ col_name primaryKey;
           sql_template :=
             "DELETE FROM " +:+ tableName +:+ " WHERE " +:+ col_name primaryKey
             +:+ " = {{" +:+ col_name primaryKey +:+ "}}";
           parameters :=
             [ {| param_name := col_name primaryKey; param_type := "path";
                  data_type := mapColumnTypeToJoi (col_type primaryKey);
                  required := 1; default_value := None;
                  param_description :=
                    Some (col_name primaryKey +:+ " of the record to delete") |} ];
           validation_rules := [] |}
  end.

(** [apiName || formatTableNameToAPIName(tableName)]. *)
Definition name_or_default (apiName : option string) (tableName : string) : string :=
  match apiName with
  | Some n => if truthy n then n else formatTableNameToAPIName tableName
  | None => formatTableNameToAPIName tableName
  end.

Definition default_path (tableName : string) : string :=
  "/api/" +:+ formatTableNameToPath tableName.

(** [apiPath || `/api/${formatTableNameToPath(tableName)}`]. *)
Definition path_or_default (apiPath : option string) (tableName : string) : string :=
  match apiPath with
  | Some p => if truthy p then p else default_path tableName
  | None => default_path tableName
  end.

Definition generateAPIsFromTable (tableInfo : TableInfo)
    (apiName apiPath : option string) : GeneratedAPIs :=
  let tableName := table_name tableInfo in
  let columns := columns tableInfo in
  let primaryKey := primaryKey_of columns in
  let name := name_or_default apiName tableName in
  let path := path_or_default apiPath tableName in
  {| get := generateGetAPI name path tableName columns;
     post := Some (generatePostAPI name path tableName columns);
     put := generatePutAPI name path tableName columns primaryKey;
     delete := generateDeleteAPI name path tableName primaryKey |}.

Definition generateBulkGetAPI (name path tableName : string)
    (columns : list ColumnInfo) : GeneratedAPI :=
  let columnList := join ", " (List.map col_name columns) in
  let primaryKey := primaryKey_of columns in
  {| name := "Get All " +:+ name;
     path := path;
     method := "GET";
     description :=
       "Get all " +:+ name +:+ " records with pagination and sorting";
     sql_template :=
       "SELECT " +:+ columnList +:+ " FROM " +:+ tableName
       +:+ " ORDER BY {{order_by}} {{order}} LIMIT {{limit}} OFFSET {{offset}}";
     parameters :=
       [ limit_parameter; offset_parameter;
         {| param_name := "order_by"; param_type := "query";
            data_type := "string"; required := 0;
            default_value :=
              Some (JStr match primaryKey with
                         | Some primaryKey => col_name primaryKey
                         | None => "id"
                         end);
            param_description := Some "Column to order by" |};
         {| param_name := "order"; param_type := "query";
            data_type := "string"; required := 0;
            default_value := Some (JStr "ASC");
            param_description := Some "Sort order (ASC or DESC)" |} ];
     validation_rules := [] |}.

Definition searchable (col : ColumnInfo) : bool :=
  includes "char" (toLowerCase (col_type col))
  || includes "text" (toLowerCase (col_type col))
  || includes "varchar" (toLowerCase (col_type col)).

Definition generateSearchAPI (name path tableName : string)
    (columns : list ColumnInfo) : GeneratedAPI :=
  let columnList := join ", " (List.map col_name columns) in
  let searchableColumns := List.filter searchable columns in
  let searchConditions :=
    join " OR "
      (List.map (fun col => col_name col +:+ " LIKE {{search}}") searchableColumns) in
  {| name := "Search " +:+ name;
     path := path +:+ "/search";
     method := "GET";
     description := "Search " +:+ name +:+ " records by text fields";
     sql_template :=
       "SELECT " +:+ columnList +:+ " FROM " +:+ tableName +:+ " WHERE "
       +:+ searchConditions +:+ " LIMIT {{limit}}";
     parameters :=
       [ {| param_name := "search"; param_type := "query";
            data_type := "string"; required := 1; default_value := None;
            param_description := Some "Search term" |};
         limit_parameter ];
     validation_rules := [] |}.

Definition generateCountAPI (name path tableName : string) : GeneratedAPI :=
  {| name := "Count " +:+ name;
     path := path +:+ "/count";
     method := "GET";
     description := "Get the total count of " +:+ name +:+ " records";
     sql_template := "SELECT COUNT(*) as total FROM " +:+ tableName;
     parameters := [];
     validation_rules := [] |}.

(** [if (x) apis.push(x)] for an optional draft. *)
Definition push_some (x : option GeneratedAPI) (apis : list GeneratedAPI)
  : list GeneratedAPI :=
  match x with Some d => apis ++ [d] | None => apis end.

Definition generateFullCRUDAPIs (tableInfo : TableInfo)
    (apiName apiPath : option string) : list GeneratedAPI :=
  let basicAPIs := generateAPIsFromTable tableInfo apiName apiPath in
  let apis := [get basicAPIs] in
  let apis := push_some (post basicAPIs) apis in
  let apis := push_some (put basicAPIs) apis in
  let apis := push_some (delete basicAPIs) apis in
  let name := name_or_default apiName (table_name tableInfo) in
  let path := path_or_default apiPath (table_name tableInfo) in
  apis
  ++ [ generateBulkGetAPI name path (table_name tableInfo) (columns tableInfo);
       generateSearchAPI name path (table_name tableInfo) (columns tableInfo);
       generateCountAPI name path (table_name tableInfo) ].

(** The pair on which the [apis] table is unique. *)
Definition route_key (d : GeneratedAPI) : string * string := (path d, method d).

End APIGenerator.

(** ** The address of the caller (utils/ipHelper) *)

Module IpHelper.
Import JsString.

(** A request header as Node gives it: absent, one string, or an array of
    strings. *)
Inductive header :=
| Absent
| One (s : string)
| Many (l : list string).

(** The parts of the request that [getClientIp] reads; [remoteAddress] is
    [None] also when the request has no connection. *)
Record Request := {
  x_forwarded_for : header;
  x_real_ip : header;
  cf_connecting_ip : header;
  true_client_ip : header;
  x_cluster_client_ip : header;
  ip : option string;
  remoteAddress : option string
}.

(** [forwarded.split(',').map(ip => ip.trim())]. *)
Definition forwarded_ips (forwarded : string) : list string :=
  List.map trim (split "," forwarded).

(** [a || b] on optional strings. *)
Definition or_string (a : option string) (b : string) : string :=
  match a with
  | Some s => if truthy s then s else b
  | None => b
  end.

(** [getClientIp]; [None] is the [TypeError] of [forwarded[0].split] on an
    empty array. An array [split] returns is never empty, so the defaults of
    [hd] and [last] are not reached. *)
Definition getClientIp (req : Request) : option string :=
  match x_forwarded_for req with
  | One forwarded => Some (List.hd "" (forwarded_ips forwarded))
  | Many [] => None
  | Many (first :: _) => Some (List.hd "" (forwarded_ips first))
  | Absent =>
      match x_real_ip req with
      | One realIp => Some (trim realIp)
      | _ =>
          match cf_connecting_ip req with
          | One cfConnectingIp => Some (trim cfConnectingIp)
          | _ =>
              let ip := or_string (ip req) (or_string (remoteAddress req) "") in
              if includes ":" ip then Some (List.last (split ":" ip) "")
              else Some ip
          end
      end
  end.

(** No string in one of the two headers read after [X-Forwarded-For]. *)
Definition no_string (h : header) : bool :=
  match h with One _ => false | _ => true end.

End IpHelper.

(** ** The address of the caller, internal addresses passed over
    (the second [getClientIp] of the sources) *)

Module IpHelperFiltered.
Import JsString IpHelper.

Definition DOCKER_GATEWAY_IPS : list string :=
  ["192.168.107.1"; "172.17.0.1"; "172.18.0.1"; "192.168.117.1"].
Definition DOCKER_CONTAINER_IPS : list string :=
  ["192.168.107.2"; "192.168.107.3"; "172.17.0.2"; "172.18.0.2"; "192.168.117.3"].
Definition FRONTEND_PROXY_IPS : list string :=
  ["192.168.117.1"; "192.168.116.1"; "10.0.0.1"; "172.19.0.1"; "172.20.0.1"].
Definition LOCAL_IPS : list string := ["127.0.0.1"; "::1"; "0.0.0.0"; "::"].

(** [list.includes(ip)]. *)
Definition listed (l : list string) (ip : string) : bool :=
  existsb (String.eqb ip) l.

Definition isInternalIp (ip : string) : bool :=
  if negb (truthy ip) then true
  else if listed LOCAL_IPS ip then true
  else if listed DOCKER_GATEWAY_IPS ip then true
  else if listed DOCKER_CONTAINER_IPS ip then true
  else if listed FRONTEND_PROXY_IPS ip then true
  else if startsWith "172.17." ip || startsWith "172.18." ip
          || startsWith "172.19." ip || startsWith "172.20." ip then true
  else if startsWith "192.168.107." ip || startsWith "192.168.116." ip
          || startsWith "192.168.117." ip then true
  else false.

(** The test [ip && !isInternalIp(ip)] of every branch. *)
Definition usable (ip : string) : bool := truthy ip && negb (isInternalIp ip).

(** The loop over the entries of [X-Forwarded-For]: the first usable one. *)
Definition first_usable (forwarded : string) : option string :=
  List.find usable (forwarded_ips forwarded).

(** One of the four single-address headers. *)
Definition trimmed_usable (h : header) : option string :=
  match h with
  | One s => if usable (trim s) then Some (trim s) else None
  | _ => None
  end.

(** The branch of [req.ip]. *)
Definition from_ip (ip : option string) : option string :=
  match ip with
  | Some ip =>
      if usable ip then
        if startsWith "::ffff:" ip then
          let ipv4 := drop 7 ip in
          if negb (isInternalIp ipv4) then Some ipv4 else None
        else Some ip
      else None
  | None => None
  end.

(** The branch of [req.connection?.remoteAddress]. *)
Definition from_connection (remoteAddress : option string) : option string :=
  let connectionIp := or_string remoteAddress "" in
  if truthy connectionIp then
    let ip := if startsWith "::ffff:" connectionIp then drop 7 connectionIp
              else connectionIp in
    if usable ip then Some ip else None
  else None.

(** The branches after [X-Forwarded-For], in the order of the code. *)
Definition after_forwarded (req : Request) : string :=
  match trimmed_usable (x_real_ip req) with
  | Some ip => ip
  | None =>
  match trimmed_usable (cf_connecting_ip req) with
  | Some ip => ip
  | None =>
  match trimmed_usable (true_client_ip req) with
  | Some ip => ip
  | None =>
  match trimmed_usable (x_cluster_client_ip req) with
  | Some ip => ip
  | None =>
  match from_ip (ip req) with
  | Some ip => ip
  | None =>
  match from_connection (remoteAddress req) with
  | Some ip => ip
  | None => or_string (ip req) "unknown"
  end end end end end end.

(** [getClientIp]; [None] is the [TypeError] of [forwarded[0].split] on an
    empty array. *)
Definition getClientIp (req : Request) : option string :=
  match x_forwarded_for req with
  | One forwarded =>
      match first_usable forwarded with
      | Some ip => Some ip
      | None => Some (after_forwarded req)
      end
  | Many [] => None
  | Many (first :: _) =>
      match first_usable first with
      | Some ip => Some ip
      | None => Some (after_forwarded req)
      end
  | Absent => Some (after_forwarded req)
  end.

End IpHelperFiltered.

(** ** The address whitelist (middleware/ipWhitelist)

    JavaScript numbers are modelled where they are integers that a double
    holds exactly, or [NaN]; a text that [Number] or [parseInt] reads as
    anything else is outside the model, and the functions below return
    [None] for it. *)

Module IpWhitelist.
Import JsString.
Local Open Scope Z_scope.

Inductive jsnum :=
| NaN
| Int (z : Z).

(** [ToInt32]: the value modulo 2^32, read as a signed word. *)
Definition toInt32 (z : Z) : Z := (z + 2 ^ 31) mod 2 ^ 32 - 2 ^ 31.

Definition toInt32_num (x : jsnum) : Z :=
  match x with NaN => 0 | Int z => toInt32 z end.

(** [x << n] for a shift count that is a literal. *)
Definition shl (x : jsnum) (n : Z) : Z :=
  toInt32 (toInt32_num x * 2 ^ (n mod 32)).

(** [a & b] for a number and a signed word. *)
Definition band (x : jsnum) (m : Z) : Z := Z.land (toInt32_num x) m.

(** The integers below 2^52 in absolute value: sums of a few of them and
    of signed words are exact in a double. *)
Definition safe (z : Z) : bool := (Z.abs z <=? 2 ^ 52)%Z.

Definition decimal_value (s : string) : option Z :=
  if truthy s && JsString.forallb is_digit s
  then Some (Z.of_N (Js.digits_value 0 s)) else None.

Definition signed_decimal (s : string) : option Z :=
  match s with
  | String "+" r => decimal_value r
  | String "-" r => option_map Z.opp (decimal_value r)
  | _ => decimal_value s
  end.

(** [Number(s)]: the empty or blank text is 0, a decimal integer with an
    optional sign is its value. *)
Definition Number (s : string) : option jsnum :=
  let t := trim s in
  if negb (truthy t) then Some (Int 0)
  else match signed_decimal t with
       | Some z => if safe z then Some (Int z) else None
       | None => None
       end.

Fixpoint take_digits (s : string) : string :=
  match s with
  | EmptyString => EmptyString
  | String c s' => if is_digit c then String c (take_digits s') else EmptyString
  end.

(** [parseInt(s, 10)]: leading blanks, an optional sign, then the longest
    run of digits; [NaN] without a digit. *)
Definition parseInt10 (s : string) : option jsnum :=
  let t := trimStart s in
  let (negative, rest) :=
    match t with
    | String "+" r => (false, r)
    | String "-" r => (true, r)
    | _ => (false, t)
    end in
  let digits := take_digits rest in
  if negb (truthy digits) then Some NaN
  else let v := Z.of_N (Js.digits_value 0 digits) in
       if safe v then Some (Int (if negative then - v else v)) else None.

(** [(p0 << 24) + (p1 << 16) + (p2 << 8) + p3]. *)
Definition address_number (p0 p1 p2 p3 : jsnum) : jsnum :=
  match p3 with
  | NaN => NaN
  | Int d => Int (shl p0 24 + shl p1 16 + shl p2 8 + d)
  end.

(** [~((1 << (32 - mask)) - 1)]; the shift count of [<<] is taken modulo
    32, and is 0 for [NaN]. *)
Definition maskNum (mask : jsnum) : Z :=
  let count := match mask with NaN => 0 | Int m => (32 - m) mod 32 end in
  Z.lnot (toInt32 (toInt32 (1 * 2 ^ count) - 1)).

(** The callback of [whitelist.some]. *)
Definition item_allows (ipAddress ip_address : string) : option bool :=
  let whitelistIp := trim ip_address in
  let requestIp := trim ipAddress in
  if String.eqb whitelistIp requestIp then Some true
  else if includes "/" whitelistIp then
    match split "/" whitelistIp with
    | network :: prefixLength :: _ =>
        let networkParts := split "." network in
        let ipParts := split "." requestIp in
        if negb (List.length networkParts =? 4)%nat
           || negb (List.length ipParts =? 4)%nat
        then Some false
        else
          match parseInt10 prefixLength,
                List.map Number networkParts, List.map Number ipParts with
          | Some mask, [Some n0; Some n1; Some n2; Some n3],
            [Some i0; Some i1; Some i2; Some i3] =>
              let networkNum := address_number n0 n1 n2 n3 in
              let ipNum := address_number i0 i1 i2 i3 in
              let maskNum := maskNum mask in
              Some (band networkNum maskNum =? band ipNum maskNum)%Z
          | _, _, _ => None
          end
    | _ => Some false
    end
  else Some false.

(** [whitelist.some(...)], which stops at the first item that allows. *)
Fixpoint some_allows (ipAddress : string) (whitelist : list string) : option bool :=
  match whitelist with
  | [] => Some false
  | ip_address :: rest =>
      match item_allows ipAddress ip_address with
      | Some true => Some true
      | Some false => some_allows ipAddress rest
      | None => None
      end
  end.

Record setting_row := {
  key : string;
  value : option string
}.

Record whitelist_row := {
  ip_address : string;
  enabled : option Z
}.

Inductive outcome :=
| Next
| Forbidden (error : string)
| Failed.

(** [checkIpWhitelist]; the reads of the metadata store are taken to
    succeed. *)
Definition checkIpWhitelist (system_settings : list setting_row)
    (ip_whitelist : list whitelist_row) (req : IpHelper.Request) : option outcome :=
  match IpHelper.getClientIp req with
  | None => Some Failed
  | Some ipAddress =>
      let settings :=
        List.filter (fun s => String.eqb (key s) "ip_whitelist_enabled")
          system_settings in
      match settings with
      | [] => Some Next
      | first :: _ =>
          if negb (bool_decide (value first = Some "true")) then Some Next
          else
            let whitelist :=
              List.filter (fun w => bool_decide (enabled w = Some 1%Z)) ip_whitelist in
            match whitelist with
            | [] =>
                Some (Forbidden
                  "Access denied: IP whitelist is enabled but no IPs are configured")
            | _ =>
                match some_allows ipAddress (List.map ip_address whitelist) with
                | Some true => Some Next
                | Some false => Some (Forbidden "Access denied: IP not in whitelist")
                | None => None
                end
            end
      end
  end.

(** The address [a.b.c.d] as a number below 2^32. *)
Definition dotted (a b c d : Z) : Z := a * 2 ^ 24 + b * 2 ^ 16 + c * 2 ^ 8 + d.

Definition octet (z : Z) : Prop := (0 <= z <= 255)%Z.

End IpWhitelist.

(** ** Saving the drafts of a table (routes/apiGenerator, post /generate)

    The handler writes to the metadata store one insertion at a time and
    outside a transaction. The tables [apis] and [api_parameters] are taken
    with the constraints of their [CREATE TABLE] statements; the fields of
    the request body are absent or of their type. *)

Module GenerateRoute.
Import JsString Js SchemaIntrospector.
Local Open Scope Z_scope.

(** A row of [apis], with the columns that the handler writes. *)
Record api_record := {
  id : Z;
  name : string;
  path : string;
  method : string;
  description : string;
  datasource_id : Z;
  sql_template : string;
  status : string;
  require_auth : Z;
  category : string;
  created_by : option Z
}.

(** A row of [api_parameters]. *)
Record parameter_record := {
  api_id : Z;
  param_name : string;
  param_type : string;
  data_type : string;
  required : Z;
  default_value : option jsval;
  validation_rule : option string;
  param_description : option string
}.

(** A row of [operation_logs]. *)
Record operation_log := {
  user_id : option Z;
  action : string;
  resource_type : string;
  resource_id : Z;
  ip_address : string;
  user_agent : option string;
  log_status : string;
  created_at : string;
  timezone_offset : Z
}.

(** The part of the metadata store that the handler reads and writes;
    [apis_sequence] is the counter that [AUTOINCREMENT] keeps. *)
Record store := {
  datasources : list Execute.datasource;
  apis : list api_record;
  apis_sequence : Z;
  api_parameters : list parameter_record;
  operation_logs : list operation_log
}.

(** [UNIQUE (path, method)]. *)
Definition same_route (path method : string) (a : api_record) : bool :=
  String.eqb (GenerateRoute.path a) path && String.eqb (GenerateRoute.method a) method.

(** [CHECK(method IN ('GET', 'POST', 'PUT', 'DELETE'))]. *)
Definition method_allowed (method : string) : bool :=
  existsb (String.eqb method) ["GET"; "POST"; "PUT"; "DELETE"].

(** [CHECK(status IN ('draft', 'published', 'deprecated'))]. *)
Definition status_allowed (status : string) : bool :=
  existsb (String.eqb status) ["draft"; "published"; "deprecated"].

(** [CHECK(param_type IN ('path', 'query', 'body'))]. *)
Definition param_type_allowed (param_type : string) : bool :=
  existsb (String.eqb param_type) ["path"; "query"; "body"].

(** [CHECK(data_type IN ('string', 'number', 'boolean', 'date'))]. *)
Definition data_type_allowed (data_type : string) : bool :=
  existsb (String.eqb data_type) ["string"; "number"; "boolean"; "date"].

(** The row id that [AUTOINCREMENT] gives: one more than the largest id
    the table holds or has held. *)
Definition next_id (s : store) : Z :=
  1 + List.fold_right Z.max (apis_sequence s) (List.map id (apis s)).

(** [INSERT INTO apis (...)]: [None] is the rejection of a constraint,
    otherwise the new store and [lastID]. *)
Definition insert_api (s : store) (name path method description : string)
    (datasource_id : Z) (sql_template status : string) (require_auth : Z)
    (category : string) (created_by : option Z) : option (store * Z) :=
  if negb (method_allowed method) then None
  else if negb (status_allowed status) then None
  else if existsb (same_route path method) (apis s) then None
  else
    let lastID := next_id s in
    Some ({| datasources := datasources s;
             apis := apis s ++ [ {| id := lastID; name := name; path := path;
                                    method := method; description := description;
                                    datasource_id := datasource_id;
                                    sql_template := sql_template; status := status;
                                    require_auth := require_auth;
                                    category := category;
                                    created_by := created_by |} ];
             apis_sequence := lastID;
             api_parameters := api_parameters s;
             operation_logs := operation_logs s |}, lastID).

(** [INSERT INTO api_parameters (...)]. *)
Definition insert_parameter (s : store) (apiId : Z)
    (param : APIGenerator.GeneratedParameter) : option store :=
  if negb (param_type_allowed (APIGenerator.param_type param)) then None
  else if negb (data_type_allowed (APIGenerator.data_type param)) then None
  else
    Some {| datasources := datasources s;
            apis := apis s;
            apis_sequence := apis_sequence s;
            api_parameters :=
              api_parameters s
              ++ [ {| api_id := apiId;
                      param_name := APIGenerator.param_name param;
                      param_type := APIGenerator.param_type param;
                      data_type := APIGenerator.data_type param;
                      required := APIGenerator.required param;
                      default_value := APIGenerator.default_value param;
                      validation_rule := None;
                      param_description := APIGenerator.param_description param |} ];
            operation_logs := operation_logs s |}.

(** The request body; [None] is an absent field. *)
Record body := {
  datasourceId : option Z;
  tableName : option string;
  apiName : option string;
  apiPath : option string;
  body_category : option string;
  body_status : option string;
  selectedAPIs : option (list string)
}.

(** What the handler takes from the request and its surroundings. *)
Record env := {
  userId : option Z;
  req : IpHelper.Request;
  req_user_agent : option string;
  timezoneOffset : Z;
  now : string
}.

Record duplicate := {
  dup_name : string;
  dup_path : string;
  dup_method : string;
  existingId : Z
}.

Record created := {
  created_id : Z;
  created_name : string;
  created_path : string;
  created_method : string;
  created_description : string
}.

Inductive response :=
| BadRequest
| NotFound
| Conflict (duplicates : list duplicate)
| Success (apis : list created)
| ServerError.

(** The loop over [api.parameters]; the store is kept as it is at the first
    rejection. *)
Fixpoint insert_parameters (s : store) (apiId : Z)
    (parameters : list APIGenerator.GeneratedParameter) : store * bool :=
  match parameters with
  | [] => (s, true)
  | param :: rest =>
      match insert_parameter s apiId param with
      | Some s' => insert_parameters s' apiId rest
      | None => (s, false)
      end
  end.

(** The loop over [filteredAPIs]: [createdAPIs] so far, and [false] when an
    insertion was rejected. *)
Fixpoint insert_drafts (s : store) (datasourceId : Z) (status category : string)
    (created_by : option Z) (createdAPIs : list created)
    (filteredAPIs : list APIGenerator.GeneratedAPI) : store * list created * bool :=
  match filteredAPIs with
  | [] => (s, createdAPIs, true)
  | api :: rest =>
      match insert_api s (APIGenerator.name api) (APIGenerator.path api)
              (APIGenerator.method api) (APIGenerator.description api)
              datasourceId (APIGenerator.sql_template api) status 1 category
              created_by with
      | None => (s, createdAPIs, false)
      | Some (s1, apiId) =>
          match insert_parameters s1 apiId (APIGenerator.parameters api) with
          | (s2, false) => (s2, createdAPIs, false)
          | (s2, true) =>
              insert_drafts s2 datasourceId status category created_by
                (createdAPIs
                 ++ [ {| created_id := apiId;
                         created_name := APIGenerator.name api;
                         created_path := APIGenerator.path api;
                         created_method := APIGenerator.method api;
                         created_description := APIGenerator.description api |} ])
                rest
          end
      end
  end.

(** [`${api.method}-${api.path}`]. *)
Definition selection_key (api : APIGenerator.GeneratedAPI) : string :=
  APIGenerator.method api +:+ "-" +:+ APIGenerator.path api.

Definition filter_selected (selectedAPIs : list string)
    (generatedAPIs : list APIGenerator.GeneratedAPI) : list APIGenerator.GeneratedAPI :=
  if (0 <? List.length selectedAPIs)%nat
  then List.filter (fun api => existsb (String.eqb (selection_key api)) selectedAPIs)
         generatedAPIs
  else generatedAPIs.

(** The first loop: the drafts whose path and verb a stored endpoint has. *)
Fixpoint find_duplicates (s : store) (filteredAPIs : list APIGenerator.GeneratedAPI)
  : list duplicate :=
  match filteredAPIs with
  | [] => []
  | api :: rest =>
      match List.filter (same_route (APIGenerator.path api) (APIGenerator.method api))
              (apis s) with
      | existing :: _ =>
          {| dup_name := APIGenerator.name api;
             dup_path := APIGenerator.path api;
             dup_method := APIGenerator.method api;
             existingId := id existing |} :: find_duplicates s rest
      | [] => find_duplicates s rest
      end
  end.

(** [a || b] for an absent or empty text. *)
Definition present (a : option string) : option string :=
  match a with
  | Some t => if truthy t then Some t else None
  | None => None
  end.

Section Handler.

(** [schemaIntrospector.getTableSchema], which reads the datasource. *)
Variable getTableSchema : Z -> string -> string -> string + TableInfo.

Definition generate (b : body) (e : env) (s : store) : response * store :=
  match datasourceId b, present (tableName b) with
  | Some datasourceId, Some tableName =>
      if datasourceId =? 0 then (BadRequest, s)
      else
        match List.filter (fun d => Execute.ds_id d =? datasourceId) (datasources s) with
        | [] => (NotFound, s)
        | ds :: _ =>
            match getTableSchema datasourceId (Execute.type ds) tableName with
            | inl _ => (ServerError, s)
            | inr schema =>
                let category := default "default" (body_category b) in
                let status := default "draft" (body_status b) in
                let selectedAPIs := default [] (selectedAPIs b) in
                let generatedAPIs :=
                  APIGenerator.generateFullCRUDAPIs schema (apiName b) (apiPath b) in
                let filteredAPIs := filter_selected selectedAPIs generatedAPIs in
                match find_duplicates s filteredAPIs with
                | (_ :: _) as duplicateAPIs => (Conflict duplicateAPIs, s)
                | [] =>
                    match insert_drafts s datasourceId status category (userId e) []
                            filteredAPIs with
                    | (s', _, false) => (ServerError, s')
                    | (s', createdAPIs, true) =>
                        match IpHelper.getClientIp (req e) with
                        | None => (ServerError, s')
                        | Some ip =>
                            (Success createdAPIs,
                             {| datasources := datasources s';
                                apis := apis s';
                                apis_sequence := apis_sequence s';
                                api_parameters := api_parameters s';
                                operation_logs :=
                                  operation_logs s'
                                  ++ [ {| user_id := userId e;
                                          action := "auto_generate_apis";
                                          resource_type := "datasource";
                                          resource_id := datasourceId;
                                          ip_address := ip;
                                          user_agent := req_user_agent e;
                                          log_status := "success";
                                          created_at := now e;
                                          timezone_offset := timezoneOffset e |} ] |})
                        end
                    end
                end
            end
        end
  | _, _ => (BadRequest, s)
  end.

End Handler.

End GenerateRoute.

(** ** What the handler above stores, read off the rows *)

Module GenerateRows.
Import GenerateRoute.

Definition row_route (a : api_record) : string * string :=
  (GenerateRoute.path a, GenerateRoute.method a).

Definition created_route (c : created) : string * string :=
  (created_path c, created_method c).

(** The checks of [api_parameters] on one declared parameter. *)
Definition parameter_allowed (q : APIGenerator.GeneratedParameter) : bool :=
  param_type_allowed (APIGenerator.param_type q)
  && data_type_allowed (APIGenerator.data_type q).

(** The row that the handler writes for a draft. *)
Definition written_as (datasourceId : Z) (status category : string)
    (created_by : option Z) (api : APIGenerator.GeneratedAPI) (a : api_record) : Prop :=
  GenerateRoute.name a = APIGenerator.name api
  /\ GenerateRoute.path a = APIGenerator.path api
  /\ GenerateRoute.method a = APIGenerator.method api
  /\ GenerateRoute.description a = APIGenerator.description api
  /\ GenerateRoute.sql_template a = APIGenerator.sql_template api
  /\ GenerateRoute.datasource_id a = datasourceId
  /\ GenerateRoute.status a = status
  /\ GenerateRoute.category a = category
  /\ GenerateRoute.created_by a = created_by
  /\ GenerateRoute.require_auth a = 1%Z.

(** A route that a stored endpoint has. *)
Definition route_taken (s : store) (k : string * string) : bool :=
  existsb (same_route (fst k) (snd k)) (apis s).

(** The drafts that the handler goes through for a body and a schema. *)
Definition drafts_of (b : body) (schema : SchemaIntrospector.TableInfo)
  : list APIGenerator.GeneratedAPI :=
  filter_selected (default [] (selectedAPIs b))
    (APIGenerator.generateFullCRUDAPIs schema (apiName b) (apiPath b)).

End GenerateRows.

(** ** Concrete inputs *)

Module Examples.

Definition mysql_config : DatabasePool.DatabaseConfig :=
  {| DatabasePool.host := "10.0.0.5"; DatabasePool.port := 3306;
     DatabasePool.user := "app"; DatabasePool.password := "secret";
     DatabasePool.database := "shop"; DatabasePool.type := "mysql" |}.

Definition pg_config : DatabasePool.DatabaseConfig :=
  {| DatabasePool.host := "10.0.0.6"; DatabasePool.port := 5432;
     DatabasePool.user := "app"; DatabasePool.password := "secret";
     DatabasePool.database := "shop"; DatabasePool.type := "postgresql" |}.

Definition mssql_config : DatabasePool.DatabaseConfig :=
  {| DatabasePool.host := "10.0.0.7"; DatabasePool.port := 1433;
     DatabasePool.user := "app"; DatabasePool.password := "secret";
     DatabasePool.database := "shop"; DatabasePool.type := "mssql" |}.

(** A registry that holds one pool, of the first dialect, under [ds_1]. *)
Definition one_mysql_pool : DatabasePool.registry :=
  {| DatabasePool.mysqlPools := {[ "ds_1" := mysql_config ]};
     DatabasePool.pgPools := ∅;
     DatabasePool.mssqlPools := ∅;
     DatabasePool.oraclePools := ∅ |}.

Definition connects : DatabasePool.DatabaseConfig -> option string :=
  fun _ => None.


(** The stored definition of a required numeric parameter [id] of
    endpoint 7. *)
Definition id_param : ValidationService.APIParameter :=
  {| ValidationService.id := Some 1%Z;
     ValidationService.api_id := 7;
     ValidationService.param_name := "id";
     ValidationService.param_type := "path";
     ValidationService.data_type := "number";
     ValidationService.required := 1;
     ValidationService.default_value := None;
     ValidationService.validation_rule := None;
     ValidationService.description := None |}.

(** Rules that let every value pass, and a schema that never throws. *)
Definition lenient : ValidationService.APIParameter -> Js.jsval -> list string :=
  fun _ _ => [].

Definition never_throws : list ValidationService.APIParameter -> Js.obj Js.jsval -> bool :=
  fun _ _ => false.

Definition main_db : Execute.datasource :=
  {| Execute.ds_id := 1; Execute.ds_name := "main";
     Execute.type := "mysql"; Execute.ds_status := "active" |}.

(** [GET /users/:id], published, open to everyone. *)
Definition user_by_id : Execute.api_row :=
  {| Execute.id := 7; Execute.path := "/users/:id"; Execute.method := "GET";
     Execute.datasource_id := 1;
     Execute.sql_template := "SELECT * FROM users WHERE id = {{id}}";
     Execute.status := "published"; Execute.require_auth := 0;
     Execute.ds := Some main_db |}.

(** [GET /users/me], a fixed path of the same length. *)
Definition current_user : Execute.api_row :=
  {| Execute.id := 8; Execute.path := "/users/me"; Execute.method := "GET";
     Execute.datasource_id := 1;
     Execute.sql_template := "SELECT * FROM users WHERE name = 'me'";
     Execute.status := "published"; Execute.require_auth := 0;
     Execute.ds := Some main_db |}.

(** A store with the two endpoints and no parameter definitions. *)
Definition two_endpoints : Execute.env :=
  {| Execute.apis := [user_by_id; current_user];
     Execute.api_parameters := [];
     Execute.now := "2024-01-02 10:00:05";
     Execute.timezoneOffset := 8;
     Execute.elapsed := 12 |}.

Definition get_request (p : string) : Execute.request :=
  {| Execute.req_path := p; Execute.req_method := "GET";
     Execute.req_query := []; Execute.req_body := [];
     Execute.userId := None; Execute.req_tokenPermissions := None;
     Execute.ipAddress := "192.0.2.1"; Execute.userAgent := "curl/8.0" |}.

(** A driver that returns no rows, and one whose query fails. *)
Definition no_rows
  : string -> string -> list Js.jsval -> string -> string + list (Js.obj Js.jsval) :=
  fun _ _ _ _ => inr [].

Definition driver_fails
  : string -> string -> list Js.jsval -> string -> string + list (Js.obj Js.jsval) :=
  fun _ _ _ _ => inl "connect ECONNREFUSED".

(** No key with a character outside [\w] is a well-formed expression. *)
Definition no_regexp : string -> string -> string -> string + string :=
  fun _ _ _ => inl "Invalid regular expression".

(** The aggregate of endpoint 8 after one successful call of 100 ms. *)
Definition one_call : Stats.row :=
  {| Stats.call_count := 1; Stats.success_count := 1; Stats.failure_count := 0;
     Stats.avg_response_time := Some (inject_Z 100);
     Stats.last_called_at := "2024-01-02 10:00:00" |}.

Definition store_after_one_call : Execute.store :=
  {| Execute.api_access_logs := [];
     Execute.api_call_stats := {[ (8%Z, "2024-01-02") := one_call ]} |}.

(** A stored definition of [id] that an operator has edited (location,
    type, required flag, default) and that has no description. *)
Definition stored_id : SQLParameterExtractor.ExtractedParameter :=
  {| SQLParameterExtractor.param_name := "id";
     SQLParameterExtractor.param_type := SQLParameterExtractor.query;
     SQLParameterExtractor.data_type := SQLParameterExtractor.string_t;
     SQLParameterExtractor.required := 0;
     SQLParameterExtractor.default_value := Some "1";
     SQLParameterExtractor.validation_rule := Some "{}";
     SQLParameterExtractor.description := None |}.

(** A stored definition of a parameter that the new text no longer names. *)
Definition stored_city : SQLParameterExtractor.ExtractedParameter :=
  {| SQLParameterExtractor.param_name := "city";
     SQLParameterExtractor.param_type := SQLParameterExtractor.query;
     SQLParameterExtractor.data_type := SQLParameterExtractor.string_t;
     SQLParameterExtractor.required := 1;
     SQLParameterExtractor.default_value := None;
     SQLParameterExtractor.validation_rule := None;
     SQLParameterExtractor.description := Some "City of residence" |}.

Definition users_by_id_and_status : string :=
  "SELECT * FROM users WHERE id = {{id}} AND status = {{status}}".

(** What the merge gives for [id] on [users_by_id_and_status]. *)
Definition merged_id : SQLParameterExtractor.ExtractedParameter :=
  {| SQLParameterExtractor.param_name := "id";
     SQLParameterExtractor.param_type := SQLParameterExtractor.query;
     SQLParameterExtractor.data_type := SQLParameterExtractor.string_t;
     SQLParameterExtractor.required := 0;
     SQLParameterExtractor.default_value := Some "1";
     SQLParameterExtractor.validation_rule := Some "{}";
     SQLParameterExtractor.description := Some "Record identifier" |}.

(** A registry that holds one pool, of the third dialect, under [ds_3]. *)
Definition one_mssql_pool : DatabasePool.registry :=
  {| DatabasePool.mysqlPools := ∅;
     DatabasePool.pgPools := ∅;
     DatabasePool.mssqlPools := {[ "ds_3" := mssql_config ]};
     DatabasePool.oraclePools := ∅ |}.

(** A driver that answers with one row holding the statement it was given. *)
Definition echo_driver
  : string -> DatabasePool.DatabaseConfig -> string -> list Js.jsval
    -> string + list (Js.obj Js.jsval) :=
  fun _ _ sql _ => inr [[("sql", Js.JStr sql)]].

(** [GET /orders], published, for authenticated callers only. *)
Definition orders_by_state : Execute.api_row :=
  {| Execute.id := 9; Execute.path := "/orders"; Execute.method := "GET";
     Execute.datasource_id := 1;
     Execute.sql_template := "SELECT * FROM orders WHERE state = {{state}}";
     Execute.status := "published"; Execute.require_auth := 1;
     Execute.ds := Some main_db |}.

Definition orders_store : Execute.env :=
  {| Execute.apis := [orders_by_state];
     Execute.api_parameters := [];
     Execute.now := "2024-01-02 10:00:05";
     Execute.timezoneOffset := 8;
     Execute.elapsed := 12 |}.

(** A request without credentials, and one of user 5 whose token lists
    endpoint 9. *)
Definition anonymous_request : Execute.request := get_request "orders".

Definition authorised_request : Execute.request :=
  {| Execute.req_path := "orders"; Execute.req_method := "GET";
     Execute.req_query := [("state", Js.JStr "open")]; Execute.req_body := [];
     Execute.userId := Some 5%Z;
     Execute.req_tokenPermissions :=
       Some {| Execute.tp_type := Some "categories";
               Execute.tp_apis := Some [3%Z; 9%Z] |};
     Execute.ipAddress := "192.0.2.1"; Execute.userAgent := "curl/8.0" |}.

(** The aggregate of endpoint 8 after that call and one failure. *)
Definition one_call_one_failure : Stats.row :=
  {| Stats.call_count := 2; Stats.success_count := 1; Stats.failure_count := 1;
     Stats.avg_response_time := Some (inject_Z 100);
     Stats.last_called_at := "2024-01-02 10:00:05" |}.


(** A table with an auto-increment key that is not named [id]. *)
Definition order_no_column : SchemaIntrospector.ColumnInfo :=
  {| SchemaIntrospector.col_name := "order_no";
     SchemaIntrospector.col_type := "int";
     SchemaIntrospector.nullable := false;
     SchemaIntrospector.isPrimaryKey := true;
     SchemaIntrospector.isAutoIncrement := true;
     SchemaIntrospector.defaultValue := None;
     SchemaIntrospector.maxLength := None |}.

Definition orders_table : SchemaIntrospector.TableInfo :=
  {| SchemaIntrospector.table_name := "orders";
     SchemaIntrospector.columns :=
       [ order_no_column;
         {| SchemaIntrospector.col_name := "customer";
            SchemaIntrospector.col_type := "varchar(40)";
            SchemaIntrospector.nullable := false;
            SchemaIntrospector.isPrimaryKey := false;
            SchemaIntrospector.isAutoIncrement := false;
            SchemaIntrospector.defaultValue := None;
            SchemaIntrospector.maxLength := Some 40%Z |} ] |}.

Definition customer_parameter : APIGenerator.GeneratedParameter :=
  {| APIGenerator.param_name := "customer";
     APIGenerator.param_type := "body";
     APIGenerator.data_type := "string";
     APIGenerator.required := 1;
     APIGenerator.default_value := None;
     APIGenerator.param_description := Some "customer field" |}.

Definition orders_post_draft : APIGenerator.GeneratedAPI :=
  APIGenerator.generatePostAPI "Orders" "/api/orders" "orders"
    (SchemaIntrospector.columns orders_table).





(** A whitelist entry for every address, as a prefix of length 0. *)
Definition any_address_entry : string := "0.0.0.0/0".
Definition office_entry : string := "10.1.0.0/16".
Definition office_address : string := "10.1.2.3".


(** A table without a primary key, and the endpoint store before anything
    is generated for it. *)
Definition events_table : SchemaIntrospector.TableInfo :=
  {| SchemaIntrospector.table_name := "events";
     SchemaIntrospector.columns :=
       [ {| SchemaIntrospector.col_name := "label";
            SchemaIntrospector.col_type := "varchar(20)";
            SchemaIntrospector.nullable := true;
            SchemaIntrospector.isPrimaryKey := false;
            SchemaIntrospector.isAutoIncrement := false;
            SchemaIntrospector.defaultValue := None;
            SchemaIntrospector.maxLength := Some 20%Z |} ] |}.

Definition reads_events (datasourceId : Z) (type tableName : string)
  : string + SchemaIntrospector.TableInfo := inr events_table.

Definition reads_orders (datasourceId : Z) (type tableName : string)
  : string + SchemaIntrospector.TableInfo := inr orders_table.

Definition empty_metadata : GenerateRoute.store :=
  {| GenerateRoute.datasources := [main_db];
     GenerateRoute.apis := [];
     GenerateRoute.apis_sequence := 0;
     GenerateRoute.api_parameters := [];
     GenerateRoute.operation_logs := [] |}.

Definition generate_all (tableName : string) : GenerateRoute.body :=
  {| GenerateRoute.datasourceId := Some (Execute.ds_id main_db);
     GenerateRoute.tableName := Some tableName;
     GenerateRoute.apiName := None;
     GenerateRoute.apiPath := None;
     GenerateRoute.body_category := None;
     GenerateRoute.body_status := None;
     GenerateRoute.selectedAPIs := None |}.

Definition direct_request : IpHelper.Request :=
  {| IpHelper.x_forwarded_for := IpHelper.Absent;
     IpHelper.x_real_ip := IpHelper.Absent;
     IpHelper.cf_connecting_ip := IpHelper.Absent;
     IpHelper.true_client_ip := IpHelper.Absent;
     IpHelper.x_cluster_client_ip := IpHelper.Absent;
     IpHelper.ip := Some "10.1.2.3";
     IpHelper.remoteAddress := Some "10.1.2.3" |}.

Definition admin_env : GenerateRoute.env :=
  {| GenerateRoute.userId := Some 1%Z;
     GenerateRoute.req := direct_request;
     GenerateRoute.req_user_agent := Some "curl";
     GenerateRoute.timezoneOffset := 8;
     GenerateRoute.now := "2024-01-02 03:04:05" |}.


(** What the handler answers for the table [orders] on the empty store. *)
Definition orders_created : list GenerateRoute.created :=
  match fst (GenerateRoute.generate reads_orders (generate_all "orders") admin_env
               empty_metadata) with
  | GenerateRoute.Success out => out
  | _ => []
  end.

End Examples.

(** * Properties *)

(** ** The Daily Usage Aggregate *)

Section StatsFacts.
Import Stats.



Lemma upsert_success_existing (api_id executionTime : Z) (now today : string)
    (t : table) (r : row) :
  t !! (api_id, today) = Some r ->
  upsert_success api_id executionTime now today t !! (api_id, today)
  = Some {| call_count := call_count r + 1;
            success_count := success_count r + 1;
            failure_count := failure_count r;
            avg_response_time :=
              sql_div (sql_add (sql_mul (avg_response_time r) (call_count r - 1))
                               executionTime)
                      (call_count r);
            last_called_at := now |}.
Proof.
  intros H. unfold upsert_success. rewrite H. apply lookup_insert_eq.
Qed.

(** On a row that exists, with a count that is not zero, the success path
    stores [(old_avg * (old_count - 1) + d) / old_count]. *)
Lemma upsert_success_average (api_id d : Z) (now today : string) (t : table)
    (r : row) (old_avg : Q) :
  t !! (api_id, today) = Some r ->
  avg_response_time r = Some old_avg ->
  call_count r <> 0%Z ->
  avg_response_time <$> (upsert_success api_id d now today t !! (api_id, today))
  = Some (Some ((old_avg * inject_Z (call_count r - 1) + inject_Z d)
                / inject_Z (call_count r))%Q).
Proof.
  intros H Ha Hc. rewrite (upsert_success_existing _ _ _ _ _ _ H). simpl.
  rewrite Ha. simpl. destruct (Z.eqb_spec (call_count r) 0); [contradiction|].
  reflexivity.
Qed.

(** A first call of the day creates the row. *)
Lemma upsert_success_fresh (api_id d : Z) (now today : string) (t : table) :
  t !! (api_id, today) = None ->
  upsert_success api_id d now today t !! (api_id, today)
  = Some {| call_count := 1; success_count := 1; failure_count := 0;
            avg_response_time := Some (inject_Z d); last_called_at := now |}.
Proof.
  intros H. unfold upsert_success. rewrite H. apply lookup_insert_eq.
Qed.

End StatsFacts.

(** C1: on a successful request that finds a row for (endpoint, day), the
    new average should be [(old_avg * old_count + d) / (old_count + 1)], from
    the count before the update. The upsert of the source computes
    [(old_avg * (old_count - 1) + d) / old_count] instead: on a row with
    count 1 and average 100, a call of 200 ms stores 200, where the running
    average is 150. *)
Theorem upsert_success_average_off_by_one :
  let r0 := {| Stats.call_count := 1; Stats.success_count := 1;
               Stats.failure_count := 0;
               Stats.avg_response_time := Some (inject_Z 100);
               Stats.last_called_at := "2024-01-02 10:00:00" |} in
  let t : Stats.table := {[ (7%Z, "2024-01-02") := r0 ]} in
  exists q : Q,
    Stats.avg_response_time
      <$> (Stats.upsert_success 7 200 "2024-01-02 10:00:05" "2024-01-02" t
           !! (7%Z, "2024-01-02")) = Some (Some q)
    /\ (q == inject_Z 200)%Q
    /\ (Stats.running_average (inject_Z 100) 1 200 == inject_Z 150)%Q
    /\ ~ (q == Stats.running_average (inject_Z 100) 1 200)%Q.
Proof.
  intros r0 t. eexists. split.
  - unfold t. erewrite upsert_success_existing by apply lookup_singleton_eq.
    reflexivity.
  - repeat split; try reflexivity. intros H. vm_compute in H. discriminate.
Qed.

(** ** The connection-pool registry *)

Section PoolFacts.
Import DatabasePool.

Lemma has_true (m : gmap string DatabaseConfig) (k : string) :
  has m k = true <-> is_Some (m !! k).
Proof. unfold has. rewrite bool_decide_eq_true. reflexivity. Qed.

Lemma has_insert (m : gmap string DatabaseConfig) (k : string) (c : DatabaseConfig) :
  has (<[k := c]> m) k = true.
Proof. apply has_true. rewrite lookup_insert_eq. eauto. Qed.

End PoolFacts.

Ltac case_dialect t :=
  destruct (String.eqb_spec t "mysql") as [->|?];
  [|destruct (String.eqb_spec t "postgresql") as [->|?];
    [|destruct (String.eqb_spec t "mssql") as [->|?];
      [|destruct (String.eqb_spec t "oracle") as [->|?]]]].





(** ** JavaScript objects *)

Section ObjectFacts.
Import Js.
Context {A : Type}.

Lemma has_key_get (k : string) (o : obj A) :
  has_key k o = false <-> get k o = None.
Proof.
  induction o as [|[k' v'] o IH]; simpl; [tauto|].
  destruct (String.eqb k' k); simpl; [split; discriminate|exact IH].
Qed.

Lemma get_replace_value (k k' : string) (v : A) (o : obj A) :
  has_key k' o = true ->
  get k (replace_value k' v o) = if String.eqb k' k then Some v else get k o.
Proof.
  induction o as [|[k0 v0] o IH]; simpl; [discriminate|].
  destruct (String.eqb_spec k0 k') as [->|Hne]; simpl.
  - intros _. destruct (String.eqb k' k); reflexivity.
  - intros H. rewrite (IH H).
    destruct (String.eqb_spec k0 k) as [->|]; [|reflexivity].
    destruct (String.eqb_spec k' k); [congruence|reflexivity].
Qed.

Lemma get_insert_index (k k' : string) (i : N) (v : A) (o : obj A) :
  has_key k' o = false ->
  get k (insert_index i k' v o) = if String.eqb k' k then Some v else get k o.
Proof.
  induction o as [|[k0 v0] o IH]; simpl; [reflexivity|].
  destruct (String.eqb_spec k0 k') as [->|Hne]; simpl; [discriminate|].
  intros H.
  destruct (array_index k0) as [j|]; [destruct (j <? i)%N|]; simpl;
    try reflexivity.
  rewrite (IH H).
  destruct (String.eqb_spec k0 k) as [->|]; [|reflexivity].
  destruct (String.eqb_spec k' k); [congruence|reflexivity].
Qed.

Lemma get_app_new (k k' : string) (v : A) (o : obj A) :
  has_key k' o = false ->
  get k (o ++ [(k', v)]) = if String.eqb k' k then Some v else get k o.
Proof.
  induction o as [|[k0 v0] o IH]; simpl; [reflexivity|].
  destruct (String.eqb_spec k0 k') as [->|Hne]; simpl; [discriminate|].
  intros H. rewrite (IH H).
  destruct (String.eqb_spec k0 k) as [->|]; [|reflexivity].
  destruct (String.eqb_spec k' k); [congruence|reflexivity].
Qed.

(** Reading after [o[k'] = v]. *)
Lemma get_set (k k' : string) (v : A) (o : obj A) :
  get k (set k' v o) = if String.eqb k' k then Some v else get k o.
Proof.
  unfold set. destruct (has_key k' o) eqn:E.
  - apply get_replace_value, E.
  - destruct (array_index k'); [apply get_insert_index|apply get_app_new]; exact E.
Qed.

Lemma has_key_set (k k' : string) (v : A) (o : obj A) :
  has_key k (set k' v o) = String.eqb k' k || has_key k o.
Proof.
  destruct (has_key k (set k' v o)) eqn:E.
  - destruct (String.eqb k' k) eqn:Ek; [reflexivity|]. simpl.
    destruct (has_key k o) eqn:E'; [reflexivity|].
    apply has_key_get in E'. 
    assert (H : get k (set k' v o) = None) by (rewrite get_set, Ek; exact E').
    apply has_key_get in H. congruence.
  - apply has_key_get in E. rewrite get_set in E.
    destruct (String.eqb k' k); [discriminate|]. simpl.
    symmetry. apply has_key_get, E.
Qed.

End ObjectFacts.

Section ObjectMapFacts.
Import Js.
Context {A B : Type} (f : A -> B).

Lemma has_key_map_values (k : string) (o : obj A) :
  has_key k (map_values f o) = has_key k o.
Proof.
  induction o as [|[k0 v0] o IH]; simpl; [reflexivity|]. rewrite IH. reflexivity.
Qed.

Lemma replace_value_map_values (k : string) (v : A) (o : obj A) :
  replace_value k (f v) (map_values f o) = map_values f (replace_value k v o).
Proof.
  induction o as [|[k0 v0] o IH]; simpl; [reflexivity|].
  destruct (String.eqb k0 k); simpl; [reflexivity|]. rewrite IH. reflexivity.
Qed.

Lemma insert_index_map_values (i : N) (k : string) (v : A) (o : obj A) :
  insert_index i k (f v) (map_values f o) = map_values f (insert_index i k v o).
Proof.
  induction o as [|[k0 v0] o IH]; simpl; [reflexivity|].
  destruct (array_index k0) as [j|]; [destruct (j <? i)%N|]; simpl;
    try reflexivity.
  rewrite IH. reflexivity.
Qed.

Lemma set_map_values (k : string) (v : A) (o : obj A) :
  set k (f v) (map_values f o) = map_values f (set k v o).
Proof.
  unfold set. rewrite has_key_map_values. destruct (has_key k o).
  - apply replace_value_map_values.
  - destruct (array_index k); [apply insert_index_map_values|].
    unfold map_values. rewrite List.map_app. reflexivity.
Qed.

(** Writing the entries with their values through [f] gives the object of
    the entries, its values through [f]. *)
Lemma fold_set_map_values (entries : list (string * A)) (acc : obj A) :
  fold_left (fun acc e => set (fst e) (f (snd e)) acc) entries (map_values f acc)
  = map_values f (assign acc entries).
Proof.
  revert acc. unfold assign.
  induction entries as [|[k v] entries IH]; intros acc; simpl; [reflexivity|].
  rewrite set_map_values. apply IH.
Qed.

End ObjectMapFacts.

(** ** The request validator *)

Section ValidationFacts.
Import Js ValidationService.

(** The bag that [validateAndSanitizeRequest] builds, key by key. *)
Lemma get_sanitized (params acc : obj jsval) (k : string) :
  NoDup (keys params) ->
  get k (fold_left (fun acc e => set (fst e) (sanitizeInput (snd e)) acc) params acc)
  = match get k params with
    | Some v => Some (sanitizeInput v)
    | None => get k acc
    end.
Proof.
  revert acc. induction params as [|[k0 v0] params IH]; intros acc Hnd; simpl.
  - reflexivity.
  - apply NoDup_cons in Hnd as [Hk0 Hnd]. rewrite (IH _ Hnd). rewrite get_set.
    destruct (String.eqb_spec k0 k) as [->|Hne]; [|reflexivity].
    assert (Hn : get k params = None).
    { apply has_key_get. destruct (has_key k params) eqn:E; [|reflexivity].
      exfalso. apply Hk0. unfold has_key in E. apply existsb_exists in E.
      destruct E as [[k1 v1] [Hin Heq]]. simpl in Heq.
      apply String.eqb_eq in Heq. subst k1.
      apply list_elem_of_In. unfold keys. apply in_map_iff.
      exists (k, v1). split; [reflexivity|exact Hin]. }
    rewrite Hn. reflexivity.
Qed.


(** Every detail that Joi reports leaves an entry under its key. *)
Lemma has_key_collect_errors (details : list (string * string)) (acc : obj string)
    (k : string) :
  has_key k (fold_left (fun errors d => set (fst d) (snd d) errors) details acc)
  = existsb (fun d => String.eqb (fst d) k) details || has_key k acc.
Proof.
  revert acc. induction details as [|[k0 m0] details IH]; intros acc; simpl.
  - reflexivity.
  - rewrite IH, has_key_set. simpl.
    destruct (String.eqb k0 k), (existsb _ details); reflexivity.
Qed.

(** With [abortEarly: false], a required parameter that the bag lacks is
    reported under its own name, whatever else fails. *)
Lemma validate_required_absent
    (joi_rule : APIParameter -> jsval -> list string)
    (schema : obj APIParameter) (params : obj jsval)
    (key : string) (param : APIParameter) :
  In (key, param) schema ->
  required param = 1%Z ->
  get key params = None ->
  has_key key (collect_errors (validate joi_rule schema params)) = true.
Proof.
  intros Hin Hreq Habs. unfold collect_errors. rewrite has_key_collect_errors.
  apply orb_true_iff. left. apply existsb_exists.
  exists (key, required_message key). split; [|apply String.eqb_refl].
  unfold validate. apply in_concat. exists (validate_key joi_rule params (key, param)).
  split; [apply in_map, Hin|].
  unfold validate_key. rewrite Habs, Hreq. simpl. left. reflexivity.
Qed.

(** A value that breaks its rule is reported under its key as well. *)
Lemma validate_rule_failure
    (joi_rule : APIParameter -> jsval -> list string)
    (schema : obj APIParameter) (params : obj jsval)
    (key : string) (param : APIParameter) (v : jsval) :
  In (key, param) schema ->
  get key params = Some v ->
  joi_rule param v <> [] ->
  has_key key (collect_errors (validate joi_rule schema params)) = true.
Proof.
  intros Hin Hv Hrule. unfold collect_errors. rewrite has_key_collect_errors.
  apply orb_true_iff. left. apply existsb_exists.
  destruct (joi_rule param v) as [|m ms] eqn:E; [contradiction|].
  exists (key, m). split; [|apply String.eqb_refl].
  unfold validate. apply in_concat. exists (validate_key joi_rule params (key, param)).
  split; [apply in_map, Hin|].
  unfold validate_key. rewrite Hv, E. simpl. left. reflexivity.
Qed.

End ValidationFacts.

(** ** The wildcard route: its outcomes *)

Section RouteFacts.
Import Js Execute.

Variable joi_rule : ValidationService.APIParameter -> jsval -> list string.
Variable joi_throws : list ValidationService.APIParameter -> obj jsval -> bool.
Variable replace_regexp : string -> string -> string -> string + string.
Variable executeQuery :
  string -> string -> list jsval -> string -> string + list (obj jsval).

Let run := handle joi_rule joi_throws replace_regexp executeQuery.

(** Every run of the route ends in one of five ways. *)
Lemma handle_cases (e : env) (r : request) :
  (findMatchingAPI (apis e) (matched_path r) (matched_method r) = None
   /\ run e r = (NotFound, []))
  \/ exists api pathParams,
       findMatchingAPI (apis e) (matched_path r) (matched_method r)
       = Some (api, pathParams)
       /\ let validationResult :=
            ValidationService.validateAndSanitizeRequest joi_rule joi_throws
              (api_parameters e) (id api) (bag_of r pathParams) in
          ((exists code msg user err,
              (code = 503 \/ code = 401 \/ code = 403)%Z
              /\ run e r
                 = (Failed code msg None,
                    record_failure e (id api) user r (bag_of r pathParams) code err))
           \/ (ValidationService.valid validationResult = false
               /\ exists user errs,
                    run e r
                    = (Failed 400 "Validation failed" (Some errs),
                       record_failure e (id api) user r (bag_of r pathParams) 400
                                      (FieldErrors errs)))
           \/ (ValidationService.valid validationResult = true
               /\ exists message,
                    run e r = on_error e r (params_of r pathParams) message)
           \/ (ValidationService.valid validationResult = true
               /\ exists results entry,
                    run e r
                    = (Succeeded results (elapsed e),
                       [InsertAccessLog entry;
                        UpsertSuccess (id api) (elapsed e) (now e)
                                      (today_of (now e))]))).
Proof.
  unfold run, handle. fold (matched_path r). fold (matched_method r).
  destruct (findMatchingAPI (apis e) (matched_path r) (matched_method r))
    as [[api pathParams]|]; [right|left; split; reflexivity].
  exists api, pathParams. split; [reflexivity|].
  fold (params_of r pathParams). fold (bag_of r pathParams). cbv zeta.
  destruct (ds api) as [d|]; [|left; eauto 10].
  destruct (negb (String.eqb (ds_status d) "active")); [left; eauto 10|].
  destruct ((require_auth api =? 1)%Z
            && negb (bool_decide (is_Some (userId_or_null (userId r)))));
    [left; eauto 10|].
  destruct ((require_auth api =? 1)%Z
            && negb (checkApiPermission (req_tokenPermissions r) api));
    [left; eauto 10|].
  destruct (ValidationService.valid _) eqn:Hv; simpl.
  - right; right.
    destruct (Render.render _ _ _) as [message|st]; [left; eauto|].
    destruct (executeQuery _ _ _ _) as [message|results]; [left; eauto|].
    right. eauto.
  - right; left. eauto.
Qed.

(** What the [catch] block writes. *)
Lemma on_error_writes (e : env) (r : request) (params : obj string) (message : string) :
  status_code (fst (on_error e r params message)) = 500%Z
  /\ match error_lookup e r params with
     | [] => snd (on_error e r params message) = []
     | a :: _ =>
         exists entry,
           snd (on_error e r params message)
           = [InsertAccessLog entry; UpsertFailure (id a) (now e) (today_of (now e))]
     end.
Proof.
  unfold on_error. simpl. split; [reflexivity|].
  destruct (error_lookup e r params); [reflexivity|].
  unfold record_failure. eauto.
Qed.

End RouteFacts.

Section TelemetryFacts.
Import Js Execute.

Lemma record_failure_counts (e : env) (api_id : Z) (user : option Z) (r : request)
    (params : obj jsval) (code : Z) (err : error_text) :
  log_writes (record_failure e api_id user r params code err) = 1%nat
  /\ upsert_writes (record_failure e api_id user r params code err) = 1%nat.
Proof. split; reflexivity. Qed.


End TelemetryFacts.








(** C6: with the definition of [id] stored for endpoint 7, the bag
    [{id: "5", debug: "1"}] passes validation and comes back with the key
    [debug], which no stored definition names: [stripUnknown] acts on the
    value that Joi returns, and the route is given the trimmed input
    instead. Whatever the rules of the schema say, a bag that is returned
    holds the unknown key. *)
Theorem sanitized_bag_keeps_unknown_keys :
  ValidationService.validateAndSanitizeRequest Examples.lenient Examples.never_throws
    [Examples.id_param] 7 [("id", Js.JStr "5"); ("debug", Js.JStr "1")]
  = {| ValidationService.valid := true;
       ValidationService.errors := None;
       ValidationService.sanitizedParams :=
         Some [("id", Js.JStr "5"); ("debug", Js.JStr "1")] |}
  /\ forall (joi_rule : ValidationService.APIParameter -> Js.jsval -> list string)
            (joi_throws :
               list ValidationService.APIParameter -> Js.obj Js.jsval -> bool),
       match ValidationService.sanitizedParams
               (ValidationService.validateAndSanitizeRequest joi_rule joi_throws
                  [Examples.id_param] 7
                  [("id", Js.JStr "5"); ("debug", Js.JStr "1")]) with
       | Some bag => Js.has_key "debug" bag = true
       | None =>
           ValidationService.valid
             (ValidationService.validateAndSanitizeRequest joi_rule joi_throws
                [Examples.id_param] 7
                [("id", Js.JStr "5"); ("debug", Js.JStr "1")]) = false
       end.
Proof.
  split; [reflexivity|].
  intros joi_rule joi_throws.
  unfold ValidationService.validateAndSanitizeRequest.
  destruct (ValidationService.valid _) eqn:E; simpl; [reflexivity|].
  destruct (ValidationService.sanitizedParams _) eqn:E'; [|exact E].
  revert E'. unfold ValidationService.validateRequest. simpl.
  destruct (joi_throws _ _); [discriminate|].
  destruct (ValidationService.validate _ _ _); discriminate.
Qed.

(** ** The SQL parameter extractor *)

Section StringFacts.
Import JsString.

Lemma startsWith_refl_app (p r : string) : startsWith p (p +:+ r) = true.
Proof.
  induction p as [|c p IH]; simpl; [reflexivity|].
  rewrite Ascii.eqb_refl. exact IH.
Qed.

Lemma includes_tail (p : string) (c : ascii) (s : string) :
  includes p s = true -> includes p (String c s) = true.
Proof. intros H. simpl. rewrite H. apply orb_true_r. Qed.

Lemma includes_head (p s : string) : startsWith p s = true -> includes p s = true.
Proof. intros H. destruct s; simpl in *; rewrite H; reflexivity. Qed.

End StringFacts.

Section ExtractorFacts.
Import JsString SQLParameterExtractor.

Lemma span_word_app (s w r : string) : span_word s = (w, r) -> s = w +:+ r.
Proof.
  revert w r. induction s as [|c s IH]; intros w r; simpl.
  - intros [= <- <-]. reflexivity.
  - destruct (is_word c).
    + destruct (span_word s) as [w' r'] eqn:E. intros [= <- <-].
      change (String c s = String c (w' +:+ r')). f_equal. apply IH. reflexivity.
    + intros [= <- <-]. reflexivity.
Qed.

Lemma match_placeholder_sound (s name : string) (len : nat) :
  match_placeholder s = Some (name, len) ->
  startsWith ("{{" +:+ name +:+ "}}") s = true.
Proof.
  unfold match_placeholder.
  destruct s as [|a s]; [discriminate|].
  destruct (Ascii.eqb_spec a "{"); [subst a|destruct a as [[] [] [] [] [] [] [] []]; try discriminate; contradiction].
  destruct s as [|b s]; [discriminate|].
  destruct (Ascii.eqb_spec b "{"); [subst b|destruct b as [[] [] [] [] [] [] [] []]; try discriminate; contradiction].
  destruct (span_word s) as [w r] eqn:E.
  destruct w as [|c w]; [discriminate|].
  destruct r as [|x r]; [discriminate|].
  destruct (Ascii.eqb_spec x "}"); [subst x|destruct x as [[] [] [] [] [] [] [] []]; try discriminate; contradiction].
  destruct r as [|y r]; [discriminate|].
  destruct (Ascii.eqb_spec y "}"); [subst y|destruct y as [[] [] [] [] [] [] [] []]; try discriminate; contradiction].
  intros [= <- <-]. apply span_word_app in E. subst s.
  change (startsWith ("{{" +:+ (String c w +:+ "}}")) ("{{" +:+ (String c w +:+ String "}" (String "}" r))) = true).
  simpl. rewrite Ascii.eqb_refl.
  replace (w +:+ String "}" (String "}" r)) with ((w +:+ "}}") +:+ r).
  - apply startsWith_refl_app.
  - clear. induction w as [|d w IH]; [reflexivity|].
    change (String d ((w +:+ "}}") +:+ r) = String d (w +:+ String "}" (String "}" r))).
    f_equal. exact IH.
Qed.

(** A name that the scan captures stands in the text between braces. *)
Lemma exec_all_sound (n : string) (s : string) (skip : nat) :
  In n (exec_all skip s) -> includes ("{{" +:+ n +:+ "}}") s = true.
Proof.
  revert skip. induction s as [|c s IH]; intros skip; [intros []|].
  cbn [exec_all]. destruct skip as [|k].
  - destruct (match_placeholder (String c s)) as [[name len]|] eqn:E.
    + intros [<-|H].
      * apply includes_head. apply (match_placeholder_sound _ _ _ E).
      * apply includes_tail, (IH _ H).
    + intros H. apply includes_tail, (IH _ H).
  - intros H. apply includes_tail, (IH _ H).
Qed.

Lemma includes_name_In (l : list string) (n : string) :
  includes_name l n = true <-> In n l.
Proof.
  unfold includes_name. rewrite existsb_exists. split.
  - intros [x [Hin Heq]]. apply String.eqb_eq in Heq. subst. exact Hin.
  - intros H. exists n. split; [exact H|apply String.eqb_refl].
Qed.

Lemma push_all_In (l acc : list string) (n : string) :
  In n (fold_left push_new l acc) <-> In n l \/ In n acc.
Proof.
  revert acc. induction l as [|x l IH]; intros acc; simpl; [tauto|].
  rewrite IH. unfold push_new.
  destruct (includes_name acc x) eqn:E.
  - apply includes_name_In in E. split; [tauto|].
    intros [[<-|H]|H]; auto.
  - rewrite List.in_app_iff. simpl. tauto.
Qed.

Lemma push_all_NoDup (l acc : list string) :
  List.NoDup acc -> List.NoDup (fold_left push_new l acc).
Proof.
  revert acc. induction l as [|x l IH]; intros acc H; simpl; [exact H|].
  apply IH. unfold push_new. destruct (includes_name acc x) eqn:E; [exact H|].
  assert (Hx : ~ In x acc).
  { intros Hin. apply includes_name_In in Hin. congruence. }
  clear -H Hx. induction acc as [|a acc IHa]; simpl.
  - constructor; [intros []|constructor].
  - inversion H; subst. constructor.
    + rewrite List.in_app_iff. simpl. intros [?|[<-|[]]]; [tauto|].
      apply Hx. left. reflexivity.
    + apply IHa; [assumption|]. intros ?. apply Hx. right. assumption.
Qed.

(** The extracted names are distinct, and each is a placeholder of the
    text. *)
Lemma extract_names_NoDup (sql : string) : List.NoDup (extract_names sql).
Proof. apply push_all_NoDup. constructor. Qed.

Lemma extract_names_placeholder (sql n : string) :
  In n (extract_names sql) -> includes ("{{" +:+ n +:+ "}}") sql = true.
Proof.
  unfold extract_names. rewrite push_all_In. intros [H|[]].
  apply (exec_all_sound _ _ _ H).
Qed.

(** The map of the stored parameters gives, for a name, the last stored
    entry of that name. *)
Lemma existingMap_lookup_acc (stored : list ExtractedParameter)
    (m : gmap string ExtractedParameter) (n : string) :
  fold_left (fun m p => <[param_name p := p]> m) stored m !! n
  = match last (List.filter (fun e => String.eqb (param_name e) n) stored) with
    | Some e => Some e
    | None => m !! n
    end.
Proof.
  revert m. induction stored as [|a stored IH]; intros m; simpl; [reflexivity|].
  rewrite IH. destruct (String.eqb_spec (param_name a) n) as [E|E].
  - rewrite last_cons.
    destruct (last (List.filter _ stored)); [reflexivity|].
    rewrite <- E. apply lookup_insert_eq.
  - destruct (last (List.filter _ stored)); [reflexivity|].
    apply lookup_insert_ne. exact E.
Qed.

Lemma existingMap_lookup (stored : list ExtractedParameter) (n : string) :
  existingMap stored !! n
  = last (List.filter (fun e => String.eqb (param_name e) n) stored).
Proof.
  unfold existingMap. rewrite existingMap_lookup_acc.
  destruct (last _); [reflexivity|apply lookup_empty].
Qed.

Lemma extractParameters_names (sql : string) :
  List.map param_name (extractParameters sql) = extract_names sql.
Proof.
  unfold extractParameters. destruct sql as [|c s]; [reflexivity|]. simpl truthy.
  cbv iota. rewrite List.map_map. simpl. apply List.map_id.
Qed.

End ExtractorFacts.

(** C7 (as the code has it): the merged list has exactly the names that the
    extraction finds in the new text, in that order. A merged entry whose
    name is stored takes, from the last stored entry of that name, the
    location, the data type, the required flag, the default value and the
    validation rule, and the description when that one is not empty; an
    empty or missing stored description gives way to the inferred one. An
    entry whose name is not stored is the fresh inference. And a stored
    parameter whose placeholder does not occur in the text is in the merged
    list no more. *)
Theorem reconcile_keeps_stored_attributes
    (sql : string) (stored : list SQLParameterExtractor.ExtractedParameter) :
  let merged := SQLParameterExtractor.extractParametersWithDefaults sql stored in
  List.map SQLParameterExtractor.param_name merged
  = SQLParameterExtractor.extract_names sql
  /\ (forall p e,
        In p merged ->
        last (List.filter
                (fun e => String.eqb (SQLParameterExtractor.param_name e)
                                     (SQLParameterExtractor.param_name p))
                stored) = Some e ->
        SQLParameterExtractor.param_type p = SQLParameterExtractor.param_type e
        /\ SQLParameterExtractor.data_type p = SQLParameterExtractor.data_type e
        /\ SQLParameterExtractor.required p = SQLParameterExtractor.required e
        /\ SQLParameterExtractor.default_value p
           = SQLParameterExtractor.default_value e
        /\ SQLParameterExtractor.validation_rule p
           = SQLParameterExtractor.validation_rule e
        /\ SQLParameterExtractor.description p
           = SQLParameterExtractor.or_else
               (SQLParameterExtractor.description e)
               (Some (SQLParameterExtractor.generateDescription
                        (SQLParameterExtractor.param_name p))))
  /\ (forall p,
        In p merged ->
        (forall e, In e stored ->
           SQLParameterExtractor.param_name e <> SQLParameterExtractor.param_name p) ->
        p = SQLParameterExtractor.inferParameter
              (SQLParameterExtractor.param_name p) sql)
  /\ (forall e,
        In e stored ->
        JsString.includes ("{{" +:+ SQLParameterExtractor.param_name e +:+ "}}") sql
        = false ->
        forall p, In p merged ->
          SQLParameterExtractor.param_name p <> SQLParameterExtractor.param_name e).
Proof.
  intros merged.
  assert (Hnames : List.map SQLParameterExtractor.param_name merged
                   = SQLParameterExtractor.extract_names sql).
  { subst merged. unfold SQLParameterExtractor.extractParametersWithDefaults.
    rewrite List.map_map. rewrite <- extractParameters_names.
    apply List.map_ext. intros a.
    destruct (_ !! _); reflexivity. }
  assert (Hshape : forall p, In p merged ->
            exists n, p = match SQLParameterExtractor.existingMap stored !! n with
                          | Some existing =>
                              SQLParameterExtractor.merge_existing existing
                                (SQLParameterExtractor.inferParameter n sql)
                          | None => SQLParameterExtractor.inferParameter n sql
                          end).
  { subst merged. intros p Hp.
    unfold SQLParameterExtractor.extractParametersWithDefaults in Hp.
    apply List.in_map_iff in Hp. destruct Hp as [param [<- Hparam]].
    unfold SQLParameterExtractor.extractParameters in Hparam.
    destruct (JsString.truthy sql); [|destruct Hparam].
    apply List.in_map_iff in Hparam. destruct Hparam as [n [<- _]].
    exists n. reflexivity. }
  split; [exact Hnames|]. split; [|split].
  - intros p e Hp He. destruct (Hshape p Hp) as [n Hn].
    assert (Hpn : SQLParameterExtractor.param_name p = n).
    { rewrite Hn. destruct (_ !! _); reflexivity. }
    rewrite Hpn in *. rewrite existingMap_lookup, He in Hn. subst p.
    simpl. repeat split; reflexivity.
  - intros p Hp Hfresh. destruct (Hshape p Hp) as [n Hn].
    assert (Hpn : SQLParameterExtractor.param_name p = n).
    { rewrite Hn. destruct (_ !! _); reflexivity. }
    rewrite Hpn in *. rewrite existingMap_lookup in Hn.
    assert (Hnil : List.filter
                     (fun e => String.eqb (SQLParameterExtractor.param_name e) n)
                     stored = []).
    { clear -Hfresh. induction stored as [|a stored IH]; [reflexivity|]. simpl.
      destruct (String.eqb_spec (SQLParameterExtractor.param_name a) n) as [E|E].
      - exfalso. apply (Hfresh a); [left; reflexivity|exact E].
      - apply IH. intros e He. apply Hfresh. right. exact He. }
    rewrite Hnil in Hn. exact Hn.
  - intros e He Hno p Hp Heq.
    assert (Hin : In (SQLParameterExtractor.param_name p)
                     (SQLParameterExtractor.extract_names sql)).
    { rewrite <- Hnames. apply List.in_map, Hp. }
    apply extract_names_placeholder in Hin. rewrite Heq in Hin. congruence.
Qed.

Lemma reconcile_keeps_stored_attributes_witness :
  SQLParameterExtractor.param_type Examples.merged_id
  = SQLParameterExtractor.param_type Examples.stored_id
  /\ SQLParameterExtractor.data_type Examples.merged_id
     = SQLParameterExtractor.data_type Examples.stored_id
  /\ SQLParameterExtractor.required Examples.merged_id
     = SQLParameterExtractor.required Examples.stored_id
  /\ SQLParameterExtractor.default_value Examples.merged_id
     = SQLParameterExtractor.default_value Examples.stored_id
  /\ SQLParameterExtractor.validation_rule Examples.merged_id
     = SQLParameterExtractor.validation_rule Examples.stored_id
  /\ SQLParameterExtractor.description Examples.merged_id
     = SQLParameterExtractor.or_else
         (SQLParameterExtractor.description Examples.stored_id)
         (Some (SQLParameterExtractor.generateDescription
                  (SQLParameterExtractor.param_name Examples.merged_id))).
Proof.
  apply (proj1 (proj2
           (reconcile_keeps_stored_attributes Examples.users_by_id_and_status
              [Examples.stored_id; Examples.stored_city]))
           Examples.merged_id Examples.stored_id).
  - left. vm_compute. reflexivity.
  - reflexivity.
Defined.

(** C7 as stated fails for the description: the stored definition of [id]
    has none, and the merged entry does not keep that but carries the
    inferred text. The other stored attributes are kept, and the stored
    [city], which the text does not name, is dropped. *)
Lemma reconcile_infers_missing_description :
  exists p,
    SQLParameterExtractor.extractParametersWithDefaults
      "SELECT * FROM users WHERE id = {{id}}"
      [Examples.stored_id; Examples.stored_city] = [p]
    /\ SQLParameterExtractor.param_name p = "id"
    /\ SQLParameterExtractor.param_type p
       = SQLParameterExtractor.param_type Examples.stored_id
    /\ SQLParameterExtractor.description Examples.stored_id = None
    /\ SQLParameterExtractor.description p = Some "Record identifier"
    /\ SQLParameterExtractor.description p
       <> SQLParameterExtractor.description Examples.stored_id.
Proof.
  eexists. split; [vm_compute; reflexivity|]. simpl.
  repeat split; try reflexivity. discriminate.
Qed.

(** ** Route matching *)

Section MatchingFacts.
Import JsString Js Execute.









End MatchingFacts.



(** The parameterized endpoint comes first in the table and matches the
    request as well; the fixed one is returned. A request that only the
    parameterized endpoint matches binds [id] to its second segment. *)
Example fixed_path_wins_over_parameter :
  Execute.match_segments (Execute.segments (Execute.path Examples.user_by_id))
    (Execute.segments "/users/me") [] = Some [("id", "me")]
  /\ Execute.findMatchingAPI [Examples.user_by_id; Examples.current_user]
       "/users/me" "GET" = Some (Examples.current_user, [])
  /\ Execute.findMatchingAPI [Examples.user_by_id; Examples.current_user]
       "/users/42" "GET" = Some (Examples.user_by_id, [("id", "42")]).
Proof. repeat split. Qed.

(** ** SQL rendering *)

Section RenderFacts.
Import JsString Js Render.

Lemma includes_dollar_cons (c : ascii) (s : string) :
  includes "$" (String c s) = Ascii.eqb "$" c || includes "$" s.
Proof. cbn [includes startsWith]. rewrite andb_true_r. reflexivity. Qed.

(** A replacement text without a dollar sign stands for itself. *)
Lemma expand_plain (matched before after v : string) :
  has_dollar v = false -> expand matched before after v = v.
Proof.
  unfold has_dollar. induction v as [|c v IH]; [reflexivity|].
  cbn [includes startsWith]. intros H.
  apply orb_false_elim in H as [Hc Hv].
  destruct (Ascii.eqb_spec "$" c) as [<-|Hne]; [discriminate|].
  specialize (IH Hv).
  destruct c as [[] [] [] [] [] [] [] []]; try (exfalso; apply Hne; reflexivity);
    cbn [expand]; rewrite IH; reflexivity.
Qed.

Lemma replace_go_plain (pat v before rest : string) (skip : nat) :
  has_dollar v = false ->
  replace_go pat v before skip rest = substitute_go pat v skip rest.
Proof.
  intros Hv. revert before skip.
  induction rest as [|c rest IH]; intros before skip; [reflexivity|].
  cbn [replace_go substitute_go]. destruct skip as [|k]; [|apply IH].
  destruct (startsWith pat (String c rest)).
  - rewrite expand_plain by exact Hv. rewrite IH. reflexivity.
  - rewrite IH. reflexivity.
Qed.

(** For a replacement text without a dollar sign, [replace] substitutes the
    text as it stands. *)
Lemma replace_all_plain (pat v s : string) :
  has_dollar v = false -> replace_all pat v s = substitute pat v s.
Proof. intros Hv. apply replace_go_plain, Hv. Qed.

(** The expression built from a key of word characters that is not a run of
    digits matches the placeholder, literally. *)
Lemma pattern_of_key_literal (key : string) :
  JsString.forallb is_digit key = false ->
  pattern_of_key key = "{{" +:+ key +:+ "}}".
Proof.
  intros H. unfold pattern_of_key. rewrite H, andb_false_r. reflexivity.
Qed.

Section WithRegexp.
Variable replace_regexp : string -> string -> string -> string + string.

(** A key that is neither [search] nor one of the three identifier-style
    keys: each placeholder gives way to a [?] and the value joins the
    bound values, last. *)
Lemma render_entry_bound (st : state) (key : string) (value : jsval) :
  JsString.forallb is_word key = true ->
  JsString.forallb is_digit key = false ->
  includes ("{{" +:+ key +:+ "}}") (sql st) = true ->
  String.eqb key searchParam = false ->
  existsb (String.eqb key) directReplaceParams = false ->
  render_entry replace_regexp st (key, value)
  = inr {| sql := substitute ("{{" +:+ key +:+ "}}") "?" (sql st);
           queryParams := queryParams st ++ [value] |}.
Proof.
  intros Hw Hd Hi Hs Hdir. unfold render_entry, replace_placeholder.
  rewrite Hi, Hs, Hdir, Hw, (pattern_of_key_literal _ Hd).
  rewrite replace_all_plain by reflexivity. reflexivity.
Qed.

(** One of [order_by], [order], [limit], with a value whose text has no
    dollar sign: the text goes into the statement as it stands, and nothing
    is bound. *)
Lemma render_entry_direct (st : state) (key : string) (value : jsval) :
  existsb (String.eqb key) directReplaceParams = true ->
  includes ("{{" +:+ key +:+ "}}") (sql st) = true ->
  has_dollar (to_String value) = false ->
  render_entry replace_regexp st (key, value)
  = inr {| sql := substitute ("{{" +:+ key +:+ "}}") (to_String value) (sql st);
           queryParams := queryParams st |}.
Proof.
  intros Hdir Hi Hv. unfold render_entry, replace_placeholder.
  rewrite Hi, Hdir.
  assert (Hk : key = "order_by" \/ key = "order" \/ key = "limit").
  { unfold directReplaceParams in Hdir. simpl in Hdir.
    repeat (apply orb_true_iff in Hdir as [Hdir|Hdir];
            [apply String.eqb_eq in Hdir; auto|]).
    discriminate. }
  destruct Hk as [-> | [-> | ->]]; simpl String.eqb; cbv iota;
    (replace (JsString.forallb is_word _) with true by reflexivity);
    rewrite pattern_of_key_literal by reflexivity;
    rewrite replace_all_plain by exact Hv; reflexivity.
Qed.

(** [search], with a value whose text has no dollar sign: the quotes of the
    text are doubled, the text is put between ['%] and [%'] and goes into the
    statement as it stands. *)
Lemma render_entry_search (st : state) (value : jsval) :
  includes "{{search}}" (sql st) = true ->
  has_dollar (to_String value) = false ->
  render_entry replace_regexp st ("search", value)
  = inr {| sql := substitute "{{search}}"
                    ("'%" +:+ escape_quotes (to_String value) +:+ "%'") (sql st);
           queryParams := queryParams st |}.
Proof.
  intros Hi Hv. unfold render_entry, replace_placeholder.
  change ("{{" +:+ "search" +:+ "}}") with "{{search}}". rewrite Hi.
  simpl String.eqb. cbv iota.
  replace (JsString.forallb is_word "search") with true by reflexivity.
  rewrite pattern_of_key_literal by reflexivity.
  change ("{{" +:+ "search" +:+ "}}") with "{{search}}".
  rewrite replace_all_plain; [reflexivity|].
  unfold has_dollar in *.
  change ("'%" +:+ escape_quotes (to_String value) +:+ "%'")
    with (String "'" (String "%" (escape_quotes (to_String value) +:+ "%'"))).
  rewrite !includes_dollar_cons. simpl orb.
  revert Hv. generalize (to_String value). clear.
  induction s as [|c s IH]; [reflexivity|].
  rewrite includes_dollar_cons. intros H. apply orb_false_elim in H as [Hc Hs].
  cbn [escape_quotes]. destruct (Ascii.eqb_spec c "'") as [->|Hne].
  - change (String "'" (String "'" (escape_quotes s)) +:+ "%'")
      with (String "'" (String "'" (escape_quotes s +:+ "%'"))).
    rewrite !includes_dollar_cons. simpl orb. apply IH, Hs.
  - change (String c (escape_quotes s) +:+ "%'")
      with (String c (escape_quotes s +:+ "%'")).
    rewrite includes_dollar_cons, Hc. apply IH, Hs.
Qed.

(** A key whose placeholder the statement does not hold changes nothing. *)
Lemma render_entry_absent (st : state) (key : string) (value : jsval) :
  includes ("{{" +:+ key +:+ "}}") (sql st) = false ->
  render_entry replace_regexp st (key, value) = inr st.
Proof. intros H. unfold render_entry. rewrite H. reflexivity. Qed.

End WithRegexp.

End RenderFacts.

(** C2: the claim holds of the keys and values that the lemmas above cover,
    and fails beside them. The value of [order_by] goes through the
    replacement patterns of [String.prototype.replace]: [price$$] reaches
    the statement as [price$], not as it stands; the value [$'] of [search]
    brings in the rest of the statement. And the expression built for the
    key [1] does not match the placeholder [{{1}}]: the statement stays as it
    is while the value is bound all the same. *)
Theorem render_is_not_raw_for_dollar_values_and_digit_keys
    (replace_regexp : string -> string -> string -> string + string) :
  Render.render replace_regexp "SELECT * FROM items ORDER BY {{order_by}}"
    [("order_by", Js.JStr "price$$")]
  = inr {| Render.sql := "SELECT * FROM items ORDER BY price$";
           Render.queryParams := [] |}
  /\ Render.substitute "{{order_by}}" "price$$"
       "SELECT * FROM items ORDER BY {{order_by}}"
     = "SELECT * FROM items ORDER BY price$$"
  /\ Render.render replace_regexp
       "SELECT * FROM items WHERE name LIKE {{search}} LIMIT 5"
       [("search", Js.JStr "$'")]
     = inr {| Render.sql :=
                "SELECT * FROM items WHERE name LIKE '% LIMIT 5'%' LIMIT 5";
              Render.queryParams := [] |}
  /\ Render.render replace_regexp "SELECT * FROM items WHERE id = {{1}}"
       [("1", Js.JStr "42")]
     = inr {| Render.sql := "SELECT * FROM items WHERE id = {{1}}";
              Render.queryParams := [Js.JStr "42"] |}.
Proof. repeat split. Qed.

(** The case the spec names: the value of [order_by] is not escaped, and
    [id] is bound. *)
Example render_order_by_unescaped
    (replace_regexp : string -> string -> string -> string + string) :
  Render.render replace_regexp
    "SELECT * FROM users WHERE id = {{id}} ORDER BY {{order_by}}"
    [("id", Js.JStr "42"); ("order_by", Js.JStr "name; DROP TABLE users")]
  = inr {| Render.sql :=
             "SELECT * FROM users WHERE id = ? ORDER BY name; DROP TABLE users";
           Render.queryParams := [Js.JStr "42"] |}.
Proof. reflexivity. Qed.

(** ** The row cap *)

Section RowCapFacts.
Import JsString Render.

Lemma take_length_app (a b : string) : take (String.length a) (a +:+ b) = a.
Proof.
  induction a as [|c a IH]; [destruct b; reflexivity|].
  change (String c (take (String.length a) (a +:+ b)) = String c a).
  rewrite IH. reflexivity.
Qed.

Lemma drop_length_app (a b : string) : drop (String.length a) (a +:+ b) = b.
Proof. induction a as [|c a IH]; [destruct b; reflexivity|exact IH]. Qed.

Lemma lastIndexOf_app_at (c : ascii) (a b : string) :
  lastIndexOf c b = None ->
  lastIndexOf c (a +:+ String c b) = Some (String.length a).
Proof.
  intros Hb. induction a as [|x a IH].
  - change (lastIndexOf c (String c b) = Some 0%nat). cbn [lastIndexOf].
    rewrite Hb, Ascii.eqb_refl. reflexivity.
  - change (lastIndexOf c (String x (a +:+ String c b)) = Some (S (String.length a))).
    cbn [lastIndexOf]. rewrite IH. reflexivity.
Qed.

(** The clause goes before the last semicolon, so before a trailing one;
    without a semicolon it goes to the end. *)
Lemma insert_clause_before_last (clause body tail : string) :
  lastIndexOf ";" tail = None ->
  insert_clause clause (body +:+ String ";" tail)
  = body +:+ clause +:+ String ";" tail.
Proof.
  intros H. unfold insert_clause. rewrite (lastIndexOf_app_at _ _ _ H).
  rewrite take_length_app, drop_length_app. reflexivity.
Qed.

Lemma insert_clause_no_semicolon (clause sql : string) :
  lastIndexOf ";" sql = None -> insert_clause clause sql = sql +:+ clause.
Proof. intros H. unfold insert_clause. rewrite H. reflexivity. Qed.

(** A statement that is no SELECT is left as it is, for every dialect. *)
Lemma row_cap_not_select (type sql : string) :
  startsWith "SELECT" (toUpperCase (trim sql)) = false -> row_cap type sql = sql.
Proof. intros H. unfold row_cap. rewrite H. reflexivity. Qed.

(** The first two dialects and the fourth: a SELECT without the limit text
    gets the clause, one with it is left as it is. *)
Lemma row_cap_limit (type sql : string) :
  type = "mysql" \/ type = "postgresql" ->
  startsWith "SELECT" (toUpperCase (trim sql)) = true ->
  row_cap type sql
  = if includes " LIMIT " (toUpperCase (trim sql))
       || endsWith " LIMIT" (toUpperCase (trim sql))
    then sql
    else insert_clause " LIMIT 1000" sql.
Proof.
  intros Ht Hs. unfold row_cap. rewrite Hs.
  destruct Ht as [-> | ->]; simpl String.eqb; cbv iota; simpl orb; cbv iota;
    destruct (includes " LIMIT " _), (endsWith " LIMIT" _); reflexivity.
Qed.

Lemma row_cap_fetch_first (sql : string) :
  startsWith "SELECT" (toUpperCase (trim sql)) = true ->
  row_cap "oracle" sql
  = if includes " ROWNUM " (toUpperCase (trim sql))
       || includes " FETCH FIRST " (toUpperCase (trim sql))
    then sql
    else insert_clause " FETCH FIRST 1000 ROWS ONLY" sql.
Proof.
  intros Hs. unfold row_cap. rewrite Hs. simpl String.eqb. cbv iota.
  simpl orb. cbv iota.
  destruct (includes " ROWNUM " _), (includes " FETCH FIRST " _); reflexivity.
Qed.

(** The third dialect: the cap goes in when the statement itself, not its
    trimmed copy, begins with SELECT and white space. *)
Lemma row_cap_top (sql : string) :
  startsWith "SELECT" (toUpperCase (trim sql)) = true ->
  row_cap "mssql" sql
  = if includes " TOP " (toUpperCase (trim sql)) then sql
    else replace_leading_select sql.
Proof.
  intros Hs. unfold row_cap. rewrite Hs. simpl String.eqb. cbv iota.
  simpl orb. cbv iota. destruct (includes " TOP " _); reflexivity.
Qed.

Lemma replace_leading_select_matches (c : ascii) (rest : string) :
  is_ws c = true ->
  replace_leading_select ("SELECT" +:+ String c rest)
  = "SELECT TOP 1000 " +:+ trimStart rest.
Proof.
  intros H. unfold replace_leading_select.
  change (take 6 ("SELECT" +:+ String c rest)) with "SELECT".
  change (drop 6 ("SELECT" +:+ String c rest)) with (String c rest).
  change (startsWith "SELECT" (toUpperCase "SELECT")) with true. cbv iota.
  rewrite H. reflexivity.
Qed.

End RowCapFacts.

(** C3: for the third dialect the cap is missed. The statement
    [ SELECT * FROM users], with a blank in front, is a SELECT by the test of
    the route and has no row limit, yet it is left as it is: the expression
    that puts [TOP 1000] in is anchored at the first character of the
    statement, not of its trimmed copy. The same holds without white space
    after SELECT. The other three dialects cap the same statement, but they
    put the clause before the last semicolon wherever it is, also inside a
    string literal. *)
Theorem row_cap_missed_for_top_dialect :
  JsString.startsWith "SELECT"
    (JsString.toUpperCase (JsString.trim " SELECT * FROM users")) = true
  /\ JsString.includes " TOP "
       (JsString.toUpperCase (JsString.trim " SELECT * FROM users")) = false
  /\ Render.row_cap "mssql" " SELECT * FROM users" = " SELECT * FROM users"
  /\ Render.row_cap "mssql" "SELECT*FROM users" = "SELECT*FROM users"
  /\ Render.row_cap "mssql" "SELECT * FROM users" = "SELECT TOP 1000 * FROM users"
  /\ Render.row_cap "mysql" " SELECT * FROM users"
     = " SELECT * FROM users LIMIT 1000"
  /\ Render.row_cap "postgresql" "SELECT * FROM users;"
     = "SELECT * FROM users LIMIT 1000;"
  /\ Render.row_cap "oracle" "SELECT * FROM users;"
     = "SELECT * FROM users FETCH FIRST 1000 ROWS ONLY;"
  /\ Render.row_cap "mysql" "SELECT * FROM notes WHERE body = ';'"
     = "SELECT * FROM notes WHERE body = ' LIMIT 1000;'".
Proof. repeat split. Qed.

(** * Further properties *)

(** ** The registry: lookup, teardown and recreation *)

Section PoolOpsFacts.
Import DatabasePool DatabasePoolOps.

Lemma getPool_pools_of (poolName type : string) (r : registry) :
  getPool poolName type r
  = if supported type then
      match pools_of type r !! poolName with
      | Some pool => inr pool
      | None => getPool poolName type r
      end
    else inl ("Unsupported database type: " +:+ type).
Proof.
  unfold getPool, supported, pools_of, getMySQLPool, getPostgreSQLPool,
    getMSSQLPool, getOraclePool.
  case_dialect type; simpl; try reflexivity;
    match goal with |- context [?m !! poolName] => destruct (m !! poolName) end;
    reflexivity.
Qed.

Lemma getPool_absent (poolName type : string) (r : registry) :
  pools_of type r !! poolName = None -> exists err, getPool poolName type r = inl err.
Proof.
  unfold getPool, pools_of, getMySQLPool, getPostgreSQLPool, getMSSQLPool,
    getOraclePool.
  case_dialect type; simpl; intros H; try rewrite H; eauto.
Qed.

Lemma getPool_ext (poolName type : string) (r1 r2 : registry) :
  pools_of type r1 !! poolName = pools_of type r2 !! poolName ->
  getPool poolName type r1 = getPool poolName type r2.
Proof.
  unfold getPool, pools_of, getMySQLPool, getPostgreSQLPool, getMSSQLPool,
    getOraclePool.
  case_dialect type; simpl; intros H; rewrite ?H; reflexivity.
Qed.

Lemma createPool_registers (connect : DatabaseConfig -> option string)
    (config : DatabaseConfig) (poolName : string) (r r' : registry) :
  createPool connect config poolName r = inr r' ->
  supported (type config) = true
  /\ pools_of (type config) r !! poolName = None
  /\ pools_of (type config) r' = <[poolName := config]> (pools_of (type config) r)
  /\ forall t, t <> type config -> pools_of t r' = pools_of t r.
Proof.
  destruct config as [h p u pw db t]; simpl.
  unfold createPool, createMySQLPool, createPostgreSQLPool, createMSSQLPool,
    createOraclePool, supported, has; simpl.
  unfold pools_of at 1 2 3.
  case_dialect t; simpl;
    try (destruct (bool_decide _) eqn:E; [discriminate|];
         apply bool_decide_eq_false in E;
         try (destruct (connect _); [discriminate|]);
         intros [= <-]; simpl; split; [reflexivity|];
         split; [apply eq_None_not_Some, E|];
         split; [reflexivity|];
         intros t0 Ht; unfold pools_of;
         case_dialect t0; simpl; congruence || reflexivity).
  intros [=].
Qed.

End PoolOpsFacts.

Lemma getPool_inr_iff (poolName type : string) (r : DatabasePool.registry)
    (pool : DatabasePool.DatabaseConfig) :
  DatabasePoolOps.getPool poolName type r = inr pool
  <-> DatabasePool.supported type = true
      /\ DatabasePool.pools_of type r !! poolName = Some pool.
Proof.
  rewrite getPool_pools_of. destruct (DatabasePool.supported type); split.
  - destruct (DatabasePool.pools_of type r !! poolName) as [q|] eqn:E.
    + intros [= ->]. auto.
    + intros H. destruct (getPool_absent _ _ _ E) as [err He]. congruence.
  - intros [_ ->]. reflexivity.
  - discriminate.
  - intros [H _]. discriminate.
Qed.


(** X1: [getPool] returns a pool exactly when the dialect is one of the four
    and the map of that dialect holds the key, and then it is the pool
    registered there; otherwise it throws. *)
Theorem getPool_found_iff (poolName type : string) (r : DatabasePool.registry)
    (pool : DatabasePool.DatabaseConfig) :
  DatabasePoolOps.getPool poolName type r = inr pool
  <-> DatabasePool.supported type = true
      /\ DatabasePool.pools_of type r !! poolName = Some pool.
Proof. apply getPool_inr_iff. Qed.

Lemma createPool_getPool
    (connect : DatabasePool.DatabaseConfig -> option string)
    (config : DatabasePool.DatabaseConfig) (poolName : string)
    (r r' : DatabasePool.registry) :
  DatabasePool.createPool connect config poolName r = inr r' ->
  DatabasePoolOps.getPool poolName (DatabasePool.type config) r' = inr config
  /\ forall k t,
       k <> poolName \/ t <> DatabasePool.type config ->
       DatabasePoolOps.getPool k t r' = DatabasePoolOps.getPool k t r.
Proof.
  intros H. apply createPool_registers in H as (Hs & _ & Hnew & Hframe). split.
  - apply getPool_inr_iff. split; [exact Hs|]. rewrite Hnew.
    apply lookup_insert_eq.
  - intros k t Hkt.
    assert (Hl : DatabasePool.pools_of t r' !! k = DatabasePool.pools_of t r !! k).
    { destruct (decide (t = DatabasePool.type config)) as [->|Ht].
      - rewrite Hnew. apply lookup_insert_ne. destruct Hkt; congruence.
      - rewrite (Hframe t Ht). reflexivity. }
    apply getPool_ext, Hl.
Qed.

(** X2: a pool that [createPool] has registered is what [getPool] returns
    for that key and dialect, and the lookups of every other key or dialect
    are as before. *)
Theorem createPool_then_getPool
    (connect : DatabasePool.DatabaseConfig -> option string)
    (config : DatabasePool.DatabaseConfig) (poolName : string)
    (r r' : DatabasePool.registry) :
  DatabasePool.createPool connect config poolName r = inr r' ->
  DatabasePoolOps.getPool poolName (DatabasePool.type config) r' = inr config
  /\ forall k t,
       k <> poolName \/ t <> DatabasePool.type config ->
       DatabasePoolOps.getPool k t r' = DatabasePoolOps.getPool k t r.
Proof. apply createPool_getPool. Qed.

Section ClosePoolFacts.
Import DatabasePool DatabasePoolOps.
Variable shutdown : DatabaseConfig -> option string.

(** What [closePool] does, by the map of the dialect. *)
Lemma closePool_cases (poolName type : string) (r : registry) :
  match pools_of type r !! poolName with
  | Some pool =>
      match shutdown pool with
      | Some err => closePool shutdown poolName type r = inl err
      | None =>
          exists r', closePool shutdown poolName type r = inr r'
            /\ pools_of type r' = delete poolName (pools_of type r)
            /\ forall t, t <> type -> pools_of t r' = pools_of t r
      end
  | None => closePool shutdown poolName type r = inr r
  end.
Proof.
  unfold closePool, closeMySQLPool, closePostgreSQLPool, closeMSSQLPool,
    closeOraclePool.
  unfold pools_of at 1 2 3.
  case_dialect type; simpl;
    try (match goal with |- context [?m !! poolName] => destruct (m !! poolName) as [pool|] end;
         [|reflexivity];
         destruct (shutdown pool); [reflexivity|];
         eexists; split; [reflexivity|]; simpl; split; [reflexivity|];
         intros t0 Ht; unfold pools_of; case_dialect t0; simpl;
         congruence || reflexivity).
  rewrite lookup_empty. reflexivity.
Qed.

End ClosePoolFacts.

(** X3: [closePool] throws only when the map of the dialect holds the key
    and the shutdown of that pool fails. When it returns, [getPool] finds no
    pool under that key and dialect, and the lookups of every other key or
    dialect are as before; a key that is not registered, or a dialect that
    is none of the four, is no error. *)
Theorem closePool_then_getPool
    (shutdown : DatabasePool.DatabaseConfig -> option string)
    (poolName type : string) (r : DatabasePool.registry) :
  (forall err,
      DatabasePoolOps.closePool shutdown poolName type r = inl err
      <-> exists pool,
            DatabasePool.pools_of type r !! poolName = Some pool
            /\ shutdown pool = Some err)
  /\ (forall r',
        DatabasePoolOps.closePool shutdown poolName type r = inr r' ->
        (exists err, DatabasePoolOps.getPool poolName type r' = inl err)
        /\ forall k t,
             k <> poolName \/ t <> type ->
             DatabasePoolOps.getPool k t r' = DatabasePoolOps.getPool k t r).
Proof.
  pose proof (closePool_cases shutdown poolName type r) as H.
  destruct (DatabasePool.pools_of type r !! poolName) as [pool|] eqn:E.
  - destruct (shutdown pool) as [e|] eqn:Es.
    + rewrite H. split.
      * intros err. split.
        -- intros [= <-]. eauto.
        -- intros (q & [= <-] & Hq). congruence.
      * intros r' [=].
    + destruct H as (r1 & -> & Hdel & Hframe). split.
      * intros err. split; [discriminate|].
        intros (q & [= <-] & Hq). congruence.
      * intros r' [= <-]. split.
        -- apply getPool_absent. rewrite Hdel. apply lookup_delete_eq.
        -- intros k t Hkt. apply getPool_ext.
           destruct (decide (t = type)) as [->|Ht].
           ++ rewrite Hdel. apply lookup_delete_ne. destruct Hkt; congruence.
           ++ rewrite (Hframe t Ht). reflexivity.
  - rewrite H. split.
    + intros err. split; [discriminate|]. intros (q & [=] & _).
    + intros r' [= <-]. split; [apply getPool_absent, E|reflexivity].
Qed.

Lemma closePool_then_getPool_witness :
  (exists err,
      DatabasePoolOps.getPool "ds_1" "mysql" DatabasePool.empty = inl err)
  /\ forall k t,
       k <> "ds_1" \/ t <> "mysql" ->
       DatabasePoolOps.getPool k t DatabasePool.empty
       = DatabasePoolOps.getPool k t Examples.one_mysql_pool.
Proof.
  apply (proj2 (closePool_then_getPool Examples.connects "ds_1" "mysql"
                  Examples.one_mysql_pool) DatabasePool.empty).
  vm_compute. reflexivity.
Defined.

Lemma createPool_then_getPool_witness :
  DatabasePoolOps.getPool "ds_1" "postgresql"
    {| DatabasePool.mysqlPools := {[ "ds_1" := Examples.mysql_config ]};
       DatabasePool.pgPools := <["ds_1" := Examples.pg_config]> ∅;
       DatabasePool.mssqlPools := ∅;
       DatabasePool.oraclePools := ∅ |} = inr Examples.pg_config.
Proof.
  apply (proj1 (createPool_then_getPool Examples.connects Examples.pg_config "ds_1"
                  Examples.one_mysql_pool _ eq_refl)).
Defined.

(** X4: the update of a datasource closes the pool under the dialect the
    datasource had and creates one under the dialect it has now. When the
    shutdown of the old pool and the connection of the new one succeed, and
    the key is registered for no dialect but the old one, the sequence
    succeeds, [getPool] returns the new configuration under the new dialect,
    and after a change of dialect the old one holds the key no more. *)
Theorem recreatePool_replaces
    (shutdown connect : DatabasePool.DatabaseConfig -> option string)
    (existing_type : string) (config : DatabasePool.DatabaseConfig)
    (poolName : string) (r : DatabasePool.registry) :
  DatabasePool.supported (DatabasePool.type config) = true ->
  connect config = None ->
  (forall pool,
      DatabasePool.pools_of existing_type r !! poolName = Some pool ->
      shutdown pool = None) ->
  (existing_type <> DatabasePool.type config ->
   DatabasePool.pools_of (DatabasePool.type config) r !! poolName = None) ->
  exists r',
    DatabasePoolOps.recreatePool shutdown connect existing_type config poolName r
    = inr r'
    /\ DatabasePoolOps.getPool poolName (DatabasePool.type config) r' = inr config
    /\ (existing_type <> DatabasePool.type config ->
        exists err, DatabasePoolOps.getPool poolName existing_type r' = inl err).
Proof.
  intros Hs Hc Hshut Hfree. unfold DatabasePoolOps.recreatePool.
  pose proof (closePool_cases shutdown poolName existing_type r) as H.
  assert (Hclosed : exists r1,
             DatabasePoolOps.closePool shutdown poolName existing_type r = inr r1
             /\ DatabasePool.pools_of existing_type r1 !! poolName = None
             /\ forall t, t <> existing_type ->
                  DatabasePool.pools_of t r1 = DatabasePool.pools_of t r).
  { destruct (DatabasePool.pools_of existing_type r !! poolName) as [pool|] eqn:E.
    - rewrite (Hshut pool eq_refl) in H. destruct H as (r1 & H1 & Hdel & Hframe).
      exists r1. split; [exact H1|]. split; [|exact Hframe].
      rewrite Hdel. apply lookup_delete_eq.
    - exists r. auto. }
  destruct Hclosed as (r1 & -> & Hnone & Hframe).
  assert (Hfree1 : DatabasePool.pools_of (DatabasePool.type config) r1 !! poolName
                   = None).
  { destruct (decide (existing_type = DatabasePool.type config)) as [E|E].
    - rewrite <- E. exact Hnone.
    - rewrite Hframe by congruence. apply Hfree, E. }
  assert (Hcreate : exists r',
             DatabasePool.createPool connect config poolName r1 = inr r').
  { clear -Hs Hc Hfree1. destruct config as [h p u pw db t]; simpl in *.
    unfold DatabasePool.createPool, DatabasePool.createMySQLPool,
      DatabasePool.createPostgreSQLPool, DatabasePool.createMSSQLPool,
      DatabasePool.createOraclePool, DatabasePool.has; simpl.
    unfold DatabasePool.pools_of, DatabasePool.supported in *.
    revert Hs Hfree1. case_dialect t; simpl; intros Hs Hfree1; try discriminate;
      rewrite Hfree1; rewrite ?Hc;
      (rewrite bool_decide_eq_false_2 by (intros [? ?]; discriminate)); eauto. }
  destruct Hcreate as [r' Hr']. exists r'. split; [exact Hr'|].
  pose proof (createPool_getPool _ _ _ _ _ Hr') as [Hget Hother].
  split; [exact Hget|].
  intros Hne. rewrite Hother by (right; exact Hne). apply getPool_absent, Hnone.
Qed.

Lemma recreatePool_replaces_witness :
  exists r',
    DatabasePoolOps.recreatePool Examples.connects Examples.connects "mysql"
      Examples.pg_config "ds_1" Examples.one_mysql_pool = inr r'
    /\ DatabasePoolOps.getPool "ds_1" (DatabasePool.type Examples.pg_config) r'
       = inr Examples.pg_config
    /\ ("mysql" <> DatabasePool.type Examples.pg_config ->
        exists err, DatabasePoolOps.getPool "ds_1" "mysql" r' = inl err).
Proof.
  apply (recreatePool_replaces Examples.connects Examples.connects "mysql"
           Examples.pg_config "ds_1" Examples.one_mysql_pool).
  - reflexivity.
  - reflexivity.
  - intros pool _. reflexivity.
  - intros _. reflexivity.
Defined.

Section CloseAllFacts.
Import DatabasePool DatabasePoolOps.
Variable shutdown : DatabaseConfig -> option string.

Lemma pools_of_closeAll (t : string) (r : registry) :
  pools_of t (fst (closeAllPools shutdown r)) = still_open shutdown (pools_of t r).
Proof.
  unfold closeAllPools, pools_of. simpl.
  case_dialect t; simpl; reflexivity.
Qed.

End CloseAllFacts.

(** X5: after [closeAllPools], [getPool] still finds exactly the pools whose
    shutdown failed; and the call rejects exactly when there is such a pool.
    So when it resolves, no key is registered for any dialect. *)
Theorem closeAllPools_keeps_failed
    (shutdown : DatabasePool.DatabaseConfig -> option string)
    (r : DatabasePool.registry) :
  (forall k t pool,
      DatabasePoolOps.getPool k t (fst (DatabasePoolOps.closeAllPools shutdown r))
      = inr pool
      <-> DatabasePoolOps.getPool k t r = inr pool /\ is_Some (shutdown pool))
  /\ (snd (DatabasePoolOps.closeAllPools shutdown r) = false
      <-> forall k t pool,
            DatabasePoolOps.getPool k t r = inr pool -> shutdown pool = None).
Proof.
  assert (Hget : forall k t pool,
             DatabasePoolOps.getPool k t
               (fst (DatabasePoolOps.closeAllPools shutdown r)) = inr pool
             <-> DatabasePoolOps.getPool k t r = inr pool /\ is_Some (shutdown pool)).
  { intros k t pool. rewrite !getPool_inr_iff, pools_of_closeAll.
    unfold DatabasePoolOps.still_open. rewrite map_lookup_filter_Some. simpl.
    tauto. }
  split; [exact Hget|].
  unfold DatabasePoolOps.closeAllPools. cbn [snd].
  rewrite negb_false_iff, bool_decide_eq_true. split.
  - intros (H1 & H2 & H3 & H4) k t pool Hp.
    destruct (shutdown pool) as [e|] eqn:Es; [|reflexivity]. exfalso.
    assert (Hin : DatabasePoolOps.getPool k t
                    (fst (DatabasePoolOps.closeAllPools shutdown r)) = inr pool).
    { apply Hget. split; [exact Hp|]. rewrite Es. eauto. }
    apply getPool_inr_iff in Hin as [_ Hin].
    rewrite pools_of_closeAll in Hin. cbn in H1, H2, H3, H4.
    unfold DatabasePool.pools_of in Hin.
    repeat match type of Hin with
           | context [if ?b then _ else _] => destruct b
           end;
      rewrite ?H1, ?H2, ?H3, ?H4 in Hin;
      unfold DatabasePoolOps.still_open in Hin;
      rewrite ?map_filter_empty in Hin; rewrite lookup_empty in Hin; discriminate.
  - intros Hall.
    assert (Hempty : forall t,
               DatabasePoolOps.still_open shutdown (DatabasePool.pools_of t r) = ∅).
    { intros t. apply map_empty. intros k.
      unfold DatabasePoolOps.still_open. apply map_lookup_filter_None.
      destruct (DatabasePool.pools_of t r !! k) as [pool|] eqn:E; [right|left; reflexivity].
      intros x [= <-]. simpl.
      destruct (DatabasePool.supported t) eqn:S.
      - rewrite (Hall k t pool) by (apply getPool_inr_iff; auto).
        intros [? ?]. discriminate.
      - exfalso. revert S E. unfold DatabasePool.supported, DatabasePool.pools_of.
        case_dialect t; simpl; discriminate. }
    repeat split.
    + apply (Hempty "mysql").
    + apply (Hempty "postgresql").
    + apply (Hempty "mssql").
    + apply (Hempty "oracle").
Qed.

(** X6: [executeQuery] returns rows only when a dialect is given, the
    dialect is one of the four, a pool is registered under the key for it,
    and the driver of that dialect returned these rows for the statement on
    that pool; the statement is the one given, but for the third dialect
    with bound values, where its question marks are named first. Without a
    dialect no statement is run at all. *)
Theorem executeQuery_rows_from_registered_pool
    (run : string -> DatabasePool.DatabaseConfig -> string -> list Js.jsval
           -> string + list (Js.obj Js.jsval))
    (poolName sql : string) (params : option (list Js.jsval))
    (type : option string) (r : DatabasePool.registry)
    (rows : list (Js.obj Js.jsval)) :
  DatabasePoolOps.executeQuery run poolName sql params type r = inr (Some rows) ->
  exists t pool,
    type = Some t
    /\ DatabasePool.supported t = true
    /\ DatabasePool.pools_of t r !! poolName = Some pool
    /\ run t pool
         (if String.eqb t "mssql" && negb (List.length (default [] params) =? 0)%nat
          then DatabasePoolOps.name_marks 0 (List.length (default [] params)) sql
          else sql)
         (default [] params) = inr rows.
Proof.
  unfold DatabasePoolOps.executeQuery. destruct type as [t|].
  - destruct (JsString.truthy t) eqn:Ht.
    + destruct (DatabasePoolOps.getPool poolName t r) as [err|pool] eqn:E;
        [discriminate|].
      apply getPool_inr_iff in E as [Hs Hp].
      intros H. exists t, pool. split; [reflexivity|]. split; [exact Hs|].
      split; [exact Hp|]. revert H.
      unfold DatabasePool.supported in Hs. revert Hs.
      case_dialect t; simpl; try discriminate; intros _.
      * destruct (run _ _ _ _); [discriminate|]. intros [= ->]. reflexivity.
      * destruct (run _ _ _ _); [discriminate|]. intros [= ->]. reflexivity.
      * destruct params as [[|p ps]|]; simpl;
          (destruct (run _ _ _ _); [discriminate|]); intros [= ->]; reflexivity.
      * destruct (run _ _ _ _); [discriminate|]. intros [= ->]. reflexivity.
    + destruct t; [|discriminate]. simpl.
      destruct (DatabasePoolOps.getPool _ _ _); discriminate.
  - destruct (DatabasePoolOps.getPool _ _ _); discriminate.
Qed.

Lemma executeQuery_rows_from_registered_pool_witness :
  exists t pool,
    Some "mssql" = Some t
    /\ DatabasePool.supported t = true
    /\ DatabasePool.pools_of t Examples.one_mssql_pool !! "ds_3" = Some pool
    /\ Examples.echo_driver t pool
         (if String.eqb t "mssql"
             && negb (List.length (default [] (Some [Js.JNum 7; Js.JStr "open"])) =? 0)%nat
          then DatabasePoolOps.name_marks 0
                 (List.length (default [] (Some [Js.JNum 7; Js.JStr "open"])))
                 "SELECT * FROM orders WHERE id = ? AND state = ?"
          else "SELECT * FROM orders WHERE id = ? AND state = ?")
         (default [] (Some [Js.JNum 7; Js.JStr "open"]))
       = inr [[("sql", Js.JStr "SELECT * FROM orders WHERE id = @param0 AND state = @param1")]].
Proof.
  apply (executeQuery_rows_from_registered_pool Examples.echo_driver "ds_3"
           "SELECT * FROM orders WHERE id = ? AND state = ?"
           (Some [Js.JNum 7; Js.JStr "open"]) (Some "mssql") Examples.one_mssql_pool).
  vm_compute. reflexivity.
Defined.

(** ** Naming the bound values of the third dialect *)

Section MarkFacts.
Import JsString DatabasePoolOps.

Lemma append_cons (c : ascii) (a b : string) :
  String c a +:+ b = String c (a +:+ b).
Proof. reflexivity. Qed.

Lemma append_assoc (a b c : string) : (a +:+ b) +:+ c = a +:+ (b +:+ c).
Proof.
  induction a as [|x a IH]; [reflexivity|]. rewrite !append_cons, IH. reflexivity.
Qed.

Lemma append_empty_r (a : string) : a +:+ "" = a.
Proof. induction a as [|x a IH]; [reflexivity|]. rewrite append_cons, IH. reflexivity. Qed.

Lemma no_mark_app (a b : string) :
  no_mark (a +:+ b) = no_mark a && no_mark b.
Proof.
  unfold no_mark. induction a as [|x a IH]; [reflexivity|].
  rewrite append_cons. cbn [JsString.forallb]. rewrite IH. apply andb_assoc.
Qed.

Lemma replace_first_mark_none (v s : string) :
  no_mark s = true -> replace_first_mark v s = s.
Proof.
  unfold no_mark. induction s as [|c s IH]; [reflexivity|].
  cbn [JsString.forallb replace_first_mark]. intros H.
  apply andb_true_iff in H as [Hc Hs]. apply negb_true_iff in Hc. rewrite Hc.
  rewrite (IH Hs). reflexivity.
Qed.

Lemma replace_first_mark_at (v pre tail : string) :
  no_mark pre = true ->
  replace_first_mark v (pre +:+ String "?" tail) = pre +:+ v +:+ tail.
Proof.
  unfold no_mark. induction pre as [|c pre IH]; intros H.
  - reflexivity.
  - cbn [JsString.forallb] in H. apply andb_true_iff in H as [Hc Hs].
    apply negb_true_iff in Hc. rewrite !append_cons. cbn [replace_first_mark].
    rewrite Hc, (IH Hs). reflexivity.
Qed.

Lemma name_marks_none (index count : nat) (s : string) :
  no_mark s = true -> name_marks index count s = s.
Proof.
  revert index s. induction count as [|count IH]; intros index s H; [reflexivity|].
  cbn [name_marks]. rewrite replace_first_mark_none by exact H. apply IH, H.
Qed.

Lemma pretty_N_go_no_mark (x : N) (s : string) :
  no_mark s = true -> no_mark (pretty_N_go x s) = true.
Proof.
  revert s. induction (N.lt_wf_0 x) as [x _ IH]; intros s Hs.
  destruct (decide (0 < x)%N) as [Hx|Hx].
  - rewrite pretty_N_go_step by exact Hx. apply IH.
    + apply N.div_lt; [exact Hx|reflexivity].
    + unfold no_mark. cbn [JsString.forallb]. fold (no_mark s). rewrite Hs.
      rewrite andb_true_r. unfold pretty_N_char.
      repeat match goal with
             | |- context [match ?n with _ => _ end] => destruct n
             end; reflexivity.
  - assert (x = 0%N) as -> by lia. rewrite pretty_N_go_0. exact Hs.
Qed.

Lemma param_name_no_mark (index : nat) : no_mark (param_name index) = true.
Proof.
  unfold param_name. rewrite no_mark_app. simpl andb.
  unfold pretty, pretty_N. destruct (decide _); [reflexivity|].
  apply pretty_N_go_no_mark. reflexivity.
Qed.

Lemma named_from_zero (index : nat) (segs : list string) :
  named_from index 0 segs = String.concat "?" segs.
Proof.
  induction segs as [|s rest IH]; [reflexivity|].
  cbn [named_from String.concat]. destruct rest as [|s' rest]; [reflexivity|].
  rewrite IH. reflexivity.
Qed.

Lemma name_marks_named_from (count index : nat) (pre : string) (segs : list string) :
  no_mark pre = true ->
  List.Forall (fun s => no_mark s = true) segs ->
  name_marks index count (pre +:+ String.concat "?" segs)
  = pre +:+ named_from index count segs.
Proof.
  revert index pre segs. induction count as [|count IH]; intros index pre segs Hpre Hsegs.
  - rewrite named_from_zero. reflexivity.
  - destruct segs as [|s rest].
    + cbn [String.concat named_from]. rewrite append_empty_r.
      apply name_marks_none, Hpre.
    + inversion Hsegs as [|? ? Hs Hrest]; subst.
      destruct rest as [|s' rest].
      * cbn [String.concat named_from]. apply name_marks_none.
        rewrite no_mark_app, Hpre, Hs. reflexivity.
      * assert (E : pre +:+ String.concat "?" (s :: s' :: rest)
                    = (pre +:+ s) +:+ String "?" (String.concat "?" (s' :: rest))).
        { cbn [String.concat]. rewrite append_assoc. reflexivity. }
        rewrite E. cbn [name_marks].
        rewrite replace_first_mark_at
          by (rewrite no_mark_app, Hpre, Hs; reflexivity).
        assert (E2 : (pre +:+ s) +:+ param_name index
                       +:+ String.concat "?" (s' :: rest)
                     = ((pre +:+ s) +:+ param_name index)
                         +:+ String.concat "?" (s' :: rest)).
        { rewrite (append_assoc (pre +:+ s)). reflexivity. }
        rewrite E2, (IH (S index)).
        -- cbn [named_from]. rewrite !append_assoc. reflexivity.
        -- rewrite !no_mark_app, Hpre, Hs, param_name_no_mark. reflexivity.
        -- exact Hrest.
Qed.

End MarkFacts.

(** X7: for a statement whose pieces are separated by question marks, naming
    [count] bound values turns the first [count] question marks, from left
    to right, into [@param0], [@param1], and so on, and leaves the later
    ones and every piece as they are. *)
Theorem name_marks_in_order (count : nat) (segs : list string) :
  List.Forall (fun s => DatabasePoolOps.no_mark s = true) segs ->
  DatabasePoolOps.name_marks 0 count (String.concat "?" segs)
  = DatabasePoolOps.named_from 0 count segs.
Proof.
  intros H. apply (name_marks_named_from count 0 "" segs eq_refl H).
Qed.

Lemma name_marks_in_order_witness :
  DatabasePoolOps.name_marks 0 2
    (String.concat "?" ["SELECT * FROM t WHERE a = "; " AND b = "; " AND c = "; ""])
  = DatabasePoolOps.named_from 0 2
      ["SELECT * FROM t WHERE a = "; " AND b = "; " AND c = "; ""].
Proof.
  apply (name_marks_in_order 2
           ["SELECT * FROM t WHERE a = "; " AND b = "; " AND c = "; ""]).
  repeat constructor.
Defined.

(** ** Extraction finds every placeholder *)

Section ExtractionComplete.
Import JsString SQLParameterExtractor.

Lemma span_word_word (s w r : string) :
  span_word s = (w, r) -> JsString.forallb is_word w = true.
Proof.
  revert w r. induction s as [|c s IH]; intros w r; cbn [span_word].
  - intros [= <- <-]. reflexivity.
  - destruct (is_word c) eqn:Hc.
    + destruct (span_word s) as [w' r'] eqn:E. intros [= <- <-].
      cbn [JsString.forallb]. rewrite Hc. apply (IH _ _ eq_refl).
    + intros [= <- <-]. reflexivity.
Qed.

(** The shape of a match: two braces, a non-empty run of word characters,
    two braces. *)
Lemma match_placeholder_inv (s name : string) (len : nat) :
  match_placeholder s = Some (name, len) ->
  exists r,
    s = String "{" (String "{" (name +:+ String "}" (String "}" r)))
    /\ JsString.forallb is_word name = true
    /\ truthy name = true
    /\ len = (String.length name + 4)%nat.
Proof.
  unfold match_placeholder.
  destruct s as [|a s]; [discriminate|].
  destruct (Ascii.eqb_spec a "{"); [subst a|destruct a as [[] [] [] [] [] [] [] []]; try discriminate; contradiction].
  destruct s as [|b s]; [discriminate|].
  destruct (Ascii.eqb_spec b "{"); [subst b|destruct b as [[] [] [] [] [] [] [] []]; try discriminate; contradiction].
  destruct (span_word s) as [w r] eqn:E.
  destruct w as [|c w]; [discriminate|].
  destruct r as [|x r]; [discriminate|].
  destruct (Ascii.eqb_spec x "}"); [subst x|destruct x as [[] [] [] [] [] [] [] []]; try discriminate; contradiction].
  destruct r as [|y r]; [discriminate|].
  destruct (Ascii.eqb_spec y "}"); [subst y|destruct y as [[] [] [] [] [] [] [] []]; try discriminate; contradiction].
  intros [= <- <-]. exists r.
  pose proof (span_word_word _ _ _ E) as Hw. apply span_word_app in E. subst s.
  repeat split; auto.
Qed.

Lemma span_word_run (n rest : string) :
  JsString.forallb is_word n = true ->
  startsWith (n +:+ "}}") rest = true ->
  exists r, span_word rest = (n, String "}" (String "}" r)).
Proof.
  revert rest. induction n as [|c n IH]; intros rest Hn Hs.
  - change ("" +:+ "}}") with "}}" in Hs.
    destruct rest as [|a rest]; [discriminate|]. cbn [startsWith] in Hs.
    apply andb_true_iff in Hs as [Ha Hs]. apply Ascii.eqb_eq in Ha. subst a.
    destruct rest as [|b rest]; [discriminate|]. cbn [startsWith] in Hs.
    apply andb_true_iff in Hs as [Hb _]. apply Ascii.eqb_eq in Hb. subst b.
    exists rest. reflexivity.
  - rewrite append_cons in Hs. destruct rest as [|a rest]; [discriminate|].
    cbn [startsWith] in Hs. apply andb_true_iff in Hs as [Ha Hs].
    apply Ascii.eqb_eq in Ha. subst a.
    cbn [JsString.forallb] in Hn. apply andb_true_iff in Hn as [Hc Hn].
    destruct (IH rest Hn Hs) as [r Hr]. exists r.
    cbn [span_word]. rewrite Hc, Hr. reflexivity.
Qed.

Lemma match_placeholder_complete (n s : string) :
  JsString.forallb is_word n = true ->
  truthy n = true ->
  startsWith ("{{" +:+ n +:+ "}}") s = true ->
  match_placeholder s = Some (n, (String.length n + 4)%nat).
Proof.
  intros Hn Ht Hs.
  change ("{{" +:+ n +:+ "}}") with (String "{" (String "{" (n +:+ "}}"))) in Hs.
  destruct s as [|a s]; [discriminate|]. cbn [startsWith] in Hs.
  apply andb_true_iff in Hs as [Ha Hs]. apply Ascii.eqb_eq in Ha. subst a.
  destruct s as [|b s]; [discriminate|]. cbn [startsWith] in Hs.
  apply andb_true_iff in Hs as [Hb Hs]. apply Ascii.eqb_eq in Hb. subst b.
  destruct (span_word_run n s Hn Hs) as [r Hr].
  unfold match_placeholder. rewrite Hr. destruct n; [discriminate|]. reflexivity.
Qed.

Lemma startsWith_braces (n s : string) :
  startsWith ("{{" +:+ n +:+ "}}") s = true -> startsWith "{{" s = true.
Proof.
  change ("{{" +:+ n +:+ "}}") with (String "{" (String "{" (n +:+ "}}"))).
  destruct s as [|a s]; [discriminate|]. cbn [startsWith]. intros H.
  apply andb_true_iff in H as [-> H].
  destruct s as [|b s]; [discriminate|]. cbn [startsWith] in *.
  apply andb_true_iff in H as [-> _]. reflexivity.
Qed.

Lemma word_not_brace (c : ascii) : is_word c = true -> Ascii.eqb "{" c = false.
Proof.
  intros H. destruct (Ascii.eqb_spec "{" c) as [<-|]; [discriminate|reflexivity].
Qed.

(** Inside a match, after its first brace, no character but the first is
    an opening brace, so no other match begins there. *)
Lemma no_brace_in_match (name r : string) (j : nat) :
  JsString.forallb is_word name = true ->
  (j < String.length name + 2)%nat ->
  startsWith "{" (drop j (name +:+ String "}" (String "}" r))) = false.
Proof.
  revert j. induction name as [|c name IH]; intros j Hn Hj.
  - change ("" +:+ String "}" (String "}" r)) with (String "}" (String "}" r)).
    destruct j as [|[|j]]; [reflexivity|reflexivity|simpl in Hj; lia].
  - rewrite append_cons. cbn [JsString.forallb] in Hn.
    apply andb_true_iff in Hn as [Hc Hn]. destruct j as [|j].
    + cbn [drop startsWith]. rewrite (word_not_brace _ Hc). reflexivity.
    + cbn [drop]. apply IH; [exact Hn|]. simpl in Hj. lia.
Qed.

Lemma no_match_in_match (name r : string) (i : nat) :
  JsString.forallb is_word name = true ->
  truthy name = true ->
  (i < String.length name + 3)%nat ->
  startsWith "{{"
    (drop i (String "{" (name +:+ String "}" (String "}" r)))) = false.
Proof.
  intros Hn Ht Hi. destruct i as [|j].
  - cbn [drop]. destruct name as [|c name]; [discriminate|].
    rewrite append_cons. cbn [startsWith JsString.forallb] in *.
    apply andb_true_iff in Hn as [Hc _]. rewrite (word_not_brace _ Hc).
    rewrite Ascii.eqb_refl. reflexivity.
  - cbn [drop].
    pose proof (no_brace_in_match name r j Hn ltac:(lia)) as H.
    destruct (drop j _) as [|a t]; [reflexivity|].
    cbn [startsWith] in *. rewrite andb_true_r in H. rewrite H. reflexivity.
Qed.

Lemma exec_all_complete (n s : string) (skip : nat) :
  JsString.forallb is_word n = true ->
  truthy n = true ->
  (forall i, (i < skip)%nat -> startsWith "{{" (drop i s) = false) ->
  includes ("{{" +:+ n +:+ "}}") s = true ->
  In n (exec_all skip s).
Proof.
  intros Hn Ht. revert skip. induction s as [|c s IH]; intros skip Hskip Hinc.
  - exfalso. revert Hinc.
    change ("{{" +:+ n +:+ "}}") with (String "{" (String "{" (n +:+ "}}"))).
    discriminate.
  - cbn [includes] in Hinc. cbn [exec_all]. destruct skip as [|k].
    + destruct (startsWith ("{{" +:+ n +:+ "}}") (String c s)) eqn:Hs.
      * rewrite (match_placeholder_complete _ _ Hn Ht Hs). left. reflexivity.
      * simpl in Hinc.
        destruct (match_placeholder (String c s)) as [[name len]|] eqn:E.
        -- right. apply IH; [|exact Hinc].
           apply match_placeholder_inv in E as (r & Hr & Hw & Hne & ->).
           injection Hr as -> ->. intros i Hi.
           apply no_match_in_match; [exact Hw|exact Hne|lia].
        -- apply IH; [intros i Hi; lia|exact Hinc].
    + assert (Hs : startsWith ("{{" +:+ n +:+ "}}") (String c s) = false).
      { destruct (startsWith _ (String c s)) eqn:Hs; [|reflexivity].
        apply startsWith_braces in Hs.
        pose proof (Hskip 0%nat ltac:(lia)) as H0. cbn [drop] in H0. congruence. }
      rewrite Hs in Hinc. simpl in Hinc. apply IH; [|exact Hinc].
      intros i Hi. apply (Hskip (S i)). lia.
Qed.

Lemma exec_all_word (n s : string) (skip : nat) :
  In n (exec_all skip s) -> JsString.forallb is_word n = true /\ truthy n = true.
Proof.
  revert skip. induction s as [|c s IH]; intros skip; [intros []|].
  cbn [exec_all]. destruct skip as [|k]; [|apply IH].
  destruct (match_placeholder (String c s)) as [[name len]|] eqn:E; [|apply IH].
  intros [<-|H]; [|apply (IH _ H)].
  apply match_placeholder_inv in E as (r & _ & Hw & Hne & _). auto.
Qed.

Lemma extract_names_iff (sql n : string) :
  In n (extract_names sql)
  <-> JsString.forallb is_word n = true
      /\ truthy n = true
      /\ includes ("{{" +:+ n +:+ "}}") sql = true.
Proof.
  unfold extract_names. rewrite push_all_In. split.
  - intros [H|[]]. destruct (exec_all_word _ _ _ H) as [Hw Hne].
    repeat split; auto. apply (exec_all_sound _ _ _ H).
  - intros (Hw & Hne & Hinc). left.
    apply exec_all_complete; auto. intros i Hi. lia.
Qed.

End ExtractionComplete.

(** X8: the extraction returns, without repetition, exactly the names that
    stand in the text between double braces: a name is returned if and only
    if it is a non-empty run of word characters and [{{name}}] occurs in
    the text. No placeholder is missed and nothing else is reported. *)
Theorem extract_names_exactly_the_placeholders (sql : string) :
  List.NoDup (SQLParameterExtractor.extract_names sql)
  /\ forall n,
       In n (SQLParameterExtractor.extract_names sql)
       <-> JsString.forallb JsString.is_word n = true
           /\ JsString.truthy n = true
           /\ JsString.includes ("{{" +:+ n +:+ "}}") sql = true.
Proof.
  split; [apply extract_names_NoDup|]. intros n. apply extract_names_iff.
Qed.

(** ** Reconciling twice *)

Section ReconcileFacts.
Import JsString SQLParameterExtractor Reconciled.

Lemma description_table_truthy (k d : string) :
  assoc k descriptions = Some d -> truthy d = true.
Proof.
  unfold descriptions. cbn [assoc].
  repeat (destruct (String.eqb k _); [intros [= <-]; reflexivity|]).
  discriminate.
Qed.

Lemma generateDescription_truthy (n : string) : truthy (generateDescription n) = true.
Proof.
  unfold generateDescription.
  destruct (assoc (toLowerCase n) descriptions) as [d|] eqn:E.
  - apply (description_table_truthy _ _ E).
  - destruct (String.eqb _ "constructor"); [reflexivity|].
    destruct (String.eqb _ "__proto__"); [reflexivity|].
    destruct n; reflexivity.
Qed.

Lemma merged_entry_name (sql : string) (stored : list ExtractedParameter) (n : string) :
  param_name (merged_entry sql stored n) = n.
Proof. unfold merged_entry. destruct (_ !! _); reflexivity. Qed.

Lemma merged_entry_description (sql : string) (stored : list ExtractedParameter)
    (n : string) :
  exists d, description (merged_entry sql stored n) = Some d /\ truthy d = true.
Proof.
  unfold merged_entry. destruct (_ !! _) as [e|]; simpl.
  - destruct (description e) as [d|]; simpl.
    + destruct (truthy d) eqn:Hd; eauto using generateDescription_truthy.
    + eauto using generateDescription_truthy.
  - eauto using generateDescription_truthy.
Qed.

Lemma extractParametersWithDefaults_map (sql : string)
    (stored : list ExtractedParameter) :
  extractParametersWithDefaults sql stored
  = List.map (merged_entry sql stored)
      (if truthy sql then extract_names sql else []).
Proof.
  unfold extractParametersWithDefaults, extractParameters.
  destruct (truthy sql); [|reflexivity].
  rewrite List.map_map. reflexivity.
Qed.

Lemma filter_name_map (f : string -> ExtractedParameter) (names : list string)
    (n : string) :
  (forall m, param_name (f m) = m) ->
  List.NoDup names ->
  In n names ->
  List.filter (fun e => String.eqb (param_name e) n) (List.map f names) = [f n].
Proof.
  intros Hf. induction names as [|m names IH]; intros Hnd Hin; [destruct Hin|].
  inversion Hnd as [|? ? Hm Hnd']; subst. cbn [List.map List.filter].
  rewrite Hf. destruct (String.eqb_spec m n) as [->|Hne].
  - f_equal. clear -Hf Hm. induction names as [|k names IH]; [reflexivity|].
    cbn [List.map List.filter]. rewrite Hf.
    destruct (String.eqb_spec k n) as [->|_].
    + exfalso. apply Hm. left. reflexivity.
    + apply IH. intros H. apply Hm. right. exact H.
  - destruct Hin as [->|Hin]; [contradiction|]. apply IH; assumption.
Qed.

Lemma merge_existing_self (sql : string) (stored : list ExtractedParameter)
    (n : string) :
  merge_existing (merged_entry sql stored n) (inferParameter n sql)
  = merged_entry sql stored n.
Proof.
  pose proof (merged_entry_name sql stored n) as Hn.
  destruct (merged_entry_description sql stored n) as (d & Hd & Ht).
  destruct (merged_entry sql stored n) as [pn pt dt rq dv vr ds].
  simpl in *. subst pn ds. unfold merge_existing. simpl. rewrite Ht. reflexivity.
Qed.

Lemma reconcile_twice (sql : string) (stored : list ExtractedParameter) :
  extractParametersWithDefaults sql (extractParametersWithDefaults sql stored)
  = extractParametersWithDefaults sql stored.
Proof.
  rewrite !extractParametersWithDefaults_map.
  destruct (truthy sql); [|reflexivity].
  apply List.map_ext_in. intros n Hn.
  unfold merged_entry at 1. rewrite existingMap_lookup.
  rewrite (filter_name_map _ _ _ (merged_entry_name sql stored)
             (extract_names_NoDup sql) Hn).
  cbn [last]. apply merge_existing_self.
Qed.

End ReconcileFacts.

(** X9: reconciling is idempotent. When the merged list is stored and the
    parameters are derived again from the same text, as an update of the
    endpoint without a parameter list does, the list comes out unchanged. *)
Theorem extractParametersWithDefaults_idempotent
    (sql : string) (stored : list SQLParameterExtractor.ExtractedParameter) :
  SQLParameterExtractor.extractParametersWithDefaults sql
    (SQLParameterExtractor.extractParametersWithDefaults sql stored)
  = SQLParameterExtractor.extractParametersWithDefaults sql stored.
Proof. apply reconcile_twice. Qed.

(** ** Objects keep their keys apart *)

Section ObjectKeyFacts.
Import Js.
Context {A : Type}.

Lemma has_key_In (k : string) (o : obj A) : has_key k o = true <-> In k (keys o).
Proof.
  unfold has_key, keys. rewrite existsb_exists, List.in_map_iff. split.
  - intros [e [Hin He]]. apply String.eqb_eq in He. eauto.
  - intros [e [He Hin]]. exists e. split; [exact Hin|]. apply String.eqb_eq, He.
Qed.

Lemma keys_replace_value (k : string) (v : A) (o : obj A) :
  keys (replace_value k v o) = keys o.
Proof.
  induction o as [|[k0 v0] o IH]; [reflexivity|]. cbn [replace_value].
  destruct (String.eqb k0 k); [reflexivity|]. unfold keys in *. simpl.
  rewrite IH. reflexivity.
Qed.

Lemma keys_insert_index (i : N) (k : string) (v : A) (o : obj A) :
  Permutation (keys (insert_index i k v o)) (k :: keys o).
Proof.
  induction o as [|[k0 v0] o IH]; [reflexivity|]. cbn [insert_index].
  destruct (array_index k0) as [j|]; [destruct (j <? i)%N|]; try reflexivity.
  unfold keys in *. simpl. rewrite IH. apply perm_swap.
Qed.

Lemma keys_set_NoDup (k : string) (v : A) (o : obj A) :
  List.NoDup (keys o) -> List.NoDup (keys (set k v o)).
Proof.
  intros H. unfold set. destruct (has_key k o) eqn:E.
  - rewrite keys_replace_value. exact H.
  - assert (Hk : ~ In k (keys o)).
    { intros Hin. apply has_key_In in Hin. congruence. }
    assert (Hnd : List.NoDup (k :: keys o)) by (constructor; assumption).
    destruct (array_index k).
    + eapply Permutation_NoDup; [symmetry; apply keys_insert_index|exact Hnd].
    + unfold keys. rewrite List.map_app. simpl.
      eapply Permutation_NoDup; [|exact Hnd].
      apply Permutation_cons_append.
Qed.

Lemma In_get (k : string) (v : A) (o : obj A) :
  List.NoDup (keys o) -> In (k, v) o <-> get k o = Some v.
Proof.
  induction o as [|[k0 v0] o IH]; intros Hnd.
  - simpl. split; [intros []|discriminate].
  - inversion Hnd as [|? ? Hk0 Hnd']; subst. cbn [get In].
    destruct (String.eqb_spec k0 k) as [->|Hne].
    + split.
      * intros [[= ->]|Hin]; [reflexivity|].
        exfalso. apply Hk0. unfold keys. apply List.in_map_iff.
        exists (k, v). auto.
      * intros [= ->]. left. reflexivity.
    + rewrite <- (IH Hnd'). split.
      * intros [[= -> ->]|Hin]; [contradiction|exact Hin].
      * intros Hin. right. exact Hin.
Qed.

End ObjectKeyFacts.

Section SchemaFacts.
Import Js ValidationService.

Lemma schema_NoDup_acc (parameters : list APIParameter) (acc : obj APIParameter) :
  List.NoDup (keys acc) ->
  List.NoDup
    (keys (fold_left (fun schemaObj param => set (param_name param) param schemaObj)
                     parameters acc)).
Proof.
  revert acc. induction parameters as [|p ps IH]; intros acc H; [exact H|].
  simpl. apply IH, keys_set_NoDup, H.
Qed.

Lemma schema_get_acc (parameters : list APIParameter) (acc : obj APIParameter)
    (key : string) :
  get key (fold_left (fun schemaObj param => set (param_name param) param schemaObj)
                     parameters acc)
  = match last (List.filter (fun p => String.eqb (param_name p) key) parameters) with
    | Some p => Some p
    | None => get key acc
    end.
Proof.
  revert acc. induction parameters as [|a ps IH]; intros acc; [reflexivity|].
  cbn [fold_left List.filter]. rewrite IH, get_set.
  destruct (String.eqb (param_name a) key).
  - rewrite last_cons. destruct (last _); reflexivity.
  - reflexivity.
Qed.

(** The rule in force for a name is that of the last stored definition of
    that name. *)
Lemma schema_entries (parameters : list APIParameter) (key : string)
    (param : APIParameter) :
  In (key, param) (buildJoiSchema parameters)
  <-> last (List.filter (fun p => String.eqb (param_name p) key) parameters)
      = Some param.
Proof.
  unfold buildJoiSchema. rewrite In_get by (apply schema_NoDup_acc; constructor).
  rewrite schema_get_acc. simpl. destruct (last _); split; congruence.
Qed.

Lemma validate_key_fst (joi_rule : APIParameter -> jsval -> list string)
    (bag : obj jsval) (e : string * APIParameter) (d : string * string) :
  In d (validate_key joi_rule bag e) -> fst d = fst e.
Proof.
  destruct e as [key param]. unfold validate_key.
  destruct (get key bag).
  - intros H. apply List.in_map_iff in H as [m [<- _]]. reflexivity.
  - destruct (required param =? 1)%Z; [|intros []].
    intros [<-|[]]. reflexivity.
Qed.

Lemma validate_nil (joi_rule : APIParameter -> jsval -> list string)
    (schema : obj APIParameter) (bag : obj jsval) :
  validate joi_rule schema bag = []
  <-> forall e, In e schema -> validate_key joi_rule bag e = [].
Proof.
  unfold validate. induction schema as [|e schema IH]; simpl.
  - split; [intros _ e []|reflexivity].
  - split.
    + intros H. apply List.app_eq_nil in H as [He Hs].
      intros e' [<-|Hin]; [exact He|]. apply IH; assumption.
    + intros H. rewrite (H e) by (left; reflexivity). simpl.
      apply IH. intros e' Hin. apply H. right. exact Hin.
Qed.

Lemma has_key_errors (joi_rule : APIParameter -> jsval -> list string)
    (schema : obj APIParameter) (bag : obj jsval) (key : string) :
  has_key key (collect_errors (validate joi_rule schema bag)) = true
  <-> exists param,
        In (key, param) schema /\ validate_key joi_rule bag (key, param) <> [].
Proof.
  unfold collect_errors. rewrite has_key_collect_errors.
  rewrite orb_false_r, existsb_exists. unfold validate. split.
  - intros [d [Hd Hk]]. apply String.eqb_eq in Hk.
    apply List.in_concat in Hd as [ds [Hds Hd]].
    apply List.in_map_iff in Hds as [[k param] [<- He]].
    pose proof (validate_key_fst _ _ _ _ Hd) as Hf. simpl in Hf.
    rewrite Hk in Hf. subst k. exists param. split; [exact He|].
    intros Hnil. rewrite Hnil in Hd. destruct Hd.
  - intros [param [He Hne]].
    destruct (validate_key joi_rule bag (key, param)) as [|d ds] eqn:E;
      [contradiction|].
    exists d. split.
    + apply List.in_concat. exists (d :: ds). split; [|left; reflexivity].
      rewrite <- E. apply List.in_map, He.
    + apply String.eqb_eq.
      apply (validate_key_fst joi_rule bag (key, param) d). rewrite E. left.
      reflexivity.
Qed.

Lemma validation_outcome
    (joi_rule : APIParameter -> jsval -> list string)
    (joi_throws : list APIParameter -> obj jsval -> bool)
    (api_parameters : list APIParameter) (apiId : Z) (params : obj jsval) :
  let parameters := getAPIParameters api_parameters apiId in
  let bag := map_values sanitizeInput (assign [] params) in
  let schema := buildJoiSchema parameters in
  let res := validateAndSanitizeRequest joi_rule joi_throws api_parameters apiId
               params in
  parameters <> [] ->
  joi_throws parameters bag = false ->
  (valid res = true
   <-> forall key param, In (key, param) schema ->
         validate_key joi_rule bag (key, param) = [])
  /\ (valid res = true -> sanitizedParams res = Some bag)
  /\ (valid res = false ->
      exists errs,
        errors res = Some errs
        /\ forall key,
             has_key key errs = true
             <-> exists param,
                   In (key, param) schema
                   /\ validate_key joi_rule bag (key, param) <> []).
Proof.
  intros parameters bag schema res Hne Hthrow. subst res.
  unfold validateAndSanitizeRequest.
  pose proof (fold_set_map_values sanitizeInput params []) as Hm. simpl in Hm.
  rewrite Hm. fold bag. unfold validateRequest. fold parameters.
  destruct parameters as [|p ps] eqn:Ep; [contradiction|].
  cbn [List.length Nat.eqb]. rewrite Hthrow. fold schema.
  destruct (validate joi_rule schema bag) as [|d ds] eqn:Ev; simpl.
  - split; [|split; [reflexivity|discriminate]].
    split; [|reflexivity]. intros _ key param Hin.
    apply (proj1 (validate_nil joi_rule schema bag) Ev (key, param) Hin).
  - split; [|split; [discriminate|]].
    + split; [discriminate|]. intros H. exfalso.
      assert (Hnil : validate joi_rule schema bag = []).
      { apply validate_nil. intros [k q] Hin. apply H, Hin. }
      congruence.
    + intros _. eexists. split; [reflexivity|]. intros key.
      rewrite <- Ev. apply has_key_errors.
Qed.

End SchemaFacts.

(** X10: for an endpoint with stored parameter definitions, when the schema
    does not throw, the request is valid exactly when no key of the schema
    fails on the trimmed bag, and then that bag is returned; when it is not
    valid, the errors hold an entry for every key that fails and for no
    other key. A key fails when it is required and absent, or present with
    a value that breaks its rule; the rule of a key is that of the last
    stored definition of that name. *)
Theorem validation_reports_exactly_the_failing_keys
    (joi_rule : ValidationService.APIParameter -> Js.jsval -> list string)
    (joi_throws : list ValidationService.APIParameter -> Js.obj Js.jsval -> bool)
    (api_parameters : list ValidationService.APIParameter) (apiId : Z)
    (params : Js.obj Js.jsval) :
  let parameters := ValidationService.getAPIParameters api_parameters apiId in
  let bag := Js.map_values ValidationService.sanitizeInput (Js.assign [] params) in
  let schema := ValidationService.buildJoiSchema parameters in
  let res := ValidationService.validateAndSanitizeRequest joi_rule joi_throws
               api_parameters apiId params in
  parameters <> [] ->
  joi_throws parameters bag = false ->
  (forall key param,
      In (key, param) schema
      <-> last (List.filter
                  (fun p => String.eqb (ValidationService.param_name p) key)
                  parameters) = Some param)
  /\ (ValidationService.valid res = true
      <-> forall key param, In (key, param) schema ->
            ValidationService.validate_key joi_rule bag (key, param) = [])
  /\ (ValidationService.valid res = true ->
      ValidationService.sanitizedParams res = Some bag)
  /\ (ValidationService.valid res = false ->
      exists errs,
        ValidationService.errors res = Some errs
        /\ forall key,
             Js.has_key key errs = true
             <-> exists param,
                   In (key, param) schema
                   /\ ValidationService.validate_key joi_rule bag (key, param) <> []).
Proof.
  intros parameters bag schema res Hne Hthrow.
  split; [intros key param; apply schema_entries|].
  apply (validation_outcome joi_rule joi_throws api_parameters apiId params Hne Hthrow).
Qed.

Lemma validation_reports_exactly_the_failing_keys_witness :
  exists errs,
    ValidationService.errors
      (ValidationService.validateAndSanitizeRequest Examples.lenient
         Examples.never_throws [Examples.id_param] 7 [("debug", Js.JStr "1")])
    = Some errs
    /\ forall key,
         Js.has_key key errs = true
         <-> exists param,
               In (key, param)
                  (ValidationService.buildJoiSchema
                     (ValidationService.getAPIParameters [Examples.id_param] 7))
               /\ ValidationService.validate_key Examples.lenient
                    (Js.map_values ValidationService.sanitizeInput
                       (Js.assign [] [("debug", Js.JStr "1")]))
                    (key, param) <> [].
Proof.
  apply (proj2 (proj2 (proj2
           (validation_reports_exactly_the_failing_keys Examples.lenient
              Examples.never_throws [Examples.id_param] 7
              [("debug", Js.JStr "1")] ltac:(discriminate) eq_refl)))).
  reflexivity.
Defined.

(** ** The gates of the wildcard route *)

Section GateFacts.
Import Js Execute.

Variable joi_rule : ValidationService.APIParameter -> jsval -> list string.
Variable joi_throws : list ValidationService.APIParameter -> obj jsval -> bool.
Variable replace_regexp : string -> string -> string -> string + string.
Variable executeQuery :
  string -> string -> list jsval -> string -> string + list (obj jsval).

Let run := handle joi_rule joi_throws replace_regexp executeQuery.

(** The status of a run, gate by gate, in the order of the route. *)
Lemma handle_status (e : env) (r : request) :
  status_code (fst (run e r))
  = match findMatchingAPI (apis e) (matched_path r) (matched_method r) with
    | None => 404
    | Some (api, pathParams) =>
        let validationResult :=
          ValidationService.validateAndSanitizeRequest joi_rule joi_throws
            (api_parameters e) (id api) (bag_of r pathParams) in
        match ds api with
        | None => 503
        | Some d =>
            if negb (String.eqb (ds_status d) "active") then 503
            else if (require_auth api =? 1)%Z
                    && negb (bool_decide (is_Some (userId_or_null (userId r))))
            then 401
            else if (require_auth api =? 1)%Z
                    && negb (checkApiPermission (req_tokenPermissions r) api)
            then 403
            else if negb (ValidationService.valid validationResult) then 400
            else
              match Render.render replace_regexp (sql_template api)
                      (default (bag_of r pathParams)
                         (ValidationService.sanitizedParams validationResult)) with
              | inl _ => 500
              | inr st =>
                  match executeQuery ("ds_" +:+ pretty (datasource_id api))
                          (Render.row_cap (type d) (Render.sql st))
                          (Render.queryParams st) (type d) with
                  | inl _ => 500
                  | inr _ => 200
                  end
              end
        end
    end%Z.
Proof.
  unfold run, handle. fold (matched_path r). fold (matched_method r).
  destruct (findMatchingAPI _ _ _) as [[api pathParams]|]; [|reflexivity].
  fold (params_of r pathParams). fold (bag_of r pathParams). cbv zeta.
  destruct (ds api) as [d|]; [|reflexivity].
  destruct (negb (String.eqb (ds_status d) "active")); [reflexivity|].
  destruct (_ && negb (bool_decide _)); [reflexivity|].
  destruct (_ && negb (checkApiPermission _ _)); [reflexivity|].
  destruct (negb (ValidationService.valid _)); [reflexivity|].
  destruct (Render.render _ _ _); [reflexivity|].
  destruct (executeQuery _ _ _ _); reflexivity.
Qed.

Lemma checkApiPermission_true (tp : option tokenPermissions) (api : api_row) :
  checkApiPermission tp api = true
  <-> exists p apis,
        tp = Some p /\ tp_type p = Some "categories"
        /\ tp_apis p = Some apis /\ In (id api) apis.
Proof.
  unfold checkApiPermission. destruct tp as [p|].
  - destruct (tp_type p) as [t|] eqn:Et.
    + destruct (String.eqb_spec t "categories") as [->|Hne].
      * destruct (tp_apis p) as [apis|] eqn:Ea.
        -- rewrite existsb_exists. split.
           ++ intros [x [Hin Hx]]. apply Z.eqb_eq in Hx. subst x.
              exists p, apis. auto.
           ++ intros (p' & apis' & [= <-] & _ & Ha & Hin).
              rewrite Ea in Ha. injection Ha as <-.
              exists (id api). split; [exact Hin|apply Z.eqb_refl].
        -- split; [discriminate|]. intros (p' & apis' & [= <-] & _ & Hx & _).
           congruence.
      * split; [discriminate|]. intros (p' & apis' & [= <-] & Hx & _). congruence.
    + split; [discriminate|]. intros (p' & apis' & [= <-] & Hx & _). congruence.
  - split; [discriminate|]. intros (p' & apis' & Hx & _). discriminate.
Qed.

Lemma userId_truthy (u : option Z) :
  bool_decide (is_Some (userId_or_null u)) = true
  <-> exists n, u = Some n /\ n <> 0%Z.
Proof.
  rewrite bool_decide_eq_true. unfold userId_or_null. destruct u as [n|].
  - destruct (Z.eqb_spec n 0) as [->|Hne].
    + split; [intros [? ?]; discriminate|]. intros (m & [= <-] & H). contradiction.
    + split; [eauto|]. intros _. eauto.
  - split; [intros [? ?]; discriminate|]. intros (m & H & _). discriminate.
Qed.

(** A 200 is answered only behind every gate. *)
Lemma success_behind_gates (e : env) (r : request) :
  status_code (fst (run e r)) = 200%Z ->
  exists api pathParams d,
    findMatchingAPI (apis e) (matched_path r) (matched_method r)
    = Some (api, pathParams)
    /\ ds api = Some d
    /\ ds_status d = "active"
    /\ (require_auth api = 1%Z ->
        (exists n, userId r = Some n /\ n <> 0%Z)
        /\ exists p apis,
             req_tokenPermissions r = Some p /\ tp_type p = Some "categories"
             /\ tp_apis p = Some apis /\ In (id api) apis)
    /\ ValidationService.valid
         (ValidationService.validateAndSanitizeRequest joi_rule joi_throws
            (api_parameters e) (id api) (bag_of r pathParams)) = true.
Proof.
  rewrite handle_status.
  destruct (findMatchingAPI _ _ _) as [[api pathParams]|]; [|discriminate].
  cbv zeta. destruct (ds api) as [d|] eqn:Ed; [|discriminate].
  destruct (String.eqb_spec (ds_status d) "active") as [Ha|]; [|discriminate].
  cbn [negb].
  destruct ((require_auth api =? 1)%Z
            && negb (bool_decide (is_Some (userId_or_null (userId r))))) eqn:E1;
    [discriminate|].
  destruct ((require_auth api =? 1)%Z
            && negb (checkApiPermission (req_tokenPermissions r) api)) eqn:E2;
    [discriminate|].
  destruct (ValidationService.valid _) eqn:Ev; [|discriminate]. intros _.
  exists api, pathParams, d. split; [reflexivity|]. split; [exact Ed|].
  split; [exact Ha|]. split; [|first [exact Ev|reflexivity]].
  intros Hreq. rewrite Hreq in E1, E2. simpl in E1, E2.
  apply negb_false_iff in E1, E2. split.
  - apply userId_truthy, E1.
  - apply checkApiPermission_true, E2.
Qed.

(** Which gate answers. *)
Lemma rejection_codes (e : env) (r : request) :
  (status_code (fst (run e r)) = 404%Z
   <-> findMatchingAPI (apis e) (matched_path r) (matched_method r) = None)
  /\ forall api pathParams,
       findMatchingAPI (apis e) (matched_path r) (matched_method r)
       = Some (api, pathParams) ->
       let active := match ds api with
                     | Some d => String.eqb (ds_status d) "active"
                     | None => false
                     end in
       let authenticated := bool_decide (is_Some (userId_or_null (userId r))) in
       let permitted := checkApiPermission (req_tokenPermissions r) api in
       (status_code (fst (run e r)) = 503%Z <-> active = false)
       /\ (status_code (fst (run e r)) = 401%Z
           <-> active = true /\ require_auth api = 1%Z /\ authenticated = false)
       /\ (status_code (fst (run e r)) = 403%Z
           <-> active = true /\ require_auth api = 1%Z /\ authenticated = true
               /\ permitted = false).
Proof.
  rewrite handle_status. split.
  - destruct (findMatchingAPI _ _ _) as [[api pathParams]|]; [|tauto].
    split; [|discriminate]. cbv zeta.
    repeat match goal with
           | |- context [match ?x with _ => _ end] => destruct x
           end; discriminate.
  - intros api pathParams ->. cbv zeta.
    destruct (ds api) as [d|].
    + destruct (String.eqb (ds_status d) "active"); cbn [negb].
      * destruct (Z.eqb_spec (require_auth api) 1) as [Hr|Hr]; cbn [andb].
        -- destruct (bool_decide _); cbn [negb].
           ++ destruct (checkApiPermission _ _); cbn [negb].
              ** repeat match goal with
                        | |- context [match ?x with _ => _ end] => destruct x
                        end;
                   (split; [split; [discriminate|discriminate]|]);
                   (split; (split; [discriminate|intros H; decompose [and] H; discriminate])).
              ** split; [split; discriminate|].
                 split; [split; [discriminate|intros H; decompose [and] H; discriminate]|].
                 split; auto.
           ++ split; [split; discriminate|].
              split; [split; auto|].
              split; [discriminate|intros H; decompose [and] H; discriminate].
        -- repeat match goal with
                  | |- context [match ?x with _ => _ end] => destruct x
                  end;
             (split; [split; [discriminate|discriminate]|]);
             (split; (split; [discriminate|intros H; decompose [and] H; contradiction])).
      * split; [split; auto|].
        split; (split; [discriminate|intros H; decompose [and] H; discriminate]).
    + split; [split; auto|].
      split; (split; [discriminate|intros H; decompose [and] H; discriminate]).
Qed.

End GateFacts.

(** X11: the route answers 200 only behind every gate: an endpoint matched,
    its datasource active, and, when the endpoint requires authentication, a
    user id that is not zero and a token scope of type [categories] whose
    list holds the id of the endpoint, and a bag that passed validation. *)
Theorem success_only_behind_every_gate
    (joi_rule : ValidationService.APIParameter -> Js.jsval -> list string)
    (joi_throws : list ValidationService.APIParameter -> Js.obj Js.jsval -> bool)
    (replace_regexp : string -> string -> string -> string + string)
    (executeQuery :
       string -> string -> list Js.jsval -> string -> string + list (Js.obj Js.jsval))
    (e : Execute.env) (r : Execute.request) :
  Execute.status_code
    (fst (Execute.handle joi_rule joi_throws replace_regexp executeQuery e r))
  = 200%Z ->
  exists api pathParams d,
    Execute.findMatchingAPI (Execute.apis e) (Execute.matched_path r)
      (Execute.matched_method r) = Some (api, pathParams)
    /\ Execute.ds api = Some d
    /\ Execute.ds_status d = "active"
    /\ (Execute.require_auth api = 1%Z ->
        (exists n, Execute.userId r = Some n /\ n <> 0%Z)
        /\ exists p apis,
             Execute.req_tokenPermissions r = Some p
             /\ Execute.tp_type p = Some "categories"
             /\ Execute.tp_apis p = Some apis
             /\ In (Execute.id api) apis)
    /\ ValidationService.valid
         (ValidationService.validateAndSanitizeRequest joi_rule joi_throws
            (Execute.api_parameters e) (Execute.id api)
            (Execute.bag_of r pathParams)) = true.
Proof. apply success_behind_gates. Qed.

Lemma success_only_behind_every_gate_witness :
  exists api pathParams d,
    Execute.findMatchingAPI (Execute.apis Examples.orders_store)
      (Execute.matched_path Examples.authorised_request)
      (Execute.matched_method Examples.authorised_request) = Some (api, pathParams)
    /\ Execute.ds api = Some d
    /\ Execute.ds_status d = "active"
    /\ (Execute.require_auth api = 1%Z ->
        (exists n, Execute.userId Examples.authorised_request = Some n /\ n <> 0%Z)
        /\ exists p apis,
             Execute.req_tokenPermissions Examples.authorised_request = Some p
             /\ Execute.tp_type p = Some "categories"
             /\ Execute.tp_apis p = Some apis
             /\ In (Execute.id api) apis)
    /\ ValidationService.valid
         (ValidationService.validateAndSanitizeRequest Examples.lenient
            Examples.never_throws (Execute.api_parameters Examples.orders_store)
            (Execute.id api)
            (Execute.bag_of Examples.authorised_request pathParams)) = true.
Proof.
  apply (success_only_behind_every_gate Examples.lenient Examples.never_throws
           Examples.no_regexp Examples.no_rows Examples.orders_store
           Examples.authorised_request).
  reflexivity.
Defined.

(** X12: which gate answers. The route answers 404 exactly when no endpoint
    matches. For a matched endpoint it answers 503 exactly when the
    datasource is missing or not active, whatever the credentials; 401
    exactly when the datasource is active, the endpoint requires
    authentication and the request has no user id (or the id 0); and 403
    exactly when the user is known but the token scope does not list the
    endpoint. *)
Theorem rejection_code_by_gate
    (joi_rule : ValidationService.APIParameter -> Js.jsval -> list string)
    (joi_throws : list ValidationService.APIParameter -> Js.obj Js.jsval -> bool)
    (replace_regexp : string -> string -> string -> string + string)
    (executeQuery :
       string -> string -> list Js.jsval -> string -> string + list (Js.obj Js.jsval))
    (e : Execute.env) (r : Execute.request) :
  let code := Execute.status_code
                (fst (Execute.handle joi_rule joi_throws replace_regexp
                        executeQuery e r)) in
  (code = 404%Z
   <-> Execute.findMatchingAPI (Execute.apis e) (Execute.matched_path r)
         (Execute.matched_method r) = None)
  /\ forall api pathParams,
       Execute.findMatchingAPI (Execute.apis e) (Execute.matched_path r)
         (Execute.matched_method r) = Some (api, pathParams) ->
       let active := match Execute.ds api with
                     | Some d => String.eqb (Execute.ds_status d) "active"
                     | None => false
                     end in
       let authenticated :=
         bool_decide (is_Some (Execute.userId_or_null (Execute.userId r))) in
       let permitted :=
         Execute.checkApiPermission (Execute.req_tokenPermissions r) api in
       (code = 503%Z <-> active = false)
       /\ (code = 401%Z
           <-> active = true /\ Execute.require_auth api = 1%Z
               /\ authenticated = false)
       /\ (code = 403%Z
           <-> active = true /\ Execute.require_auth api = 1%Z
               /\ authenticated = true /\ permitted = false).
Proof. apply rejection_codes. Qed.

Lemma rejection_code_by_gate_witness :
  (Execute.status_code
     (fst (Execute.handle Examples.lenient Examples.never_throws Examples.no_regexp
             Examples.no_rows Examples.orders_store Examples.anonymous_request))
   = 503%Z <-> true = false)
  /\ (Execute.status_code
        (fst (Execute.handle Examples.lenient Examples.never_throws
                Examples.no_regexp Examples.no_rows Examples.orders_store
                Examples.anonymous_request)) = 401%Z
      <-> true = true /\ 1%Z = 1%Z /\ false = false)
  /\ (Execute.status_code
        (fst (Execute.handle Examples.lenient Examples.never_throws
                Examples.no_regexp Examples.no_rows Examples.orders_store
                Examples.anonymous_request)) = 403%Z
      <-> true = true /\ 1%Z = 1%Z /\ false = true /\ false = false).
Proof.
  apply (proj2 (rejection_code_by_gate Examples.lenient Examples.never_throws
                  Examples.no_regexp Examples.no_rows Examples.orders_store
                  Examples.anonymous_request) Examples.orders_by_state []).
  reflexivity.
Defined.

(** ** What a run leaves in the store *)

Section StoreFacts.
Import Js Execute.

Variable joi_rule : ValidationService.APIParameter -> jsval -> list string.
Variable joi_throws : list ValidationService.APIParameter -> obj jsval -> bool.
Variable replace_regexp : string -> string -> string -> string + string.
Variable executeQuery :
  string -> string -> list jsval -> string -> string + list (obj jsval).

Let run := handle joi_rule joi_throws replace_regexp executeQuery.

(** The writes of a run: none, or one log entry that carries the status of
    the response, followed by one upsert for the endpoint of the entry. *)
Lemma handle_effects (e : env) (r : request) :
  snd (run e r) = []
  \/ exists entry,
       response_status entry = status_code (fst (run e r))
       /\ created_at entry = now e
       /\ ((status_code (fst (run e r)) = 200%Z
            /\ log_status entry = "success"
            /\ execution_time entry = elapsed e
            /\ error_message entry = None
            /\ snd (run e r)
               = [InsertAccessLog entry;
                  UpsertSuccess (log_api_id entry) (elapsed e) (now e)
                                (today_of (now e))])
           \/ (status_code (fst (run e r)) <> 200%Z
               /\ log_status entry = "failure"
               /\ execution_time entry = 0%Z
               /\ snd (run e r)
                  = [InsertAccessLog entry;
                     UpsertFailure (log_api_id entry) (now e) (today_of (now e))])).
Proof.
  assert (Hfail : forall api_id user params code err msg details,
             code <> 200%Z ->
             exists entry,
               response_status entry = status_code (Failed code msg details)
               /\ created_at entry = now e
               /\ ((status_code (Failed code msg details) = 200%Z
                    /\ log_status entry = "success"
                    /\ execution_time entry = elapsed e
                    /\ error_message entry = None
                    /\ record_failure e api_id user r params code err
                       = [InsertAccessLog entry;
                          UpsertSuccess (log_api_id entry) (elapsed e) (now e)
                                        (today_of (now e))])
                   \/ (status_code (Failed code msg details) <> 200%Z
                       /\ log_status entry = "failure"
                       /\ execution_time entry = 0%Z
                       /\ record_failure e api_id user r params code err
                          = [InsertAccessLog entry;
                             UpsertFailure (log_api_id entry) (now e)
                                           (today_of (now e))]))).
  { intros api_id user params code err msg details Hc.
    exists (failure_log e api_id user r params code err).
    split; [reflexivity|]. split; [reflexivity|]. right. auto. }
  assert (Herr : forall params message,
             snd (on_error e r params message) = []
             \/ exists entry,
                  response_status entry = status_code (fst (on_error e r params message))
                  /\ created_at entry = now e
                  /\ ((status_code (fst (on_error e r params message)) = 200%Z
                       /\ log_status entry = "success"
                       /\ execution_time entry = elapsed e
                       /\ error_message entry = None
                       /\ snd (on_error e r params message)
                          = [InsertAccessLog entry;
                             UpsertSuccess (log_api_id entry) (elapsed e) (now e)
                                           (today_of (now e))])
                      \/ (status_code (fst (on_error e r params message)) <> 200%Z
                          /\ log_status entry = "failure"
                          /\ execution_time entry = 0%Z
                          /\ snd (on_error e r params message)
                             = [InsertAccessLog entry;
                                UpsertFailure (log_api_id entry) (now e)
                                              (today_of (now e))]))).
  { intros params message. unfold on_error. cbn [fst snd].
    destruct (error_lookup e r params) as [|a l]; [left; reflexivity|right].
    eexists (failure_log e (id a) _ r _ 500 _).
    split; [reflexivity|]. split; [reflexivity|]. right.
    split; [discriminate|]. split; [reflexivity|]. split; reflexivity. }
  unfold run, handle.
  destruct (findMatchingAPI _ _ _) as [[api pathParams]|]; [|left; reflexivity].
  cbv zeta. destruct (ds api) as [d|];
    [|right; apply Hfail; discriminate].
  destruct (negb (String.eqb (ds_status d) "active"));
    [right; apply Hfail; discriminate|].
  destruct (_ && negb (bool_decide _)); [right; apply Hfail; discriminate|].
  destruct (_ && negb (checkApiPermission _ _));
    [right; apply Hfail; discriminate|].
  destruct (negb (ValidationService.valid _));
    [right; apply Hfail; discriminate|].
  destruct (Render.render _ _ _) as [message|st]; [apply Herr|].
  destruct (executeQuery _ _ _ _) as [message|results]; [apply Herr|].
  right. cbn [fst snd status_code].
  match goal with
  | |- context [InsertAccessLog ?x] => exists x
  end.
  split; [reflexivity|]. split; [reflexivity|]. left. repeat split; reflexivity.
Qed.

(** Both upserts keep the calls of a row the sum of its successes and its
    failures. *)
Lemma apply_effect_balanced (s : store) (w : effect) :
  (forall k row, api_call_stats s !! k = Some row ->
     Stats.call_count row = (Stats.success_count row + Stats.failure_count row)%Z) ->
  forall k row, api_call_stats (apply_effect s w) !! k = Some row ->
    Stats.call_count row = (Stats.success_count row + Stats.failure_count row)%Z.
Proof.
  intros H k row. destruct w as [entry|a now today|a x now today]; simpl.
  - apply H.
  - unfold Stats.upsert_failure.
    destruct (api_call_stats s !! (a, today)) as [r0|] eqn:E;
      (destruct (decide (k = (a, today))) as [->|Hne];
       [rewrite lookup_insert_eq|rewrite lookup_insert_ne by congruence; apply H]);
      intros [= <-]; simpl; [|reflexivity].
    rewrite (H _ _ E). lia.
  - unfold Stats.upsert_success.
    destruct (api_call_stats s !! (a, today)) as [r0|] eqn:E;
      (destruct (decide (k = (a, today))) as [->|Hne];
       [rewrite lookup_insert_eq|rewrite lookup_insert_ne by congruence; apply H]);
      intros [= <-]; simpl; [|reflexivity].
    rewrite (H _ _ E). lia.
Qed.

Lemma apply_effects_balanced (ws : list effect) (s : store) :
  (forall k row, api_call_stats s !! k = Some row ->
     Stats.call_count row = (Stats.success_count row + Stats.failure_count row)%Z) ->
  forall k row, api_call_stats (apply_effects s ws) !! k = Some row ->
    Stats.call_count row = (Stats.success_count row + Stats.failure_count row)%Z.
Proof.
  revert s. induction ws as [|w ws IH]; intros s H; [exact H|].
  apply IH, apply_effect_balanced, H.
Qed.

End StoreFacts.

(** X13: the route writes at most one access-log entry per request, after
    the entries the store holds. The entry carries the status code of the
    response and the time of the call; it is marked [success], with the
    measured execution time, exactly when the response is a 200, and
    [failure], with execution time 0, otherwise. *)
Theorem access_log_matches_response
    (joi_rule : ValidationService.APIParameter -> Js.jsval -> list string)
    (joi_throws : list ValidationService.APIParameter -> Js.obj Js.jsval -> bool)
    (replace_regexp : string -> string -> string -> string + string)
    (executeQuery :
       string -> string -> list Js.jsval -> string -> string + list (Js.obj Js.jsval))
    (e : Execute.env) (r : Execute.request) (s : Execute.store) :
  let out := Execute.handle joi_rule joi_throws replace_regexp executeQuery e r in
  let code := Execute.status_code (fst out) in
  Execute.api_access_logs (Execute.apply_effects s (snd out))
  = Execute.api_access_logs s
  \/ exists entry,
       Execute.api_access_logs (Execute.apply_effects s (snd out))
       = Execute.api_access_logs s ++ [entry]
       /\ Execute.response_status entry = code
       /\ Execute.created_at entry = Execute.now e
       /\ Execute.log_status entry = (if (code =? 200)%Z then "success" else "failure")
       /\ Execute.execution_time entry
          = (if (code =? 200)%Z then Execute.elapsed e else 0%Z).
Proof.
  intros out code. subst out code.
  destruct (handle_effects joi_rule joi_throws replace_regexp executeQuery e r)
    as [H|(entry & Hs & Hc & [(H200 & Hl & Ht & _ & Hw)|(Hn & Hl & Ht & Hw)])].
  - left. rewrite H. reflexivity.
  - right. exists entry. rewrite Hw, H200. simpl. rewrite <- H200. auto.
  - right. exists entry. rewrite Hw. simpl.
    apply Z.eqb_neq in Hn. rewrite Hn. auto.
Qed.

(** X14: in every row of the aggregate the calls stay the sum of the
    successes and the failures: a store in which that holds keeps it through
    every run of the route. *)
Theorem call_count_stays_balanced
    (joi_rule : ValidationService.APIParameter -> Js.jsval -> list string)
    (joi_throws : list ValidationService.APIParameter -> Js.obj Js.jsval -> bool)
    (replace_regexp : string -> string -> string -> string + string)
    (executeQuery :
       string -> string -> list Js.jsval -> string -> string + list (Js.obj Js.jsval))
    (e : Execute.env) (r : Execute.request) (s : Execute.store) :
  (forall k row, Execute.api_call_stats s !! k = Some row ->
     Stats.call_count row = (Stats.success_count row + Stats.failure_count row)%Z) ->
  forall k row,
    Execute.api_call_stats
      (Execute.apply_effects s
         (snd (Execute.handle joi_rule joi_throws replace_regexp executeQuery e r)))
    !! k = Some row ->
    Stats.call_count row = (Stats.success_count row + Stats.failure_count row)%Z.
Proof. apply apply_effects_balanced. Qed.

Lemma call_count_stays_balanced_witness :
  Stats.call_count Examples.one_call_one_failure
  = (Stats.success_count Examples.one_call_one_failure
     + Stats.failure_count Examples.one_call_one_failure)%Z.
Proof.
  apply (call_count_stays_balanced Examples.lenient Examples.never_throws
           Examples.no_regexp Examples.driver_fails Examples.two_endpoints
           (Examples.get_request "users/me") Examples.store_after_one_call)
    with (k := (8%Z, "2024-01-02")).
  - intros k row H. unfold Examples.store_after_one_call in H. simpl in H.
    apply lookup_singleton_Some in H as [_ <-]. reflexivity.
  - vm_compute. reflexivity.
Defined.

Section FirstCallFacts.
Import Js Execute.

Lemma success_writes
    (joi_rule : ValidationService.APIParameter -> jsval -> list string)
    (joi_throws : list ValidationService.APIParameter -> obj jsval -> bool)
    (replace_regexp : string -> string -> string -> string + string)
    (executeQuery :
       string -> string -> list jsval -> string -> string + list (obj jsval))
    (e : env) (r : request) :
  status_code (fst (handle joi_rule joi_throws replace_regexp executeQuery e r))
  = 200%Z ->
  exists api pathParams entry,
    findMatchingAPI (apis e) (matched_path r) (matched_method r)
    = Some (api, pathParams)
    /\ snd (handle joi_rule joi_throws replace_regexp executeQuery e r)
       = [InsertAccessLog entry;
          UpsertSuccess (id api) (elapsed e) (now e) (today_of (now e))].
Proof.
  intros H.
  destruct (handle_cases joi_rule joi_throws replace_regexp executeQuery e r)
    as [[Hf Hr]|(api & pathParams & Hf & Hc)].
  - rewrite Hr in H. discriminate.
  - cbv zeta in Hc.
    destruct Hc as [(code & msg & user & err & Hcode & Hr)
                   |[(Hv & user & errs & Hr)
                    |[(Hv & message & Hr)|(Hv & results & entry & Hr)]]];
      rewrite Hr in H.
    + simpl in H. decompose [or] Hcode; subst; discriminate.
    + discriminate.
    + destruct (on_error_writes e r (params_of r pathParams) message) as [Hs _].
      rewrite Hs in H. discriminate.
    + exists api, pathParams, entry. rewrite Hr. auto.
Qed.

End FirstCallFacts.

(** X15: a successful request that finds no row for its endpoint and the
    day creates the row with one call, one success, no failure and the
    measured execution time as the average; every other row of the
    aggregate is left as it is. *)
Theorem first_success_of_the_day
    (joi_rule : ValidationService.APIParameter -> Js.jsval -> list string)
    (joi_throws : list ValidationService.APIParameter -> Js.obj Js.jsval -> bool)
    (replace_regexp : string -> string -> string -> string + string)
    (executeQuery :
       string -> string -> list Js.jsval -> string -> string + list (Js.obj Js.jsval))
    (e : Execute.env) (r : Execute.request) (s : Execute.store) :
  let out := Execute.handle joi_rule joi_throws replace_regexp executeQuery e r in
  Execute.status_code (fst out) = 200%Z ->
  exists api pathParams,
    Execute.findMatchingAPI (Execute.apis e) (Execute.matched_path r)
      (Execute.matched_method r) = Some (api, pathParams)
    /\ (Execute.api_call_stats s
          !! (Execute.id api, Execute.today_of (Execute.now e)) = None ->
        Execute.api_call_stats (Execute.apply_effects s (snd out))
          !! (Execute.id api, Execute.today_of (Execute.now e))
        = Some {| Stats.call_count := 1; Stats.success_count := 1;
                  Stats.failure_count := 0;
                  Stats.avg_response_time := Some (inject_Z (Execute.elapsed e));
                  Stats.last_called_at := Execute.now e |})
    /\ forall k,
         k <> (Execute.id api, Execute.today_of (Execute.now e)) ->
         Execute.api_call_stats (Execute.apply_effects s (snd out)) !! k
         = Execute.api_call_stats s !! k.
Proof.
  intros out H. subst out.
  destruct (success_writes _ _ _ _ _ _ H) as (api & pathParams & entry & Hf & Hw).
  exists api, pathParams. split; [exact Hf|]. rewrite Hw. simpl. split.
  - intros Hnone. apply upsert_success_fresh, Hnone.
  - intros k Hk. unfold Stats.upsert_success.
    destruct (_ !! (Execute.id api, _)); apply lookup_insert_ne; congruence.
Qed.

Lemma first_success_of_the_day_witness :
  exists api pathParams,
    Execute.findMatchingAPI (Execute.apis Examples.two_endpoints)
      (Execute.matched_path (Examples.get_request "users/42"))
      (Execute.matched_method (Examples.get_request "users/42"))
    = Some (api, pathParams)
    /\ (Execute.api_call_stats Examples.store_after_one_call
          !! (Execute.id api, Execute.today_of (Execute.now Examples.two_endpoints))
        = None ->
        Execute.api_call_stats
          (Execute.apply_effects Examples.store_after_one_call
             (snd (Execute.handle Examples.lenient Examples.never_throws
                     Examples.no_regexp Examples.no_rows Examples.two_endpoints
                     (Examples.get_request "users/42"))))
          !! (Execute.id api, Execute.today_of (Execute.now Examples.two_endpoints))
        = Some {| Stats.call_count := 1; Stats.success_count := 1;
                  Stats.failure_count := 0;
                  Stats.avg_response_time :=
                    Some (inject_Z (Execute.elapsed Examples.two_endpoints));
                  Stats.last_called_at := Execute.now Examples.two_endpoints |})
    /\ forall k,
         k <> (Execute.id api, Execute.today_of (Execute.now Examples.two_endpoints)) ->
         Execute.api_call_stats
           (Execute.apply_effects Examples.store_after_one_call
              (snd (Execute.handle Examples.lenient Examples.never_throws
                      Examples.no_regexp Examples.no_rows Examples.two_endpoints
                      (Examples.get_request "users/42")))) !! k
         = Execute.api_call_stats Examples.store_after_one_call !! k.
Proof.
  apply (first_success_of_the_day Examples.lenient Examples.never_throws
           Examples.no_regexp Examples.no_rows Examples.two_endpoints
           (Examples.get_request "users/42") Examples.store_after_one_call).
  reflexivity.
Defined.

(** ** Slashes in the request path *)

Section SlashFacts.
Import JsString Execute.

Lemma split_cons (c : ascii) (a : string) :
  exists h t, split c a = h :: t.
Proof.
  induction a as [|x a (h & t & IH)]; cbn [split]; [eauto|].
  rewrite IH. destruct (Ascii.eqb x c); eauto.
Qed.

Lemma split_app (c : ascii) (a b : string) :
  split c (a +:+ String c b) = split c a ++ split c b.
Proof.
  induction a as [|x a IH].
  - change ("" +:+ String c b) with (String c b). cbn [split].
    rewrite Ascii.eqb_refl. reflexivity.
  - rewrite append_cons. cbn [split]. rewrite IH.
    destruct (Ascii.eqb x c); [reflexivity|].
    destruct (split_cons c a) as (h & t & ->). reflexivity.
Qed.

Lemma segments_app (a b : string) :
  segments (a +:+ String "/" b) = segments a ++ segments b.
Proof. unfold segments. rewrite split_app. apply List.filter_app. Qed.

Lemma findMatchingAPI_segments (table : list api_row) (p1 p2 m : string) :
  segments p1 = segments p2 ->
  findMatchingAPI table p1 m = findMatchingAPI table p2 m.
Proof. intros H. unfold findMatchingAPI. rewrite H. reflexivity. Qed.

Lemma slashes_ignored (table : list api_row) (a b m : string) :
  findMatchingAPI table (a +:+ "/") m = findMatchingAPI table a m
  /\ findMatchingAPI table ("/" +:+ a) m = findMatchingAPI table a m
  /\ findMatchingAPI table (a +:+ "//" +:+ b) m
     = findMatchingAPI table (a +:+ "/" +:+ b) m.
Proof.
  split; [|split]; apply findMatchingAPI_segments.
  - rewrite (segments_app a ""). apply List.app_nil_r.
  - apply (segments_app "" a).
  - change (a +:+ "//" +:+ b) with (a +:+ String "/" ("" +:+ String "/" b)).
    change (a +:+ "/" +:+ b) with (a +:+ String "/" b).
    rewrite !segments_app. reflexivity.
Qed.

End SlashFacts.

(** X16: route matching reads the request path by its non-empty segments
    only: a slash at the end or at the front, or a doubled slash, changes
    neither the endpoint that is found nor its bindings. *)
Theorem findMatchingAPI_ignores_extra_slashes
    (table : list Execute.api_row) (a b m : string) :
  Execute.findMatchingAPI table (a +:+ "/") m = Execute.findMatchingAPI table a m
  /\ Execute.findMatchingAPI table ("/" +:+ a) m = Execute.findMatchingAPI table a m
  /\ Execute.findMatchingAPI table (a +:+ "//" +:+ b) m
     = Execute.findMatchingAPI table (a +:+ "/" +:+ b) m.
Proof. apply slashes_ignored. Qed.

(** ** The test route and the execution route *)

Section TestRouteFacts.
Import Js Render.
Variable replace_regexp : string -> string -> string -> string + string.

Lemma test_entry_agrees (st : state) (key : string) (value : jsval) :
  TestRoute.special_key key = false ->
  TestRoute.render_entry replace_regexp st (key, value)
  = render_entry replace_regexp st (key, value).
Proof.
  unfold TestRoute.special_key. intros H. apply orb_false_elim in H as [Hs Hd].
  unfold TestRoute.render_entry, render_entry. rewrite Hs, Hd. reflexivity.
Qed.

Lemma test_loop_agrees (entries : list (string * jsval)) (st : state) :
  List.forallb (fun e => negb (TestRoute.special_key (fst e))) entries = true ->
  TestRoute.render_loop replace_regexp st entries
  = render_loop replace_regexp st entries.
Proof.
  revert st. induction entries as [|[key value] entries IH]; intros st H;
    [reflexivity|].
  cbn [List.forallb fst] in H. apply andb_true_iff in H as [Hk Hrest].
  apply negb_true_iff in Hk.
  cbn [TestRoute.render_loop render_loop]. rewrite (test_entry_agrees _ _ _ Hk).
  destruct (render_entry _ _ _); [reflexivity|]. apply IH, Hrest.
Qed.

End TestRouteFacts.

(** X17: on a bag without the keys [search], [order_by], [order] and
    [limit], the test route renders the statement and the bound values that
    the execution route renders from the same bag. (With one of these keys
    the test route binds the value, where the execution route writes it into
    the statement.) *)
Theorem test_route_renders_like_execution
    (replace_regexp : string -> string -> string -> string + string)
    (sql_template : string) (params : Js.obj Js.jsval) :
  List.forallb (fun e => negb (TestRoute.special_key (fst e))) params = true ->
  TestRoute.render replace_regexp sql_template params
  = Render.render replace_regexp sql_template params.
Proof. intros H. apply test_loop_agrees, H. Qed.

Lemma test_route_renders_like_execution_witness :
  TestRoute.render Examples.no_regexp "SELECT * FROM users WHERE id = {{id}}"
    [("id", Js.JStr "42")]
  = Render.render Examples.no_regexp "SELECT * FROM users WHERE id = {{id}}"
      [("id", Js.JStr "42")].
Proof.
  apply (test_route_renders_like_execution Examples.no_regexp
           "SELECT * FROM users WHERE id = {{id}}" [("id", Js.JStr "42")]).
  reflexivity.
Defined.

(** ** The drafts generated from a table *)

Section GeneratorFacts.
Import JsString SQLParameterExtractor SchemaIntrospector.

Lemma append_inj_l (p a b : string) : p +:+ a = p +:+ b -> a = b.
Proof.
  induction p as [|c p IH]; intros H; [exact H|].
  rewrite !append_cons in H. injection H as H. apply IH, H.
Qed.

Lemma append_neq_l (p a : string) : a <> "" -> p +:+ a <> p.
Proof.
  intros Ha H. apply Ha. apply (append_inj_l p).
  rewrite append_empty_r. exact H.
Qed.

Lemma route_keys_with_key (t : TableInfo) (apiName apiPath : option string)
    (pk : ColumnInfo) :
  APIGenerator.primaryKey_of (columns t) = Some pk ->
  List.map APIGenerator.route_key (APIGenerator.generateFullCRUDAPIs t apiName apiPath)
  = let p := APIGenerator.path_or_default apiPath (table_name t) in
    [ (p +:+ "/:id", "GET"); (p, "POST"); (p +:+ "/:id", "PUT");
      (p +:+ "/:id", "DELETE"); (p, "GET"); (p +:+ "/search", "GET");
      (p +:+ "/count", "GET") ].
Proof.
  intros Hpk.
  unfold APIGenerator.generateFullCRUDAPIs, APIGenerator.generateAPIsFromTable,
    APIGenerator.generateGetAPI, APIGenerator.generatePutAPI,
    APIGenerator.generateDeleteAPI.
  rewrite Hpk. reflexivity.
Qed.

Lemma route_keys_without_key (t : TableInfo) (apiName apiPath : option string) :
  APIGenerator.primaryKey_of (columns t) = None ->
  List.map APIGenerator.route_key (APIGenerator.generateFullCRUDAPIs t apiName apiPath)
  = let p := APIGenerator.path_or_default apiPath (table_name t) in
    [ (p, "GET"); (p, "POST"); (p, "GET"); (p +:+ "/search", "GET");
      (p +:+ "/count", "GET") ].
Proof.
  intros Hpk.
  unfold APIGenerator.generateFullCRUDAPIs, APIGenerator.generateAPIsFromTable,
    APIGenerator.generateGetAPI, APIGenerator.generatePutAPI,
    APIGenerator.generateDeleteAPI.
  rewrite Hpk. reflexivity.
Qed.

Lemma drafts_distinct_iff (t : TableInfo) (apiName apiPath : option string) :
  List.NoDup
    (List.map APIGenerator.route_key
       (APIGenerator.generateFullCRUDAPIs t apiName apiPath))
  <-> APIGenerator.primaryKey_of (columns t) <> None.
Proof.
  destruct (APIGenerator.primaryKey_of (columns t)) as [pk|] eqn:Hpk.
  - split; [discriminate|]. intros _.
    rewrite (route_keys_with_key t apiName apiPath pk Hpk). cbv zeta.
    set (p := APIGenerator.path_or_default apiPath (table_name t)).
    assert (Hid : p +:+ "/:id" <> p) by (apply append_neq_l; discriminate).
    assert (Hse : p +:+ "/search" <> p) by (apply append_neq_l; discriminate).
    assert (Hco : p +:+ "/count" <> p) by (apply append_neq_l; discriminate).
    assert (H1 : p +:+ "/:id" <> p +:+ "/search")
      by (intros H; apply append_inj_l in H; discriminate).
    assert (H2 : p +:+ "/:id" <> p +:+ "/count")
      by (intros H; apply append_inj_l in H; discriminate).
    assert (H3 : p +:+ "/search" <> p +:+ "/count")
      by (intros H; apply append_inj_l in H; discriminate).
    repeat (apply List.NoDup_cons;
            [cbn [In]; intros Hin;
             repeat (destruct Hin as [Hin|Hin]; [congruence|]);
             exact Hin|]).
    apply List.NoDup_nil.
  - split; [|intros H; contradiction].
    rewrite (route_keys_without_key t apiName apiPath Hpk). cbv zeta.
    intros H _. inversion H as [|x l Hnot _]. apply Hnot. right. left. reflexivity.
Qed.

End GeneratorFacts.

(** X18: the drafts of [generateFullCRUDAPIs] have pairwise distinct
    (path, verb) pairs exactly when the table has a primary key column.
    Without one, the list draft and the paginated list draft are both GET
    on the base path. *)
Theorem drafts_distinct_iff_primary_key
    (t : SchemaIntrospector.TableInfo) (apiName apiPath : option string) :
  List.NoDup
    (List.map APIGenerator.route_key
       (APIGenerator.generateFullCRUDAPIs t apiName apiPath))
  <-> APIGenerator.primaryKey_of (SchemaIntrospector.columns t) <> None.
Proof. apply drafts_distinct_iff. Qed.

(** ** Declared parameters and placeholders of the drafts *)

Section DraftPlaceholders.
Import JsString SQLParameterExtractor SchemaIntrospector.

Lemma includes_app_r (p a s : string) :
  includes p s = true -> includes p (a +:+ s) = true.
Proof.
  intros H. induction a as [|c a IH]; [exact H|].
  rewrite append_cons. apply includes_tail, IH.
Qed.

Lemma startsWith_app_l (p s b : string) :
  startsWith p s = true -> startsWith p (s +:+ b) = true.
Proof.
  revert s. induction p as [|c p IH]; intros s H; [reflexivity|].
  destruct s as [|d s]; [discriminate|]. rewrite append_cons.
  cbn [startsWith] in *. apply andb_true_iff in H as [H1 H2].
  rewrite H1. apply IH, H2.
Qed.

Lemma includes_app_l (p s b : string) :
  includes p s = true -> includes p (s +:+ b) = true.
Proof.
  induction s as [|c s IH]; intros H.
  - cbn [includes] in H. rewrite orb_false_r in H.
    apply includes_head. apply (startsWith_app_l p "" b H).
  - cbn [includes] in H. apply orb_true_iff in H as [H|H].
    + apply includes_head. apply startsWith_app_l, H.
    + rewrite append_cons. apply includes_tail, IH, H.
Qed.

Lemma includes_middle (p a b : string) : includes p (a +:+ p +:+ b) = true.
Proof. apply includes_app_r, includes_head, startsWith_refl_app. Qed.

Lemma includes_self (p : string) : includes p p = true.
Proof.
  rewrite <- (append_empty_r p) at 2. apply includes_head, startsWith_refl_app.
Qed.

Lemma includes_join (sep p : string) (parts : list string) :
  (exists x, In x parts /\ includes p x = true) ->
  includes p (APIGenerator.join sep parts) = true.
Proof.
  intros (x & Hin & Hp). induction parts as [|y parts IH]; [destruct Hin|].
  destruct parts as [|z parts].
  - destruct Hin as [->|[]]. exact Hp.
  - change (APIGenerator.join sep (y :: z :: parts))
      with (y +:+ sep +:+ APIGenerator.join sep (z :: parts)).
    destruct Hin as [->|Hin].
    + apply includes_app_l, Hp.
    + apply includes_app_r, includes_app_r, IH, Hin.
Qed.

Lemma includes_join_map (sep p : string) (f : ColumnInfo -> string)
    (cols : list ColumnInfo) (col : ColumnInfo) :
  In col cols -> includes p (f col) = true ->
  includes p (APIGenerator.join sep (List.map f cols)) = true.
Proof.
  intros Hin Hp. apply includes_join. exists (f col). split; [|exact Hp].
  apply List.in_map, Hin.
Qed.

Lemma post_placeholders (name path tableName : string) (cols : list ColumnInfo)
    (q : APIGenerator.GeneratedParameter) :
  In q (APIGenerator.parameters (APIGenerator.generatePostAPI name path tableName cols)) ->
  includes ("{{" +:+ APIGenerator.param_name q +:+ "}}")
    (APIGenerator.sql_template (APIGenerator.generatePostAPI name path tableName cols))
  = true.
Proof.
  cbn [APIGenerator.generatePostAPI APIGenerator.parameters APIGenerator.sql_template].
  intros Hq. apply List.in_map_iff in Hq as (col & <- & Hcol).
  cbn [APIGenerator.param_name].
  do 5 apply includes_app_r. apply includes_app_l.
  apply (includes_join_map _ _ _ _ col Hcol). apply includes_self.
Qed.

Lemma put_placeholders (name path tableName : string) (cols : list ColumnInfo)
    (pk : option ColumnInfo) (d : APIGenerator.GeneratedAPI)
    (q : APIGenerator.GeneratedParameter) :
  APIGenerator.generatePutAPI name path tableName cols pk = Some d ->
  In q (APIGenerator.parameters d) ->
  includes ("{{" +:+ APIGenerator.param_name q +:+ "}}")
    (APIGenerator.sql_template d) = true.
Proof.
  destruct pk as [pk|]; [|discriminate]. intros [= <-].
  cbn [APIGenerator.parameters APIGenerator.sql_template].
  intros [<-|Hq]; cbn [APIGenerator.param_name].
  - do 6 apply includes_app_r.
    change (" = {{" +:+ col_name pk +:+ "}}")
      with (" = " +:+ "{{" +:+ col_name pk +:+ "}}").
    apply includes_app_r, includes_self.
  - apply List.in_map_iff in Hq as (col & <- & Hcol).
    cbn [APIGenerator.param_name].
    do 3 apply includes_app_r. apply includes_app_l.
    apply (includes_join_map _ _ _ _ col Hcol).
    unfold APIGenerator.assignment_of.
    apply includes_app_r.
    change (" = {{" +:+ col_name col +:+ "}}")
      with (" = " +:+ "{{" +:+ col_name col +:+ "}}").
    apply includes_app_r, includes_self.
Qed.

Lemma delete_placeholders (name path tableName : string)
    (pk : option ColumnInfo) (d : APIGenerator.GeneratedAPI)
    (q : APIGenerator.GeneratedParameter) :
  APIGenerator.generateDeleteAPI name path tableName pk = Some d ->
  In q (APIGenerator.parameters d) ->
  includes ("{{" +:+ APIGenerator.param_name q +:+ "}}")
    (APIGenerator.sql_template d) = true.
Proof.
  destruct pk as [pk|]; [|discriminate]. intros [= <-].
  cbn [APIGenerator.parameters APIGenerator.sql_template].
  intros [<-|[]]; cbn [APIGenerator.param_name].
  do 4 apply includes_app_r.
  change (" = {{" +:+ col_name pk +:+ "}}")
    with (" = " +:+ "{{" +:+ col_name pk +:+ "}}").
  apply includes_app_r, includes_self.
Qed.

Lemma write_drafts_placeholders (t : TableInfo) (apiName apiPath : option string)
    (d : APIGenerator.GeneratedAPI) (q : APIGenerator.GeneratedParameter) :
  let basicAPIs := APIGenerator.generateAPIsFromTable t apiName apiPath in
  APIGenerator.post basicAPIs = Some d
  \/ APIGenerator.put basicAPIs = Some d
  \/ APIGenerator.delete basicAPIs = Some d ->
  In q (APIGenerator.parameters d) ->
  includes ("{{" +:+ APIGenerator.param_name q +:+ "}}")
    (APIGenerator.sql_template d) = true
  /\ (JsString.forallb is_word (APIGenerator.param_name q) = true ->
      truthy (APIGenerator.param_name q) = true ->
      In (APIGenerator.param_name q) (extract_names (APIGenerator.sql_template d))).
Proof.
  intros basicAPIs Hd Hq.
  assert (Hinc : includes ("{{" +:+ APIGenerator.param_name q +:+ "}}")
                   (APIGenerator.sql_template d) = true).
  { subst basicAPIs. cbn [APIGenerator.generateAPIsFromTable APIGenerator.post
      APIGenerator.put APIGenerator.delete] in Hd.
    destruct Hd as [Hd|[Hd|Hd]].
    - injection Hd as <-. apply post_placeholders, Hq.
    - eapply put_placeholders; eauto.
    - eapply delete_placeholders; eauto. }
  split; [exact Hinc|]. intros Hw Hne. apply extract_names_iff. auto.
Qed.

End DraftPlaceholders.

(** X19: in the POST, PUT and DELETE drafts of a table, every declared
    parameter has its placeholder in the statement of the draft; when its
    name is a non-empty run of word characters, the parameter extraction
    finds it there. *)
Theorem write_drafts_declare_their_placeholders
    (t : SchemaIntrospector.TableInfo) (apiName apiPath : option string)
    (d : APIGenerator.GeneratedAPI) (q : APIGenerator.GeneratedParameter) :
  let basicAPIs := APIGenerator.generateAPIsFromTable t apiName apiPath in
  APIGenerator.post basicAPIs = Some d
  \/ APIGenerator.put basicAPIs = Some d
  \/ APIGenerator.delete basicAPIs = Some d ->
  In q (APIGenerator.parameters d) ->
  JsString.includes ("{{" +:+ APIGenerator.param_name q +:+ "}}")
    (APIGenerator.sql_template d) = true
  /\ (JsString.forallb JsString.is_word (APIGenerator.param_name q) = true ->
      JsString.truthy (APIGenerator.param_name q) = true ->
      In (APIGenerator.param_name q)
         (SQLParameterExtractor.extract_names (APIGenerator.sql_template d))).
Proof. apply write_drafts_placeholders. Qed.

Lemma write_drafts_declare_their_placeholders_witness :
  JsString.includes "{{customer}}"
    (APIGenerator.sql_template Examples.orders_post_draft) = true
  /\ In "customer"
       (SQLParameterExtractor.extract_names
          (APIGenerator.sql_template Examples.orders_post_draft)).
Proof.
  destruct (write_drafts_declare_their_placeholders Examples.orders_table
              (Some "Orders") (Some "/api/orders")
              Examples.orders_post_draft Examples.customer_parameter)
    as [H1 H2].
  - left. reflexivity.
  - left. reflexivity.
  - split; [exact H1|]. apply H2; reflexivity.
Defined.

(** ** The default path of a table *)

Section DefaultPathFacts.
Import JsString Execute.





Lemma split_plain (c : ascii) (s : string) :
  JsString.forallb (fun x => negb (Ascii.eqb x c)) s = true -> split c s = [s].
Proof.
  induction s as [|x s IH]; [reflexivity|].
  cbn [JsString.forallb split]. intros H. apply andb_true_iff in H as [Hx Hs].
  apply negb_true_iff in Hx. rewrite Hx, (IH Hs). reflexivity.
Qed.







End DefaultPathFacts.


(** ** The keyed drafts behind the route matching *)

Section KeyedDrafts.
Import JsString SchemaIntrospector Execute.



End KeyedDrafts.



(** ** The validation rules of a column list *)

Section RuleFacts.
Import Js SchemaIntrospector.

Lemma find_snoc {A} (P : A -> bool) (l : list A) (x : A) :
  List.find P (l ++ [x])
  = match List.find P l with
    | Some y => Some y
    | None => if P x then Some x else None
    end.
Proof.
  induction l as [|y l IH]; [reflexivity|].
  cbn [app List.find]. destruct (P y); [reflexivity|exact IH].
Qed.

Lemma rules_loop_get (k : string) (cols : list ColumnInfo) (acc : obj rule) :
  get k (rules_loop acc cols)
  = match List.find (rule_column k) (List.rev cols) with
    | Some col => Some (rule_of col)
    | None => get k acc
    end.
Proof.
  revert acc. induction cols as [|c cols IH]; intros acc; [reflexivity|].
  cbn [rules_loop List.rev]. rewrite find_snoc. unfold rule_column at 2.
  destruct (skipped c); cbn [negb andb]; rewrite IH.
  - destruct (List.find _ _); reflexivity.
  - destruct (List.find _ _); [reflexivity|]. rewrite get_set.
    destruct (String.eqb (col_name c) k); reflexivity.
Qed.

Lemma rules_loop_NoDup (cols : list ColumnInfo) (acc : obj rule) :
  List.NoDup (keys acc) -> List.NoDup (keys (rules_loop acc cols)).
Proof.
  revert acc. induction cols as [|c cols IH]; intros acc H; [exact H|].
  cbn [rules_loop]. destruct (skipped c); apply IH; [exact H|].
  apply keys_set_NoDup, H.
Qed.

Lemma rule_of_maxLength (col : ColumnInfo) :
  rule_maxLength (rule_of col) <> None ->
  rule_type (rule_of col) = "string"
  /\ rule_maxLength (rule_of col) = maxLength col.
Proof.
  unfold rule_of. cbn [rule_maxLength rule_type].
  destruct (truthy_number (maxLength col)); cbn [andb]; [|congruence].
  destruct (String.eqb_spec (mapColumnTypeToJoi (col_type col)) "string") as [E|E];
    [|congruence].
  intros _. split; [exact E|reflexivity].
Qed.

Lemma rules_by_last_column (cols : list ColumnInfo) (k : string) :
  get k (generateValidationRules cols)
  = option_map rule_of (List.find (rule_column k) (List.rev cols))
  /\ List.NoDup (keys (generateValidationRules cols))
  /\ forall r, get k (generateValidationRules cols) = Some r ->
       rule_maxLength r <> None -> rule_type r = "string".
Proof.
  unfold generateValidationRules. split; [|split].
  - rewrite rules_loop_get. destruct (List.find _ _); reflexivity.
  - apply rules_loop_NoDup. constructor.
  - intros r. rewrite rules_loop_get.
    destruct (List.find _ _) as [col|]; [|discriminate].
    intros [= <-] H. apply rule_of_maxLength, H.
Qed.

End RuleFacts.

(** X22: the validation rules of a column list are an object without
    repeated keys, in which the rule under a name is that of the last column
    of this name that is not an auto-increment primary key, and absent when
    there is none; a rule carries a maximal length only when its type is
    [string]. *)
Theorem validation_rules_by_last_column
    (cols : list SchemaIntrospector.ColumnInfo) (k : string) :
  Js.get k (SchemaIntrospector.generateValidationRules cols)
  = option_map SchemaIntrospector.rule_of
      (List.find (SchemaIntrospector.rule_column k) (List.rev cols))
  /\ List.NoDup (Js.keys (SchemaIntrospector.generateValidationRules cols))
  /\ forall r,
       Js.get k (SchemaIntrospector.generateValidationRules cols) = Some r ->
       SchemaIntrospector.rule_maxLength r <> None ->
       SchemaIntrospector.rule_type r = "string".
Proof. apply rules_by_last_column. Qed.

(** ** The address of the caller *)

Section ClientIpFacts.
Import JsString IpHelper.

Lemma split_parts_plain (c : ascii) (s : string) :
  List.Forall (fun x => JsString.forallb (fun a => negb (Ascii.eqb a c)) x = true)
    (split c s).
Proof.
  induction s as [|x s IH]; cbn [split].
  - constructor; [reflexivity|constructor].
  - destruct (Ascii.eqb x c) eqn:E.
    + constructor; [reflexivity|exact IH].
    + destruct (split c s) as [|h t]; constructor.
      * cbn [JsString.forallb]. rewrite E. reflexivity.
      * constructor.
      * cbn [JsString.forallb]. rewrite E. cbn [negb andb].
        inversion IH; assumption.
      * inversion IH; assumption.
Qed.

Lemma forallb_rev_append (P : ascii -> bool) (s acc : string) :
  JsString.forallb P (rev_append s acc)
  = JsString.forallb P s && JsString.forallb P acc.
Proof.
  revert acc. induction s as [|x s IH]; intros acc; [reflexivity|].
  cbn [rev_append JsString.forallb]. rewrite IH. cbn [JsString.forallb].
  destruct (P x), (JsString.forallb P s); reflexivity.
Qed.

Lemma forallb_rev (P : ascii -> bool) (s : string) :
  JsString.forallb P (rev s) = JsString.forallb P s.
Proof. unfold rev. rewrite forallb_rev_append. apply andb_true_r. Qed.

Lemma forallb_trimStart (P : ascii -> bool) (s : string) :
  JsString.forallb P s = true -> JsString.forallb P (trimStart s) = true.
Proof.
  induction s as [|x s IH]; [reflexivity|].
  intros H. cbn [trimStart]. destruct (is_ws x); [|exact H].
  cbn [JsString.forallb] in H. apply andb_true_iff in H as [_ H]. apply IH, H.
Qed.

Lemma forallb_trim (P : ascii -> bool) (s : string) :
  JsString.forallb P s = true -> JsString.forallb P (trim s) = true.
Proof.
  intros H. unfold trim, trimEnd. rewrite forallb_rev.
  apply forallb_trimStart. rewrite forallb_rev. apply forallb_trimStart, H.
Qed.

Lemma includes_char (c : ascii) (s : string) :
  JsString.forallb (fun a => negb (Ascii.eqb a c)) s = true ->
  includes (String c "") s = false.
Proof.
  induction s as [|x s IH]; [reflexivity|].
  cbn [JsString.forallb includes startsWith]. intros H.
  apply andb_true_iff in H as [Hx Hs]. apply negb_true_iff in Hx.
  rewrite Ascii.eqb_sym, Hx, (IH Hs). reflexivity.
Qed.

Lemma forwarded_first_plain (forwarded : string) :
  includes "," (List.hd "" (forwarded_ips forwarded)) = false.
Proof.
  apply includes_char. unfold forwarded_ips.
  pose proof (split_parts_plain "," forwarded) as H.
  destruct (split "," forwarded) as [|h t]; [reflexivity|].
  cbn [List.map List.hd]. apply forallb_trim. inversion H; assumption.
Qed.

Lemma concat_split (c : ascii) (s : string) :
  String.concat (String c "") (split c s) = s.
Proof.
  induction s as [|x s IH]; [reflexivity|].
  cbn [split]. destruct (split_cons c s) as (h & t & E). rewrite E in *.
  destruct (Ascii.eqb_spec x c) as [->|_].
  - change (String.concat (String c "") ("" :: h :: t))
      with (String c (String.concat (String c "") (h :: t))).
    rewrite IH. reflexivity.
  - destruct t as [|h' t].
    + cbn [String.concat] in *. rewrite IH. reflexivity.
    + change (String.concat (String c "") (String x h :: h' :: t))
        with (String x (String.concat (String c "") (h :: h' :: t))).
      rewrite IH. reflexivity.
Qed.

Lemma concat_last_suffix (sep : string) (parts : list string) :
  parts <> [] ->
  exists pre, String.concat sep parts = pre +:+ List.last parts "".
Proof.
  induction parts as [|h t IH]; [congruence|]. intros _.
  destruct t as [|h' t].
  - exists "". reflexivity.
  - destruct IH as [pre Hpre]; [discriminate|].
    exists (h +:+ sep +:+ pre).
    change (String.concat sep (h :: h' :: t))
      with (h +:+ sep +:+ String.concat sep (h' :: t)).
    rewrite Hpre.
    change (List.last (h :: h' :: t) "") with (List.last (h' :: t) "").
    rewrite !append_assoc. reflexivity.
Qed.

Lemma last_Forall {A} (P : A -> Prop) (l : list A) (d : A) :
  l <> [] -> List.Forall P l -> P (List.last l d).
Proof.
  induction l as [|x l IH]; [congruence|]. intros _ H.
  inversion H as [|? ? Hx Hl]; subst. destruct l as [|y l]; [exact Hx|].
  apply IH; [discriminate|exact Hl].
Qed.

Lemma socket_last_part (ip : string) :
  includes ":" (List.last (split ":" ip) "") = false
  /\ exists pre, ip = pre +:+ List.last (split ":" ip) "".
Proof.
  assert (Hne : split ":" ip <> []).
  { destruct (split_cons ":" ip) as (h & t & ->). discriminate. }
  split.
  - apply includes_char.
    apply (last_Forall
             (fun x => JsString.forallb (fun a => negb (Ascii.eqb a ":")) x = true));
      [exact Hne|apply split_parts_plain].
  - destruct (concat_last_suffix ":" _ Hne) as [pre Hpre].
    exists pre. rewrite <- Hpre. symmetry. apply concat_split.
Qed.

Lemma getClientIp_shape (req : Request) :
  (getClientIp req = None <-> x_forwarded_for req = Many [])
  /\ (forall r, getClientIp req = Some r ->
        x_forwarded_for req <> Absent -> includes "," r = false)
  /\ (forall r, getClientIp req = Some r ->
        x_forwarded_for req = Absent ->
        no_string (x_real_ip req) = true ->
        no_string (cf_connecting_ip req) = true ->
        includes ":" r = false
        /\ exists pre,
             or_string (ip req) (or_string (remoteAddress req) "") = pre +:+ r).
Proof.
  unfold getClientIp. split; [|split].
  - destruct (x_forwarded_for req) as [|f|[|f l]].
    + destruct (x_real_ip req); [|split; discriminate|];
        (destruct (cf_connecting_ip req); [|split; discriminate|]);
        destruct (includes ":" _); split; discriminate.
    + split; discriminate.
    + split; reflexivity.
    + split; discriminate.
  - intros r Hr Hf. destruct (x_forwarded_for req) as [|f|[|f l]];
      [congruence| | discriminate |];
      injection Hr as <-; apply forwarded_first_plain.
  - intros r Hr Hf Hreal Hcf. rewrite Hf in Hr.
    destruct (x_real_ip req); [|discriminate|];
      (destruct (cf_connecting_ip req); [|discriminate|]);
      (destruct (includes ":" _) eqn:E; injection Hr as <-;
       [apply socket_last_part|split; [exact E|exists ""; reflexivity]]).
Qed.

End ClientIpFacts.

(** X23: [getClientIp] fails only on an empty array in [X-Forwarded-For].
    An address taken from that header holds no comma: it is one entry of
    the list, never the list. With no address in the headers, the result is
    the end of the socket address after its last colon, so it holds no
    colon: of an address written with colons only the last group is
    returned. *)
Theorem getClientIp_one_entry_or_last_group (req : IpHelper.Request) :
  (IpHelper.getClientIp req = None
   <-> IpHelper.x_forwarded_for req = IpHelper.Many [])
  /\ (forall r, IpHelper.getClientIp req = Some r ->
        IpHelper.x_forwarded_for req <> IpHelper.Absent ->
        JsString.includes "," r = false)
  /\ (forall r, IpHelper.getClientIp req = Some r ->
        IpHelper.x_forwarded_for req = IpHelper.Absent ->
        IpHelper.no_string (IpHelper.x_real_ip req) = true ->
        IpHelper.no_string (IpHelper.cf_connecting_ip req) = true ->
        JsString.includes ":" r = false
        /\ exists pre,
             IpHelper.or_string (IpHelper.ip req)
               (IpHelper.or_string (IpHelper.remoteAddress req) "")
             = pre +:+ r).
Proof. apply getClientIp_shape. Qed.

(** ** Internal addresses are passed over *)

Section FilteredIpFacts.
Import JsString IpHelper IpHelperFiltered.

Lemma usable_external (ip : string) : usable ip = true -> isInternalIp ip = false.
Proof.
  unfold usable. intros H. apply andb_true_iff in H as [_ H].
  apply negb_true_iff, H.
Qed.

Lemma first_usable_external (forwarded ip : string) :
  first_usable forwarded = Some ip -> isInternalIp ip = false.
Proof.
  unfold first_usable. intros H. apply List.find_some in H as [_ H].
  apply usable_external, H.
Qed.

Lemma first_usable_entry (forwarded ip : string) :
  first_usable forwarded = Some ip ->
  exists entry, In entry (split "," forwarded) /\ ip = trim entry.
Proof.
  unfold first_usable, forwarded_ips. intros H.
  apply List.find_some in H as [H _].
  apply List.in_map_iff in H as (entry & <- & Hin). eauto.
Qed.

Lemma trimmed_usable_external (h : header) (ip : string) :
  trimmed_usable h = Some ip -> isInternalIp ip = false.
Proof.
  destruct h as [|s|l]; cbn [trimmed_usable]; try discriminate.
  destruct (usable (trim s)) eqn:E; [|discriminate].
  intros [= <-]. apply usable_external, E.
Qed.

Lemma from_ip_external (a : option string) (ip : string) :
  from_ip a = Some ip -> isInternalIp ip = false.
Proof.
  destruct a as [s|]; cbn [from_ip]; [|discriminate].
  destruct (usable s) eqn:E; [|discriminate].
  destruct (startsWith "::ffff:" s).
  - destruct (isInternalIp (drop 7 s)) eqn:E4; cbn [negb]; [discriminate|].
    intros [= <-]. exact E4.
  - intros [= <-]. apply usable_external, E.
Qed.

Lemma from_connection_external (a : option string) (ip : string) :
  from_connection a = Some ip -> isInternalIp ip = false.
Proof.
  unfold from_connection. destruct (truthy (or_string a "")); [|discriminate].
  destruct (usable _) eqn:E; [|discriminate].
  intros [= <-]. apply usable_external, E.
Qed.

Lemma after_forwarded_external (req : Request) :
  isInternalIp (after_forwarded req) = false
  \/ after_forwarded req = or_string (ip req) "unknown".
Proof.
  unfold after_forwarded.
  destruct (trimmed_usable (x_real_ip req)) eqn:E1;
    [left; eapply trimmed_usable_external; eauto|].
  destruct (trimmed_usable (cf_connecting_ip req)) eqn:E2;
    [left; eapply trimmed_usable_external; eauto|].
  destruct (trimmed_usable (true_client_ip req)) eqn:E3;
    [left; eapply trimmed_usable_external; eauto|].
  destruct (trimmed_usable (x_cluster_client_ip req)) eqn:E4;
    [left; eapply trimmed_usable_external; eauto|].
  destruct (from_ip (ip req)) eqn:E5;
    [left; eapply from_ip_external; eauto|].
  destruct (from_connection (remoteAddress req)) eqn:E6;
    [left; eapply from_connection_external; eauto|].
  right. reflexivity.
Qed.

Lemma filtered_result (req : Request) :
  match IpHelperFiltered.getClientIp req with
  | None => x_forwarded_for req = Many []
  | Some r =>
      isInternalIp r = false \/ r = or_string (ip req) "unknown"
  end.
Proof.
  unfold IpHelperFiltered.getClientIp.
  destruct (x_forwarded_for req) as [|f|[|f l]].
  - apply after_forwarded_external.
  - destruct (first_usable f) eqn:E;
      [left; eapply first_usable_external; eauto|apply after_forwarded_external].
  - reflexivity.
  - destruct (first_usable f) eqn:E;
      [left; eapply first_usable_external; eauto|apply after_forwarded_external].
Qed.

Lemma internal_examples :
  isInternalIp "" = true /\ isInternalIp "127.0.0.1" = true
  /\ isInternalIp "172.18.0.9" = true /\ isInternalIp "8.8.8.8" = false.
Proof. repeat split; reflexivity. Qed.

End FilteredIpFacts.

(** X24: the filtering [getClientIp] fails only on an empty array in
    [X-Forwarded-For]; what it returns is an address that [isInternalIp]
    does not hold for internal, or else the last resort of the code, the
    address [req.ip] as it is (the text [unknown] without one). No header
    and no socket address makes it return an internal address by another
    way. *)
Theorem getClientIp_never_internal_but_last_resort (req : IpHelper.Request) :
  match IpHelperFiltered.getClientIp req with
  | None => IpHelper.x_forwarded_for req = IpHelper.Many []
  | Some r =>
      IpHelperFiltered.isInternalIp r = false
      \/ r = IpHelper.or_string (IpHelper.ip req) "unknown"
  end.
Proof. apply filtered_result. Qed.

(** ** Prefix entries of the whitelist *)

Section WhitelistFacts.
Import JsString IpWhitelist.
Local Open Scope Z_scope.

Ltac by_cases_below n k :=
  let rec go m :=
    lazymatch m with
    | O => idtac
    | S ?m' =>
        destruct n as [|n]; [k|go m']
    end in
  go 33%nat.

Lemma bounded_nat (p : Z) :
  0 <= p <= 32 -> exists n : nat, p = Z.of_nat n /\ (n <= 32)%nat.
Proof. intros H. exists (Z.to_nat p). lia. Qed.

Lemma maskNum_pow (p : Z) :
  0 <= p <= 32 -> maskNum (Int p) = - 2 ^ ((32 - p) mod 32).
Proof.
  intros H. destruct (bounded_nat p H) as (n & -> & Hn). clear H.
  by_cases_below n ltac:(vm_compute; reflexivity). lia.
Qed.

Lemma land_neg_pow2 (x k : Z) :
  0 <= k -> Z.land x (- 2 ^ k) = Z.shiftl (Z.shiftr x k) k.
Proof.
  intros Hk. rewrite <- (Z.ldiff_ones_r x k Hk), Z.ldiff_land.
  f_equal. rewrite Z.ones_equiv. unfold Z.lnot. lia.
Qed.

Lemma toInt32_octet (a : Z) : octet a -> toInt32 a = a.
Proof. unfold octet, toInt32. intros H. Z.div_mod_to_equations. lia. Qed.

Lemma address_number_octets (a b c d : Z) :
  octet a -> octet b -> octet c -> octet d ->
  exists s, address_number (Int a) (Int b) (Int c) (Int d) = Int s
            /\ toInt32 s = toInt32 (dotted a b c d).
Proof.
  intros Ha Hb Hc Hd. eexists. split; [reflexivity|].
  unfold shl, toInt32_num.
  rewrite (toInt32_octet a Ha), (toInt32_octet b Hb), (toInt32_octet c Hc).
  change (24 mod 32) with 24. change (16 mod 32) with 16. change (8 mod 32) with 8.
  unfold toInt32, dotted, octet in *.
  change (2 ^ 31) with 2147483648. change (2 ^ 32) with 4294967296.
  change (2 ^ 24) with 16777216. change (2 ^ 16) with 65536. change (2 ^ 8) with 256.
  Z.div_mod_to_equations. lia.
Qed.

Lemma dotted_range (a b c d : Z) :
  octet a -> octet b -> octet c -> octet d -> 0 <= dotted a b c d < 2 ^ 32.
Proof.
  unfold octet, dotted.
  change (2 ^ 32) with 4294967296.
  change (2 ^ 24) with 16777216. change (2 ^ 16) with 65536. change (2 ^ 8) with 256.
  lia.
Qed.

Lemma shift_signed_unsigned (u v k : Z) :
  0 <= u < 2 ^ 32 -> 0 <= v < 2 ^ 32 -> 0 <= k <= 31 ->
  (Z.shiftl (Z.shiftr (toInt32 u) k) k =? Z.shiftl (Z.shiftr (toInt32 v) k) k)
  = (Z.shiftr u k =? Z.shiftr v k).
Proof.
  intros Hu Hv Hk.
  assert (Hk' : 0 <= k <= 32) by lia.
  destruct (bounded_nat k Hk') as (n & -> & Hn). clear Hk'.
  rewrite !Z.shiftl_mul_pow2, !Z.shiftr_div_pow2 by lia.
  unfold toInt32. change (2 ^ 31) with 2147483648 in *.
  change (2 ^ 32) with 4294967296 in *.
  by_cases_below n ltac:(
    cbn [Z.of_nat Pos.of_succ_nat Pos.succ];
    match goal with
    | |- context [2 ^ ?e] =>
        let v := eval vm_compute in (2 ^ e) in change (2 ^ e) with v
    end;
    match goal with
    | |- (?a =? ?b) = (?c =? ?d) =>
        destruct (Z.eqb_spec a b) as [E1|E1];
        destruct (Z.eqb_spec c d) as [E2|E2]
    end;
    first [reflexivity | exfalso; Z.div_mod_to_equations; lia]).
  lia.
Qed.

End WhitelistFacts.

Section WhitelistEntries.
Import JsString IpWhitelist.
Local Open Scope Z_scope.

Lemma includes_char_false (c : ascii) (s : string) :
  includes (String c "") s = false ->
  JsString.forallb (fun a => negb (Ascii.eqb a c)) s = true.
Proof.
  induction s as [|x s IH]; [reflexivity|].
  cbn [JsString.forallb includes startsWith]. intros H.
  apply orb_false_iff in H as [Hx Hs]. rewrite andb_true_r in Hx.
  rewrite Ascii.eqb_sym, Hx, (IH Hs). reflexivity.
Qed.

Lemma split_two_includes (c : ascii) (s a b : string) (rest : list string) :
  split c s = a :: b :: rest -> includes (String c "") s = true.
Proof.
  intros H. destruct (includes (String c "") s) eqn:E; [reflexivity|].
  apply includes_char_false in E. rewrite (split_plain _ _ E) in H. discriminate.
Qed.

Lemma prefix_count (p : Z) :
  0 <= p <= 32 -> (32 - p) mod 32 = if p =? 0 then 0 else 32 - p.
Proof.
  intros H. destruct (Z.eqb_spec p 0) as [->|Hp]; [reflexivity|].
  apply Z.mod_small. lia.
Qed.

Lemma band_prefix (n0 n1 n2 n3 i0 i1 i2 i3 p : Z) :
  octet n0 -> octet n1 -> octet n2 -> octet n3 ->
  octet i0 -> octet i1 -> octet i2 -> octet i3 ->
  0 <= p <= 32 ->
  let k := if p =? 0 then 0 else 32 - p in
  (band (address_number (Int n0) (Int n1) (Int n2) (Int n3)) (maskNum (Int p))
   =? band (address_number (Int i0) (Int i1) (Int i2) (Int i3)) (maskNum (Int p)))
  = (Z.shiftr (dotted n0 n1 n2 n3) k =? Z.shiftr (dotted i0 i1 i2 i3) k).
Proof.
  intros Hn0 Hn1 Hn2 Hn3 Hi0 Hi1 Hi2 Hi3 Hp k.
  destruct (address_number_octets n0 n1 n2 n3) as (s & -> & Hs); auto.
  destruct (address_number_octets i0 i1 i2 i3) as (t & -> & Ht); auto.
  unfold band, toInt32_num. rewrite Hs, Ht, (maskNum_pow p Hp), (prefix_count p Hp).
  fold k. assert (Hk : 0 <= k <= 31) by (subst k; destruct (Z.eqb_spec p 0); lia).
  rewrite !land_neg_pow2 by lia.
  apply shift_signed_unsigned; [apply dotted_range..|exact Hk]; assumption.
Qed.

Lemma prefix_entry (ipAddress ip_address network prefixLength : string)
    (rest : list string) (p n0 n1 n2 n3 i0 i1 i2 i3 : Z) :
  trim ip_address <> trim ipAddress ->
  split "/" (trim ip_address) = network :: prefixLength :: rest ->
  parseInt10 prefixLength = Some (Int p) ->
  0 <= p <= 32 ->
  List.map Number (split "." network)
  = [Some (Int n0); Some (Int n1); Some (Int n2); Some (Int n3)] ->
  List.map Number (split "." (trim ipAddress))
  = [Some (Int i0); Some (Int i1); Some (Int i2); Some (Int i3)] ->
  octet n0 /\ octet n1 /\ octet n2 /\ octet n3 ->
  octet i0 /\ octet i1 /\ octet i2 /\ octet i3 ->
  item_allows ipAddress ip_address
  = Some (Z.shiftr (dotted n0 n1 n2 n3) (if p =? 0 then 0 else 32 - p)
          =? Z.shiftr (dotted i0 i1 i2 i3) (if p =? 0 then 0 else 32 - p)).
Proof.
  intros Hne Hsplit Hmask Hp Hn Hi (Hn0 & Hn1 & Hn2 & Hn3) (Hi0 & Hi1 & Hi2 & Hi3).
  unfold item_allows.
  apply String.eqb_neq in Hne. rewrite Hne.
  rewrite (split_two_includes _ _ _ _ _ Hsplit), Hsplit.
  assert (Ln : List.length (split "." network) = 4%nat).
  { rewrite <- (List.length_map Number), Hn. reflexivity. }
  assert (Li : List.length (split "." (trim ipAddress)) = 4%nat).
  { rewrite <- (List.length_map Number), Hi. reflexivity. }
  rewrite Ln, Li. cbn [Nat.eqb negb orb].
  rewrite Hmask, Hn, Hi. f_equal.
  apply band_prefix; assumption.
Qed.

End WhitelistEntries.

(** X25: a whitelist entry [network/prefix] that is not the request address
    itself, with four octets on both sides and a prefix length [p] between
    0 and 32, allows the address exactly when the two addresses agree on
    their first [p] bits, for [p] from 1 to 32. For the prefix length 0 the
    shift count wraps to 0 and all 32 bits are compared: such an entry
    allows its own network address only, not every address. *)
Theorem whitelist_prefix_entry
    (ipAddress ip_address network prefixLength : string)
    (rest : list string) (p n0 n1 n2 n3 i0 i1 i2 i3 : Z) :
  JsString.trim ip_address <> JsString.trim ipAddress ->
  JsString.split "/" (JsString.trim ip_address) = network :: prefixLength :: rest ->
  IpWhitelist.parseInt10 prefixLength = Some (IpWhitelist.Int p) ->
  (0 <= p <= 32)%Z ->
  List.map IpWhitelist.Number (JsString.split "." network)
  = [Some (IpWhitelist.Int n0); Some (IpWhitelist.Int n1);
     Some (IpWhitelist.Int n2); Some (IpWhitelist.Int n3)] ->
  List.map IpWhitelist.Number (JsString.split "." (JsString.trim ipAddress))
  = [Some (IpWhitelist.Int i0); Some (IpWhitelist.Int i1);
     Some (IpWhitelist.Int i2); Some (IpWhitelist.Int i3)] ->
  IpWhitelist.octet n0 /\ IpWhitelist.octet n1
  /\ IpWhitelist.octet n2 /\ IpWhitelist.octet n3 ->
  IpWhitelist.octet i0 /\ IpWhitelist.octet i1
  /\ IpWhitelist.octet i2 /\ IpWhitelist.octet i3 ->
  IpWhitelist.item_allows ipAddress ip_address
  = Some (Z.shiftr (IpWhitelist.dotted n0 n1 n2 n3)
            (if (p =? 0)%Z then 0 else 32 - p)
          =? Z.shiftr (IpWhitelist.dotted i0 i1 i2 i3)
               (if (p =? 0)%Z then 0 else 32 - p))%Z.
Proof. apply prefix_entry. Qed.

Lemma whitelist_prefix_entry_witness :
  IpWhitelist.item_allows Examples.office_address Examples.any_address_entry
  = Some false.
Proof.
  apply (whitelist_prefix_entry Examples.office_address Examples.any_address_entry
           "0.0.0.0" "0" [] 0 0 0 0 0 10 1 2 3);
    first [reflexivity | discriminate
          | unfold IpWhitelist.octet; repeat split; lia].
Defined.

(** ** Saving the drafts of a table *)

Section GenerateFacts.
Import GenerateRoute GenerateRows.
Local Open Scope Z_scope.

Lemma insert_parameter_apis (s s' : store) (apiId : Z)
    (q : APIGenerator.GeneratedParameter) :
  insert_parameter s apiId q = Some s' ->
  parameter_allowed q = true
  /\ apis s' = apis s /\ apis_sequence s' = apis_sequence s
  /\ datasources s' = datasources s /\ operation_logs s' = operation_logs s.
Proof.
  unfold insert_parameter, parameter_allowed.
  destruct (param_type_allowed _); cbn [negb]; [|discriminate].
  destruct (data_type_allowed _); cbn [negb]; [|discriminate].
  intros [= <-]. repeat split.
Qed.

Lemma insert_parameters_frame (ps : list APIGenerator.GeneratedParameter)
    (s : store) (apiId : Z) :
  let out := insert_parameters s apiId ps in
  apis (fst out) = apis s /\ apis_sequence (fst out) = apis_sequence s
  /\ datasources (fst out) = datasources s
  /\ operation_logs (fst out) = operation_logs s
  /\ (snd out = true -> List.Forall (fun q => parameter_allowed q = true) ps)
  /\ (List.Forall (fun q => parameter_allowed q = true) ps -> snd out = true).
Proof.
  revert s. induction ps as [|q ps IH]; intros s; cbn [insert_parameters].
  - repeat split; auto.
  - destruct (insert_parameter s apiId q) as [s1|] eqn:E.
    + destruct (insert_parameter_apis _ _ _ _ E) as (Hq & Ha & Hs & Hd & Ho).
      destruct (IH s1) as (Ha' & Hs' & Hd' & Ho' & Hall & Hback).
      repeat split; try congruence.
      * intros H. constructor; auto.
      * intros H. inversion H; subst. auto.
    + cbn [fst snd]. repeat split; try discriminate.
      intros H. inversion H as [|? ? Hq _]; subst.
      unfold insert_parameter, parameter_allowed in *.
      destruct (param_type_allowed _); cbn [negb andb] in *; [|discriminate].
      destruct (data_type_allowed _); cbn [negb] in *; discriminate.
Qed.

Lemma insert_api_some (s s1 : store) (n p m d : string) (dsid : Z)
    (sql st : string) (ra : Z) (cat : string) (by_ : option Z) (i : Z) :
  insert_api s n p m d dsid sql st ra cat by_ = Some (s1, i) ->
  method_allowed m = true /\ status_allowed st = true
  /\ existsb (same_route p m) (apis s) = false
  /\ i = next_id s
  /\ apis s1 = apis s ++ [ {| id := i; name := n; path := p; method := m;
                              description := d; datasource_id := dsid;
                              sql_template := sql; status := st;
                              require_auth := ra; category := cat;
                              created_by := by_ |} ]
  /\ datasources s1 = datasources s
  /\ operation_logs s1 = operation_logs s.
Proof.
  unfold insert_api.
  destruct (method_allowed m); cbn [negb]; [|discriminate].
  destruct (status_allowed st); cbn [negb]; [|discriminate].
  destruct (existsb _ _); [discriminate|].
  intros [= <- <-]. repeat split.
Qed.

Lemma existsb_same_route_app (p m : string) (l : list api_record) (a : api_record) :
  existsb (same_route p m) (l ++ [a]) = false ->
  existsb (same_route p m) l = false /\ row_route a <> (p, m).
Proof.
  rewrite existsb_app. cbn [existsb]. rewrite orb_false_r.
  intros H. apply orb_false_iff in H as [H1 H2]. split; [exact H1|].
  unfold same_route in H2. unfold row_route. intros [= E1 E2].
  rewrite E1, E2, !String.eqb_refl in H2. discriminate.
Qed.

Lemma insert_drafts_true (drafts : list APIGenerator.GeneratedAPI) :
  forall (s s' : store) (dsid : Z) (st cat : string) (by_ : option Z)
         (acc out : list created),
  insert_drafts s dsid st cat by_ acc drafts = (s', out, true) ->
  exists rows,
    apis s' = apis s ++ rows
    /\ List.Forall2 (written_as dsid st cat by_) drafts rows
    /\ out = acc ++ List.map (fun a => {| created_id := id a;
                                          created_name := name a;
                                          created_path := path a;
                                          created_method := method a;
                                          created_description := description a |})
                     rows
    /\ List.Forall (fun d =>
         existsb (same_route (APIGenerator.path d) (APIGenerator.method d)) (apis s)
         = false
         /\ method_allowed (APIGenerator.method d) = true
         /\ List.Forall (fun q => parameter_allowed q = true)
              (APIGenerator.parameters d)) drafts
    /\ List.NoDup (List.map APIGenerator.route_key drafts)
    /\ (drafts <> [] -> status_allowed st = true)
    /\ datasources s' = datasources s
    /\ operation_logs s' = operation_logs s.
Proof.
  induction drafts as [|d drafts IH]; intros s s' dsid st cat by_ acc out H.
  - cbn [insert_drafts] in H. injection H as <- <-. exists [].
    rewrite !List.app_nil_r. repeat split; try constructor. congruence.
  - cbn [insert_drafts] in H.
    destruct (insert_api s _ _ _ _ dsid _ st 1 cat by_) as [[s1 i]|] eqn:Ei;
      [|discriminate].
    destruct (insert_api_some _ _ _ _ _ _ _ _ _ _ _ _ _ Ei)
      as (Hm & Hst & Hfresh & Hi & Hrow & Hds1 & Hol1).
    pose proof (insert_parameters_frame (APIGenerator.parameters d) s1 i)
      as (Ha2 & _ & Hds2 & Hol2 & Hps & _).
    destruct (insert_parameters s1 i (APIGenerator.parameters d)) as [s2 ok] eqn:Ep.
    cbn [fst snd] in *. destruct ok; [|discriminate].
    destruct (IH _ _ _ _ _ _ _ _ H)
      as (rows & Hrows & Hw & Hout & Hall & Hnd & _ & Hds & Hol).
    eexists (_ :: rows). split; [|split; [|split; [|split; [|split; [|split; [|split]]]]]].
    + rewrite Hrows, Ha2, Hrow, <- List.app_assoc. reflexivity.
    + constructor; [|exact Hw]. unfold written_as. cbn. repeat split.
    + rewrite Hout, <- List.app_assoc. reflexivity.
    + constructor; [auto|].
      eapply List.Forall_impl; [|exact Hall]. cbn beta.
      intros d' (Hf & Hm' & Hq'). rewrite Ha2, Hrow in Hf.
      apply existsb_same_route_app in Hf as [Hf _]. auto.
    + cbn [List.map]. constructor; [|exact Hnd].
      intros Hin. apply List.in_map_iff in Hin as (d' & Hk & Hin').
      rewrite List.Forall_forall in Hall. destruct (Hall d' Hin') as (Hf & _).
      rewrite Ha2, Hrow in Hf. apply existsb_same_route_app in Hf as [_ Hf].
      apply Hf. unfold row_route, APIGenerator.route_key in *. cbn. congruence.
    + intros _. exact Hst.
    + congruence.
    + congruence.
Qed.

End GenerateFacts.

Section GenerateOutcome.
Import GenerateRoute GenerateRows.
Local Open Scope Z_scope.
Variable getTableSchema : Z -> string -> string -> string + SchemaIntrospector.TableInfo.

(** The gates before the insertions, and what each answer leaves. *)
Lemma generate_cases (b : body) (e : env) (s : store) :
  (fst (generate getTableSchema b e s) = BadRequest
   /\ snd (generate getTableSchema b e s) = s)
  \/ (fst (generate getTableSchema b e s) = NotFound
      /\ snd (generate getTableSchema b e s) = s)
  \/ exists dsid tn ds,
       datasourceId b = Some dsid /\ dsid <> 0
       /\ present (tableName b) = Some tn
       /\ List.hd_error
            (List.filter (fun d => Execute.ds_id d =? dsid) (datasources s))
          = Some ds
       /\ ((exists err, getTableSchema dsid (Execute.type ds) tn = inl err
            /\ generate getTableSchema b e s = (ServerError, s))
           \/ exists schema,
                getTableSchema dsid (Execute.type ds) tn = inr schema
                /\ generate getTableSchema b e s
                   = match find_duplicates s (drafts_of b schema) with
                     | (_ :: _) as duplicateAPIs => (Conflict duplicateAPIs, s)
                     | [] =>
                         match insert_drafts s dsid (default "draft" (body_status b))
                                 (default "default" (body_category b)) (userId e) []
                                 (drafts_of b schema) with
                         | (s', _, false) => (ServerError, s')
                         | (s', createdAPIs, true) =>
                             match IpHelper.getClientIp (req e) with
                             | None => (ServerError, s')
                             | Some ip =>
                                 (Success createdAPIs,
                                  {| datasources := datasources s';
                                     apis := apis s';
                                     apis_sequence := apis_sequence s';
                                     api_parameters := api_parameters s';
                                     operation_logs :=
                                       operation_logs s'
                                       ++ [ {| user_id := userId e;
                                               action := "auto_generate_apis";
                                               resource_type := "datasource";
                                               resource_id := dsid;
                                               ip_address := ip;
                                               user_agent := req_user_agent e;
                                               log_status := "success";
                                               created_at := now e;
                                               timezone_offset := timezoneOffset e |} ] |})
                             end
                         end
                     end).
Proof.
  unfold generate.
  destruct (datasourceId b) as [dsid|]; [|left; split; reflexivity].
  destruct (present (tableName b)) as [tn|]; [|left; split; reflexivity].
  destruct (Z.eqb_spec dsid 0) as [->|Hne]; [left; split; reflexivity|].
  destruct (List.filter _ (datasources s)) as [|ds l] eqn:Ef;
    [right; left; split; reflexivity|].
  right. right. exists dsid, tn, ds.
  split; [reflexivity|]. split; [exact Hne|]. split; [reflexivity|].
  split; [rewrite Ef; reflexivity|].
  destruct (getTableSchema dsid (Execute.type ds) tn) as [err|schema].
  - left. eauto.
  - right. exists schema. split; reflexivity.
Qed.

Lemma generate_success (b : body) (e : env) (s : store) (out : list created) :
  fst (generate getTableSchema b e s) = Success out ->
  exists dsid tn ds schema rows,
    datasourceId b = Some dsid
    /\ present (tableName b) = Some tn
    /\ List.hd_error
         (List.filter (fun d => Execute.ds_id d =? dsid) (datasources s))
       = Some ds
    /\ getTableSchema dsid (Execute.type ds) tn = inr schema
    /\ apis (snd (generate getTableSchema b e s)) = apis s ++ rows
    /\ List.Forall2
         (written_as dsid (default "draft" (body_status b))
            (default "default" (body_category b)) (userId e))
         (drafts_of b schema) rows
    /\ out = List.map (fun a => {| created_id := id a;
                                   created_name := name a;
                                   created_path := path a;
                                   created_method := method a;
                                   created_description := description a |}) rows
    /\ List.NoDup (List.map APIGenerator.route_key (drafts_of b schema))
    /\ List.Forall (fun d =>
         existsb (same_route (APIGenerator.path d) (APIGenerator.method d)) (apis s)
         = false
         /\ List.Forall (fun q => parameter_allowed q = true)
              (APIGenerator.parameters d)) (drafts_of b schema)
    /\ List.length (operation_logs (snd (generate getTableSchema b e s)))
       = S (List.length (operation_logs s)).
Proof.
  intros H.
  destruct (generate_cases b e s)
    as [[E _]|[[E _]|(dsid & tn & ds & Hd & Hne & Ht & Hds & Hrest)]];
    [congruence..|].
  destruct Hrest as [(err & _ & E)|(schema & Hschema & E)];
    [rewrite E in H; discriminate|].
  rewrite E in *. clear E.
  destruct (find_duplicates s (drafts_of b schema)); [|discriminate].
  destruct (insert_drafts _ _ _ _ _ _ _) as [[s' created] ok] eqn:Ei.
  destruct ok; [|discriminate].
  destruct (IpHelper.getClientIp (req e)); [|discriminate].
  cbn [fst snd] in *. injection H as <-.
  destruct (insert_drafts_true _ _ _ _ _ _ _ _ _ Ei)
    as (rows & Hrows & Hw & Hout & Hall & Hnd & _ & _ & Hol).
  exists dsid, tn, ds, schema, rows. cbn [apis operation_logs].
  repeat split; auto.
  - eapply List.Forall_impl; [|exact Hall]. cbn beta. intros d (H1 & _ & H3). auto.
  - rewrite List.length_app, Hol. cbn [List.length]. lia.
Qed.

End GenerateOutcome.

(** X26: when the handler of [/generate] answers with success, the table
    [apis] holds, after the rows it had, one row for each selected draft, in
    order, with the texts of the draft, the datasource, the status and the
    category of the request, the caller as creator and authentication
    required; the answer lists these rows; exactly one operation log entry
    was written. This happens only when the selected drafts have pairwise
    distinct routes, none of them was stored before, and every declared
    parameter passes the checks of [api_parameters]. *)
Theorem generate_success_stores_the_selected_drafts
    (getTableSchema : Z -> string -> string -> string + SchemaIntrospector.TableInfo)
    (b : GenerateRoute.body) (e : GenerateRoute.env) (s : GenerateRoute.store)
    (out : list GenerateRoute.created) :
  fst (GenerateRoute.generate getTableSchema b e s) = GenerateRoute.Success out ->
  exists dsid tn ds schema rows,
    GenerateRoute.datasourceId b = Some dsid
    /\ GenerateRoute.present (GenerateRoute.tableName b) = Some tn
    /\ List.hd_error
         (List.filter (fun d => (Execute.ds_id d =? dsid)%Z)
            (GenerateRoute.datasources s))
       = Some ds
    /\ getTableSchema dsid (Execute.type ds) tn = inr schema
    /\ GenerateRoute.apis (snd (GenerateRoute.generate getTableSchema b e s))
       = GenerateRoute.apis s ++ rows
    /\ List.Forall2
         (GenerateRows.written_as dsid
            (default "draft" (GenerateRoute.body_status b))
            (default "default" (GenerateRoute.body_category b))
            (GenerateRoute.userId e))
         (GenerateRows.drafts_of b schema) rows
    /\ out = List.map (fun a =>
               {| GenerateRoute.created_id := GenerateRoute.id a;
                  GenerateRoute.created_name := GenerateRoute.name a;
                  GenerateRoute.created_path := GenerateRoute.path a;
                  GenerateRoute.created_method := GenerateRoute.method a;
                  GenerateRoute.created_description := GenerateRoute.description a |})
             rows
    /\ List.NoDup (List.map APIGenerator.route_key (GenerateRows.drafts_of b schema))
    /\ List.Forall (fun d =>
         existsb (GenerateRoute.same_route (APIGenerator.path d) (APIGenerator.method d))
           (GenerateRoute.apis s) = false
         /\ List.Forall (fun q => GenerateRows.parameter_allowed q = true)
              (APIGenerator.parameters d)) (GenerateRows.drafts_of b schema)
    /\ List.length
         (GenerateRoute.operation_logs
            (snd (GenerateRoute.generate getTableSchema b e s)))
       = S (List.length (GenerateRoute.operation_logs s)).
Proof. apply generate_success. Qed.

Lemma generate_success_stores_the_selected_drafts_witness :
  List.length Examples.orders_created = 7%nat
  /\ List.NoDup
       (List.map APIGenerator.route_key
          (GenerateRows.drafts_of (Examples.generate_all "orders")
             Examples.orders_table)).
Proof.
  split; [vm_compute; reflexivity|].
  destruct (generate_success_stores_the_selected_drafts Examples.reads_orders
              (Examples.generate_all "orders") Examples.admin_env
              Examples.empty_metadata Examples.orders_created)
    as (dsid & tn & ds & schema & rows & _ & _ & _ & Hs & _ & _ & _ & Hnd & _).
  - vm_compute. reflexivity.
  - injection Hs as <-. exact Hnd.
Defined.

Section GenerateAll.
Import GenerateRoute GenerateRows SchemaIntrospector.
Local Open Scope Z_scope.
Variable getTableSchema : Z -> string -> string -> string + TableInfo.

Lemma post_draft_generated (t : TableInfo) (apiName apiPath : option string) :
  In (APIGenerator.generatePostAPI
        (APIGenerator.name_or_default apiName (table_name t))
        (APIGenerator.path_or_default apiPath (table_name t))
        (table_name t) (columns t))
     (APIGenerator.generateFullCRUDAPIs t apiName apiPath).
Proof.
  unfold APIGenerator.generateFullCRUDAPIs, APIGenerator.generateAPIsFromTable.
  cbn [APIGenerator.get APIGenerator.post APIGenerator.put APIGenerator.delete
       APIGenerator.push_some app].
  apply List.in_or_app. left.
  destruct (APIGenerator.generatePutAPI _ _ _ _ _);
    destruct (APIGenerator.generateDeleteAPI _ _ _ _);
    cbn [APIGenerator.push_some app In]; auto.
Qed.

Lemma mapped_type_allowed (columnType : string) :
  data_type_allowed (mapColumnTypeToJoi columnType) = true
  <-> mapColumnTypeToJoi columnType <> "object".
Proof.
  unfold mapColumnTypeToJoi.
  repeat match goal with
         | |- context [if ?c then _ else _] => destruct c
         end; split; first [reflexivity | discriminate | congruence].
Qed.

Lemma all_selected_needs (b : body) (e : env) (s : store) (out : list created) :
  default [] (selectedAPIs b) = [] ->
  fst (generate getTableSchema b e s) = Success out ->
  exists dsid tn ds schema,
    datasourceId b = Some dsid
    /\ present (tableName b) = Some tn
    /\ List.hd_error
         (List.filter (fun d => Execute.ds_id d =? dsid) (datasources s))
       = Some ds
    /\ getTableSchema dsid (Execute.type ds) tn = inr schema
    /\ APIGenerator.primaryKey_of (columns schema) <> None
    /\ forall col, In col (columns schema) -> isAutoIncrement col = false ->
         mapColumnTypeToJoi (col_type col) <> "object".
Proof.
  intros Hsel H.
  destruct (generate_success getTableSchema b e s out H)
    as (dsid & tn & ds & schema & rows & Hd & Ht & Hds & Hs & _ & _ & _ & Hnd & Hall & _).
  exists dsid, tn, ds, schema. repeat split; auto.
  - unfold drafts_of in Hnd. rewrite Hsel in Hnd. cbn [filter_selected] in Hnd.
    apply drafts_distinct_iff in Hnd. exact Hnd.
  - intros col Hcol Hauto.
    unfold drafts_of in Hall. rewrite Hsel in Hall. cbn [filter_selected] in Hall.
    rewrite List.Forall_forall in Hall.
    destruct (Hall _ (post_draft_generated schema (apiName b) (apiPath b)))
      as [_ Hps].
    rewrite List.Forall_forall in Hps.
    apply mapped_type_allowed.
    assert (Hin : In {| APIGenerator.param_name := col_name col;
                        APIGenerator.param_type := "body";
                        APIGenerator.data_type := mapColumnTypeToJoi (col_type col);
                        APIGenerator.required := if nullable col then 0 else 1;
                        APIGenerator.default_value := defaultValue col;
                        APIGenerator.param_description :=
                          Some (col_name col +:+ " field") |}
                   (APIGenerator.parameters
                      (APIGenerator.generatePostAPI
                         (APIGenerator.name_or_default (apiName b) (table_name schema))
                         (APIGenerator.path_or_default (apiPath b) (table_name schema))
                         (table_name schema) (columns schema)))).
    { cbn [APIGenerator.generatePostAPI APIGenerator.parameters].
      apply (List.in_map
               (fun col => {| APIGenerator.param_name := col_name col;
                              APIGenerator.param_type := "body";
                              APIGenerator.data_type := mapColumnTypeToJoi (col_type col);
                              APIGenerator.required := if nullable col then 0 else 1;
                              APIGenerator.default_value := defaultValue col;
                              APIGenerator.param_description :=
                                Some (col_name col +:+ " field") |})).
      apply List.filter_In. split; [exact Hcol|]. rewrite Hauto. reflexivity. }
    specialize (Hps _ Hin). unfold parameter_allowed in Hps.
    apply andb_true_iff in Hps as [_ Hps]. exact Hps.
Qed.

End GenerateAll.

(** X27: with no selection every draft is saved, and then the handler of
    [/generate] can answer with success only for a table that has a primary
    key column and no column, outside the auto-increment ones, whose type
    maps to [object]: without a key two drafts share a route, and [object]
    is no data type that [api_parameters] accepts. *)
Theorem generate_everything_needs_key_and_known_types
    (getTableSchema : Z -> string -> string -> string + SchemaIntrospector.TableInfo)
    (b : GenerateRoute.body) (e : GenerateRoute.env) (s : GenerateRoute.store)
    (out : list GenerateRoute.created) :
  default [] (GenerateRoute.selectedAPIs b) = [] ->
  fst (GenerateRoute.generate getTableSchema b e s) = GenerateRoute.Success out ->
  exists dsid tn ds schema,
    GenerateRoute.datasourceId b = Some dsid
    /\ GenerateRoute.present (GenerateRoute.tableName b) = Some tn
    /\ List.hd_error
         (List.filter (fun d => (Execute.ds_id d =? dsid)%Z)
            (GenerateRoute.datasources s))
       = Some ds
    /\ getTableSchema dsid (Execute.type ds) tn = inr schema
    /\ APIGenerator.primaryKey_of (SchemaIntrospector.columns schema) <> None
    /\ forall col,
         In col (SchemaIntrospector.columns schema) ->
         SchemaIntrospector.isAutoIncrement col = false ->
         SchemaIntrospector.mapColumnTypeToJoi (SchemaIntrospector.col_type col)
         <> "object".
Proof. apply all_selected_needs. Qed.

Lemma generate_everything_needs_key_and_known_types_witness :
  APIGenerator.primaryKey_of (SchemaIntrospector.columns Examples.orders_table)
  <> None.
Proof.
  destruct (generate_everything_needs_key_and_known_types Examples.reads_orders
              (Examples.generate_all "orders") Examples.admin_env
              Examples.empty_metadata Examples.orders_created)
    as (dsid & tn & ds & schema & _ & _ & _ & Hs & Hpk & _).
  - reflexivity.
  - vm_compute. reflexivity.
  - injection Hs as <-. exact Hpk.
Defined.

Section GenerateRejections.
Import GenerateRoute GenerateRows SchemaIntrospector.
Local Open Scope Z_scope.
Variable getTableSchema : Z -> string -> string -> string + TableInfo.

Lemma filter_same_route (s : store) (p m : string) :
  match List.filter (same_route p m) (apis s) with
  | [] => existsb (same_route p m) (apis s) = false
  | existing :: _ =>
      existsb (same_route p m) (apis s) = true
      /\ In existing (apis s) /\ row_route existing = (p, m)
  end.
Proof.
  destruct (List.filter _ _) as [|a l] eqn:E.
  - destruct (existsb _ _) eqn:Ex; [|reflexivity].
    apply existsb_exists in Ex as (a & Hin & Ha).
    assert (H : In a (List.filter (same_route p m) (apis s)))
      by (apply List.filter_In; auto).
    rewrite E in H. destruct H.
  - assert (H : In a (List.filter (same_route p m) (apis s)))
      by (rewrite E; left; reflexivity).
    apply List.filter_In in H as [Hin Ha]. split; [|split; [exact Hin|]].
    + apply existsb_exists. eauto.
    + unfold same_route in Ha. apply andb_true_iff in Ha as [H1 H2].
      apply String.eqb_eq in H1, H2. unfold row_route. congruence.
Qed.

Lemma find_duplicates_routes (s : store) (drafts : list APIGenerator.GeneratedAPI) :
  List.map (fun d => (dup_path d, dup_method d)) (find_duplicates s drafts)
  = List.filter (route_taken s) (List.map APIGenerator.route_key drafts)
  /\ List.Forall (fun d =>
       exists a, In a (apis s) /\ id a = existingId d
                 /\ row_route a = (dup_path d, dup_method d))
       (find_duplicates s drafts).
Proof.
  induction drafts as [|d drafts [IH1 IH2]]; [split; [reflexivity|constructor]|].
  cbn [find_duplicates List.map List.filter].
  unfold route_taken at 1. cbn [APIGenerator.route_key fst snd].
  pose proof (filter_same_route s (APIGenerator.path d) (APIGenerator.method d)) as H.
  destruct (List.filter _ (apis s)) as [|a l].
  - rewrite H. auto.
  - destruct H as (-> & Hin & Hr). split.
    + cbn [List.map dup_path dup_method]. rewrite IH1. reflexivity.
    + constructor; [|exact IH2]. exists a. cbn. auto.
Qed.

Lemma generate_rejects (b : body) (e : env) (s : store) :
  (fst (generate getTableSchema b e s) = BadRequest
   \/ fst (generate getTableSchema b e s) = NotFound
   \/ (exists dups, fst (generate getTableSchema b e s) = Conflict dups) ->
   snd (generate getTableSchema b e s) = s)
  /\ (fst (generate getTableSchema b e s) = BadRequest
      <-> datasourceId b = None \/ datasourceId b = Some 0
          \/ present (tableName b) = None)
  /\ forall dups,
       fst (generate getTableSchema b e s) = Conflict dups ->
       dups <> []
       /\ exists dsid tn ds schema,
            datasourceId b = Some dsid
            /\ present (tableName b) = Some tn
            /\ List.hd_error
                 (List.filter (fun d => Execute.ds_id d =? dsid) (datasources s))
               = Some ds
            /\ getTableSchema dsid (Execute.type ds) tn = inr schema
            /\ List.map (fun d => (dup_path d, dup_method d)) dups
               = List.filter (route_taken s)
                   (List.map APIGenerator.route_key (drafts_of b schema))
            /\ List.Forall (fun d =>
                 exists a, In a (apis s) /\ id a = existingId d
                           /\ row_route a = (dup_path d, dup_method d)) dups.
Proof.
  split; [|split].
  - intros H.
    destruct (generate_cases getTableSchema b e s)
      as [[_ E]|[[_ E]|(dsid & tn & ds & Hd & Hne & Ht & Hds & Hrest)]];
      [exact E..|].
    destruct Hrest as [(err & _ & E)|(schema & _ & E)];
      [rewrite E; reflexivity|].
    rewrite E in *.
    destruct (find_duplicates s (drafts_of b schema)); [|reflexivity].
    destruct (insert_drafts _ _ _ _ _ _ _) as [[s' created] ok].
    destruct ok; [destruct (IpHelper.getClientIp (req e))|];
      cbn [fst] in H; destruct H as [H|[H|[dups H]]]; discriminate.
  - unfold generate.
    destruct (datasourceId b) as [dsid|]; [|split; auto].
    destruct (present (tableName b)) as [tn|]; [|split; auto].
    destruct (Z.eqb_spec dsid 0) as [->|Hne]; [split; auto|].
    split.
    + destruct (List.filter _ (datasources s)); [discriminate|].
      destruct (getTableSchema _ _ _); [discriminate|].
      destruct (find_duplicates _ _); [|discriminate].
      destruct (insert_drafts _ _ _ _ _ _ _) as [[s' created] ok].
      destruct ok; [destruct (IpHelper.getClientIp (req e))|]; discriminate.
    + intros [H|[H|H]]; congruence.
  - intros dups H.
    destruct (generate_cases getTableSchema b e s)
      as [[E _]|[[E _]|(dsid & tn & ds & Hd & Hne & Ht & Hds & Hrest)]];
      [congruence..|].
    destruct Hrest as [(err & _ & E)|(schema & Hs & E)];
      [rewrite E in H; discriminate|].
    rewrite E in H.
    pose proof (find_duplicates_routes s (drafts_of b schema)) as [Hr Hall].
    destruct (find_duplicates s (drafts_of b schema)) as [|d l] eqn:Ef.
    + destruct (insert_drafts _ _ _ _ _ _ _) as [[s' created] ok].
      destruct ok; [destruct (IpHelper.getClientIp (req e))|]; discriminate.
    + cbn [fst] in H. injection H as <-. split; [discriminate|].
      exists dsid, tn, ds, schema. repeat split; auto.
Qed.

End GenerateRejections.

(** X28: the handler of [/generate] leaves the store as it is when it
    answers 400, 404 or 409. It answers 400 exactly when the datasource id
    is absent or 0 or the table name absent or empty. When it answers 409,
    the list it returns is not empty and names exactly the selected drafts
    whose route a stored endpoint has, in the order of the drafts, each with
    the id of a stored endpoint of that route. *)
Theorem generate_rejections_write_nothing
    (getTableSchema : Z -> string -> string -> string + SchemaIntrospector.TableInfo)
    (b : GenerateRoute.body) (e : GenerateRoute.env) (s : GenerateRoute.store) :
  (fst (GenerateRoute.generate getTableSchema b e s) = GenerateRoute.BadRequest
   \/ fst (GenerateRoute.generate getTableSchema b e s) = GenerateRoute.NotFound
   \/ (exists dups,
         fst (GenerateRoute.generate getTableSchema b e s)
         = GenerateRoute.Conflict dups) ->
   snd (GenerateRoute.generate getTableSchema b e s) = s)
  /\ (fst (GenerateRoute.generate getTableSchema b e s) = GenerateRoute.BadRequest
      <-> GenerateRoute.datasourceId b = None
          \/ GenerateRoute.datasourceId b = Some 0%Z
          \/ GenerateRoute.present (GenerateRoute.tableName b) = None)
  /\ forall dups,
       fst (GenerateRoute.generate getTableSchema b e s)
       = GenerateRoute.Conflict dups ->
       dups <> []
       /\ exists dsid tn ds schema,
            GenerateRoute.datasourceId b = Some dsid
            /\ GenerateRoute.present (GenerateRoute.tableName b) = Some tn
            /\ List.hd_error
                 (List.filter (fun d => (Execute.ds_id d =? dsid)%Z)
                    (GenerateRoute.datasources s))
               = Some ds
            /\ getTableSchema dsid (Execute.type ds) tn = inr schema
            /\ List.map (fun d => (GenerateRoute.dup_path d, GenerateRoute.dup_method d))
                 dups
               = List.filter (GenerateRows.route_taken s)
                   (List.map APIGenerator.route_key (GenerateRows.drafts_of b schema))
            /\ List.Forall (fun d =>
                 exists a,
                   In a (GenerateRoute.apis s)
                   /\ GenerateRoute.id a = GenerateRoute.existingId d
                   /\ GenerateRows.row_route a
                      = (GenerateRoute.dup_path d, GenerateRoute.dup_method d))
                 dups.
Proof. apply generate_rejects. Qed.

Section GeneratePartial.
Import GenerateRoute GenerateRows SchemaIntrospector.
Local Open Scope Z_scope.
Variable getTableSchema : Z -> string -> string -> string + TableInfo.

Lemma find_duplicates_nil (s : store) (drafts : list APIGenerator.GeneratedAPI) :
  List.Forall (fun k => route_taken s k = false)
    (List.map APIGenerator.route_key drafts) ->
  find_duplicates s drafts = [].
Proof.
  induction drafts as [|d drafts IH]; [reflexivity|].
  cbn [List.map]. intros H. inversion H as [|? ? Hd Hrest]; subst.
  cbn [find_duplicates].
  pose proof (filter_same_route s (APIGenerator.path d) (APIGenerator.method d)) as Hf.
  destruct (List.filter _ (apis s)).
  - apply IH, Hrest.
  - destruct Hf as [Hf _]. unfold route_taken in Hd.
    cbn [APIGenerator.route_key fst snd] in Hd. congruence.
Qed.

Lemma insert_drafts_step (s : store) (dsid : Z) (st cat : string) (by_ : option Z)
    (acc : list created) (d : APIGenerator.GeneratedAPI)
    (rest : list APIGenerator.GeneratedAPI) :
  method_allowed (APIGenerator.method d) = true ->
  status_allowed st = true ->
  route_taken s (APIGenerator.route_key d) = false ->
  List.Forall (fun q => parameter_allowed q = true) (APIGenerator.parameters d) ->
  exists s2 r c,
    insert_drafts s dsid st cat by_ acc (d :: rest)
    = insert_drafts s2 dsid st cat by_ (acc ++ [c]) rest
    /\ apis s2 = apis s ++ [r]
    /\ written_as dsid st cat by_ d r
    /\ operation_logs s2 = operation_logs s.
Proof.
  intros Hm Hst Hfree Hps. cbn [insert_drafts].
  unfold route_taken in Hfree. cbn [APIGenerator.route_key fst snd] in Hfree.
  unfold insert_api at 1. rewrite Hm, Hst, Hfree. cbn [negb].
  match goal with
  | |- context [insert_parameters ?s1 ?i ?ps] =>
      pose proof (insert_parameters_frame ps s1 i) as (Ha & _ & _ & Ho & _ & Hok);
      destruct (insert_parameters s1 i ps) as [s2 ok] eqn:Ep
  end.
  cbn [fst snd] in *. rewrite (Hok Hps).
  eexists s2, _, _. split; [reflexivity|]. split; [exact Ha|].
  split; [|exact Ho]. unfold written_as. cbn. repeat split.
Qed.

Lemma insert_drafts_taken (s : store) (dsid : Z) (st cat : string) (by_ : option Z)
    (acc : list created) (d : APIGenerator.GeneratedAPI)
    (rest : list APIGenerator.GeneratedAPI) :
  route_taken s (APIGenerator.route_key d) = true ->
  insert_drafts s dsid st cat by_ acc (d :: rest) = (s, acc, false).
Proof.
  intros H. cbn [insert_drafts]. unfold insert_api, route_taken in *.
  cbn [APIGenerator.route_key fst snd] in H. rewrite H.
  destruct (method_allowed _), (status_allowed _); reflexivity.
Qed.

Lemma keyless_drafts (t : TableInfo) (apiName apiPath : option string) :
  APIGenerator.primaryKey_of (columns t) = None ->
  let name := APIGenerator.name_or_default apiName (table_name t) in
  let path := APIGenerator.path_or_default apiPath (table_name t) in
  APIGenerator.generateFullCRUDAPIs t apiName apiPath
  = [ APIGenerator.generateGetAPI name path (table_name t) (columns t);
      APIGenerator.generatePostAPI name path (table_name t) (columns t);
      APIGenerator.generateBulkGetAPI name path (table_name t) (columns t);
      APIGenerator.generateSearchAPI name path (table_name t) (columns t);
      APIGenerator.generateCountAPI name path (table_name t) ]
  /\ APIGenerator.route_key
       (APIGenerator.generateGetAPI name path (table_name t) (columns t))
     = (path, "GET")
  /\ APIGenerator.parameters
       (APIGenerator.generateGetAPI name path (table_name t) (columns t))
     = [APIGenerator.limit_parameter; APIGenerator.offset_parameter].
Proof.
  intros Hpk name path.
  unfold APIGenerator.generateFullCRUDAPIs, APIGenerator.generateAPIsFromTable,
    APIGenerator.generateGetAPI, APIGenerator.generatePutAPI,
    APIGenerator.generateDeleteAPI.
  rewrite Hpk. repeat split.
Qed.

Lemma post_parameters_allowed (name path tableName : string)
    (cols : list ColumnInfo) :
  (forall col, In col cols -> isAutoIncrement col = false ->
     mapColumnTypeToJoi (col_type col) <> "object") ->
  List.Forall (fun q => parameter_allowed q = true)
    (APIGenerator.parameters (APIGenerator.generatePostAPI name path tableName cols)).
Proof.
  intros H. cbn [APIGenerator.generatePostAPI APIGenerator.parameters].
  apply List.Forall_forall. intros q Hq.
  apply List.in_map_iff in Hq as (col & <- & Hcol).
  apply List.filter_In in Hcol as [Hcol Hauto]. apply negb_true_iff in Hauto.
  unfold parameter_allowed. cbn [APIGenerator.param_type APIGenerator.data_type].
  apply andb_true_iff. split; [reflexivity|].
  apply mapped_type_allowed, H; assumption.
Qed.

Lemma keyless_partial (b : body) (e : env) (s : store) (dsid : Z) (tn : string)
    (ds : Execute.datasource) (schema : TableInfo) :
  datasourceId b = Some dsid -> dsid <> 0 ->
  present (tableName b) = Some tn ->
  List.hd_error (List.filter (fun d => Execute.ds_id d =? dsid) (datasources s))
  = Some ds ->
  getTableSchema dsid (Execute.type ds) tn = inr schema ->
  APIGenerator.primaryKey_of (columns schema) = None ->
  default [] (selectedAPIs b) = [] ->
  status_allowed (default "draft" (body_status b)) = true ->
  List.Forall (fun k => route_taken s k = false)
    (List.map APIGenerator.route_key (drafts_of b schema)) ->
  (forall col, In col (columns schema) -> isAutoIncrement col = false ->
     mapColumnTypeToJoi (col_type col) <> "object") ->
  let name := APIGenerator.name_or_default (apiName b) (table_name schema) in
  let path := APIGenerator.path_or_default (apiPath b) (table_name schema) in
  exists r1 r2,
    fst (generate getTableSchema b e s) = ServerError
    /\ apis (snd (generate getTableSchema b e s)) = apis s ++ [r1; r2]
    /\ written_as dsid (default "draft" (body_status b))
         (default "default" (body_category b)) (userId e)
         (APIGenerator.generateGetAPI name path (table_name schema) (columns schema))
         r1
    /\ written_as dsid (default "draft" (body_status b))
         (default "default" (body_category b)) (userId e)
         (APIGenerator.generatePostAPI name path (table_name schema) (columns schema))
         r2
    /\ operation_logs (snd (generate getTableSchema b e s)) = operation_logs s.
Proof.
  intros Hd Hne Ht Hds Hs Hpk Hsel Hst Hfree Htypes name path.
  assert (E : generate getTableSchema b e s
              = match insert_drafts s dsid (default "draft" (body_status b))
                        (default "default" (body_category b)) (userId e) []
                        (drafts_of b schema) with
                | (s', _, false) => (ServerError, s')
                | (s', createdAPIs, true) =>
                    match IpHelper.getClientIp (req e) with
                    | None => (ServerError, s')
                    | Some ip =>
                        (Success createdAPIs,
                         {| datasources := datasources s';
                            apis := apis s';
                            apis_sequence := apis_sequence s';
                            api_parameters := api_parameters s';
                            operation_logs :=
                              operation_logs s'
                              ++ [ {| user_id := userId e;
                                      action := "auto_generate_apis";
                                      resource_type := "datasource";
                                      resource_id := dsid;
                                      ip_address := ip;
                                      user_agent := req_user_agent e;
                                      log_status := "success";
                                      created_at := now e;
                                      timezone_offset := timezoneOffset e |} ] |})
                    end
                end).
  { unfold generate. rewrite Hd, Ht.
    destruct (Z.eqb_spec dsid 0) as [|_]; [contradiction|].
    destruct (List.filter _ (datasources s)) as [|ds' l]; [discriminate|].
    cbn [List.hd_error] in Hds. injection Hds as ->. rewrite Hs.
    fold (drafts_of b schema). rewrite (find_duplicates_nil _ _ Hfree). reflexivity. }
  rewrite E. clear E.
  destruct (keyless_drafts schema (apiName b) (apiPath b) Hpk) as (Hlist & Hkey & Hpar).
  fold name path in Hlist, Hkey, Hpar.
  unfold drafts_of in *. rewrite Hsel in *.
  change (filter_selected []
            (APIGenerator.generateFullCRUDAPIs schema (apiName b) (apiPath b)))
    with (APIGenerator.generateFullCRUDAPIs schema (apiName b) (apiPath b)) in *.
  rewrite Hlist in *. cbn [List.map] in Hfree.
  inversion Hfree as [|? ? Hf1 Hfree2]; subst.
  inversion Hfree2 as [|? ? Hf2 _]; subst.
  destruct (insert_drafts_step s dsid (default "draft" (body_status b))
              (default "default" (body_category b)) (userId e) []
              (APIGenerator.generateGetAPI name path (table_name schema) (columns schema))
              [ APIGenerator.generatePostAPI name path (table_name schema) (columns schema);
                APIGenerator.generateBulkGetAPI name path (table_name schema) (columns schema);
                APIGenerator.generateSearchAPI name path (table_name schema) (columns schema);
                APIGenerator.generateCountAPI name path (table_name schema) ])
    as (s1 & r1 & c1 & E1 & Ha1 & Hw1 & Ho1).
  { injection Hkey as _ Hm. rewrite Hm. reflexivity. }
  { exact Hst. }
  { exact Hf1. }
  { rewrite Hpar. repeat constructor. }
  rewrite E1. clear E1.
  assert (Hr1 : row_route r1 = (path, "GET")).
  { destruct Hw1 as (_ & Hp & Hm & _). unfold row_route. rewrite Hp, Hm. exact Hkey. }
  destruct (insert_drafts_step s1 dsid (default "draft" (body_status b))
              (default "default" (body_category b)) (userId e)
              ([] ++ [c1])
              (APIGenerator.generatePostAPI name path (table_name schema) (columns schema))
              [ APIGenerator.generateBulkGetAPI name path (table_name schema) (columns schema);
                APIGenerator.generateSearchAPI name path (table_name schema) (columns schema);
                APIGenerator.generateCountAPI name path (table_name schema) ])
    as (s2 & r2 & c2 & E2 & Ha2 & Hw2 & Ho2).
  { reflexivity. }
  { exact Hst. }
  { unfold route_taken in *. rewrite Ha1, existsb_app, Hf2. cbn [existsb orb].
    rewrite orb_false_r. unfold same_route.
    injection Hr1 as _ Hm1. rewrite Hm1.
    cbn [APIGenerator.route_key APIGenerator.generatePostAPI APIGenerator.method snd].
    apply andb_false_r. }
  { apply post_parameters_allowed, Htypes. }
  rewrite E2. clear E2.
  rewrite insert_drafts_taken.
  - exists r1, r2. cbn [fst snd]. rewrite Ha2, Ha1, <- List.app_assoc.
    split; [reflexivity|]. split; [reflexivity|].
    split; [exact Hw1|]. split; [exact Hw2|]. congruence.
  - unfold route_taken. rewrite Ha2, Ha1, !existsb_app.
    cbn [existsb APIGenerator.route_key APIGenerator.generateBulkGetAPI
         APIGenerator.path APIGenerator.method fst snd].
    unfold same_route at 2. injection Hr1 as Hp1 Hm1. rewrite Hp1, Hm1.
    rewrite !String.eqb_refl. cbn [andb orb]. rewrite orb_true_r. reflexivity.
Qed.

End GeneratePartial.

(** X29: for a table without a primary key, a request that selects nothing
    in particular, passes the gates and the duplicate check, has a status
    the table accepts and only columns of known types, is answered with the
    error 500, and yet two endpoints stay stored: the list draft and the
    POST draft, written before the paginated list draft is rejected for the
    route of the first. No operation log entry is written. *)
Theorem generate_without_key_fails_half_done
    (getTableSchema : Z -> string -> string -> string + SchemaIntrospector.TableInfo)
    (b : GenerateRoute.body) (e : GenerateRoute.env) (s : GenerateRoute.store)
    (dsid : Z) (tn : string) (ds : Execute.datasource)
    (schema : SchemaIntrospector.TableInfo) :
  GenerateRoute.datasourceId b = Some dsid -> dsid <> 0%Z ->
  GenerateRoute.present (GenerateRoute.tableName b) = Some tn ->
  List.hd_error
    (List.filter (fun d => (Execute.ds_id d =? dsid)%Z) (GenerateRoute.datasources s))
  = Some ds ->
  getTableSchema dsid (Execute.type ds) tn = inr schema ->
  APIGenerator.primaryKey_of (SchemaIntrospector.columns schema) = None ->
  default [] (GenerateRoute.selectedAPIs b) = [] ->
  GenerateRoute.status_allowed (default "draft" (GenerateRoute.body_status b)) = true ->
  List.Forall (fun k => GenerateRows.route_taken s k = false)
    (List.map APIGenerator.route_key (GenerateRows.drafts_of b schema)) ->
  (forall col,
      In col (SchemaIntrospector.columns schema) ->
      SchemaIntrospector.isAutoIncrement col = false ->
      SchemaIntrospector.mapColumnTypeToJoi (SchemaIntrospector.col_type col)
      <> "object") ->
  let name :=
    APIGenerator.name_or_default (GenerateRoute.apiName b)
      (SchemaIntrospector.table_name schema) in
  let path :=
    APIGenerator.path_or_default (GenerateRoute.apiPath b)
      (SchemaIntrospector.table_name schema) in
  exists r1 r2,
    fst (GenerateRoute.generate getTableSchema b e s) = GenerateRoute.ServerError
    /\ GenerateRoute.apis (snd (GenerateRoute.generate getTableSchema b e s))
       = GenerateRoute.apis s ++ [r1; r2]
    /\ GenerateRows.written_as dsid
         (default "draft" (GenerateRoute.body_status b))
         (default "default" (GenerateRoute.body_category b))
         (GenerateRoute.userId e)
         (APIGenerator.generateGetAPI name path
            (SchemaIntrospector.table_name schema)
            (SchemaIntrospector.columns schema))
         r1
    /\ GenerateRows.written_as dsid
         (default "draft" (GenerateRoute.body_status b))
         (default "default" (GenerateRoute.body_category b))
         (GenerateRoute.userId e)
         (APIGenerator.generatePostAPI name path
            (SchemaIntrospector.table_name schema)
            (SchemaIntrospector.columns schema))
         r2
    /\ GenerateRoute.operation_logs
         (snd (GenerateRoute.generate getTableSchema b e s))
       = GenerateRoute.operation_logs s.
Proof. apply keyless_partial. Qed.

Lemma generate_without_key_fails_half_done_witness :
  fst (GenerateRoute.generate Examples.reads_events (Examples.generate_all "events")
         Examples.admin_env Examples.empty_metadata)
  = GenerateRoute.ServerError
  /\ List.length
       (GenerateRoute.apis
          (snd (GenerateRoute.generate Examples.reads_events
                  (Examples.generate_all "events") Examples.admin_env
                  Examples.empty_metadata)))
     = 2%nat.
Proof.
  destruct (generate_without_key_fails_half_done Examples.reads_events
              (Examples.generate_all "events") Examples.admin_env
              Examples.empty_metadata 1%Z "events" Examples.main_db
              Examples.events_table)
    as (r1 & r2 & Hf & Ha & _).
  - reflexivity.
  - discriminate.
  - reflexivity.
  - reflexivity.
  - reflexivity.
  - reflexivity.
  - reflexivity.
  - reflexivity.
  - repeat constructor.
  - intros col [<-|[]] _. vm_compute. discriminate.
  - split; [exact Hf|]. rewrite Ha. reflexivity.
Defined.
